(** * Wine-search: the product-page parser and the rating matcher of [main.py]

    A shallow embedding of the pure and the stateful parts of [main.py]
    (price and bottle-size parsing, the three extraction strategies and
    their merge, the classification gate, the rating extraction, the backoff
    loop and the cached lookup), followed by the properties that the
    specification states about them. *)

From Stdlib Require Import DecimalString ZArith QArith Lqa Lia List Bool String Ascii.
From stdpp Require Import base option list strings gmap.

Local Open Scope Z_scope.

(** ** Python strings

    A Python [str] is a sequence of Unicode code points. *)

Abbreviation str := (list Z).

(** An ASCII literal as a [str]. *)
Definition py (s : string) : str :=
  map (fun a => Z.of_N (N_of_ascii a)) (list_ascii_of_string s).

(** The characters of the source that are not ASCII. *)
Definition MEM : Z := 1502.        (* U+05DE, Hebrew letter mem *)
Definition LAMED : Z := 1500.      (* U+05DC, Hebrew letter lamed *)
Definition GERSHAYIM : Z := 1524.  (* U+05F4, Hebrew punctuation gershayim *)
Definition SHEQEL : Z := 8362.     (* U+20AA, new sheqel sign *)

Definition is_ascii (c : Z) : bool := (0 <=? c) && (c <? 128).

Definition ascii_digit (c : Z) : bool := (48 <=? c) && (c <=? 57).

Definition ascii_space (c : Z) : bool :=
  ((9 <=? c) && (c <=? 13)) || ((28 <=? c) && (c <=? 32)).

Definition ascii_alnum (c : Z) : bool :=
  ascii_digit c || ((65 <=? c) && (c <=? 90)) || ((97 <=? c) && (c <=? 122)).

Definition ascii_lower (c : Z) : Z :=
  if (65 <=? c) && (c <=? 90) then c + 32 else c.

(** The part of the Unicode character database that [re], [int], [str.strip]
    and [str.lower] consult.  The database belongs to the interpreter, not to
    the program, so it is a parameter; what is fixed is its ASCII part and
    the classes of the four non-ASCII characters above. *)
Class Unicode := {
  (** [\d], and the value [int] gives the digit *)
  digit_value : Z -> option Z;
  (** [\s] and [str.isspace] *)
  isspace : Z -> bool;
  (** the alphanumeric characters; [\w] adds the underscore *)
  isalnum : Z -> bool;
  (** [str.lower] *)
  lower : str -> str;

  digit_value_ascii c :
    is_ascii c = true ->
    digit_value c = if ascii_digit c then Some (c - 48) else None;
  digit_value_range c v : digit_value c = Some v -> 0 <= v <= 9;
  isspace_ascii c : is_ascii c = true -> isspace c = ascii_space c;
  isalnum_ascii c : is_ascii c = true -> isalnum c = ascii_alnum c;
  digit_alnum c v : digit_value c = Some v -> isalnum c = true;
  digit_not_space c v : digit_value c = Some v -> isspace c = false;
  hebrew_letter c :
    c = MEM \/ c = LAMED ->
    digit_value c = None /\ isspace c = false /\ isalnum c = true;
  hebrew_punct c :
    c = GERSHAYIM \/ c = SHEQEL ->
    digit_value c = None /\ isspace c = false /\ isalnum c = false;
  (** lowering maps an ASCII stretch to its ASCII lower case, whatever
      surrounds it *)
  lower_ascii_stretch x p y :
    forallb is_ascii p = true ->
    exists x' y', lower (x ++ p ++ y) = x' ++ map ascii_lower p ++ y'
}.

(** The database restricted to ASCII: every other code point is taken to be
    a symbol.  It agrees with the interpreter's on ASCII text and serves to
    run the definitions on such text. *)
Definition ascii_digit_value (c : Z) : option Z :=
  if ascii_digit c then Some (c - 48) else None.
Definition ascii_isspace (c : Z) : bool := ascii_space c.
Definition ascii_isalnum (c : Z) : bool :=
  ascii_alnum c || (c =? MEM) || (c =? LAMED).
Definition ascii_str_lower (s : str) : str := map ascii_lower s.

#[refine] Instance ascii_unicode : Unicode := {|
  digit_value := ascii_digit_value;
  isspace := ascii_isspace;
  isalnum := ascii_isalnum;
  lower := ascii_str_lower
|}.
Proof.
  - reflexivity.
  - unfold ascii_digit_value, ascii_digit. intros c v.
    destruct (_ && _) eqn:E; [|discriminate]. intros [= <-]. lia.
  - reflexivity.
  - unfold ascii_isalnum, is_ascii, MEM, LAMED. intros c Hc.
    replace (c =? 1502) with false by lia. replace (c =? 1500) with false by lia.
    now rewrite !orb_false_r.
  - unfold ascii_digit_value, ascii_isalnum, ascii_alnum. intros c v.
    destruct (ascii_digit c); [reflexivity|discriminate].
  - unfold ascii_digit_value, ascii_isspace, ascii_digit, ascii_space.
    intros c v. destruct (_ && _) eqn:E; [|discriminate]. intros _. lia.
  - unfold MEM, LAMED. intros c [-> | ->]; repeat split; reflexivity.
  - unfold GERSHAYIM, SHEQEL. intros c [-> | ->]; repeat split; reflexivity.
  - intros x p y _. exists (map ascii_lower x), (map ascii_lower y).
    unfold ascii_str_lower. now rewrite !map_app.
Defined.

(** ** The regular expressions of the program

    [re] matches by backtracking: alternatives are tried left to right,
    repetitions are greedy, and [search] takes the first position at which
    the pattern matches.  The patterns of [main.py] repeat single character
    classes only and hold at most one capturing group. *)

Inductive regex :=
| Lit (c : Z)                                     (* a literal character *)
| Class (p : Z -> bool)                           (* [\d], [\s], [[0-9]], [[^}]] *)
| Cat (r1 r2 : regex)
| Alt (r1 r2 : regex)                             (* [r1|r2] *)
| Empty
| Repeat (p : Z -> bool) (lo : nat) (hi : option nat)  (* [p{lo,hi}], [p*], [p+] *)
| Group (r : regex)                               (* [(r)], group 1 *)
| WordBoundary.                                   (* [\b] *)

Definition Opt (r : regex) : regex := Alt r Empty.          (* [(?:r)?] *)
Definition Star (p : Z -> bool) : regex := Repeat p 0 None.  (* [p*] *)
Definition Plus (p : Z -> bool) : regex := Repeat p 1 None.  (* [p+] *)

Fixpoint Lits (s : str) : regex :=
  match s with
  | [] => Empty
  | [c] => Lit c
  | c :: s' => Cat (Lit c) (Lits s')
  end.

(** A sequence of patterns, one after the other. *)
Fixpoint Seq (l : list regex) : regex :=
  match l with
  | [] => Empty
  | [r] => r
  | r :: l' => Cat r (Seq l')
  end.

(** A literal under [re.IGNORECASE] matches the characters whose lower case
    is the literal's.  For the letters the patterns use (m, l, o, u, t, f)
    these are the two ASCII cases; the Hebrew letters have no case. *)
Definition lit_eq (ic : bool) (c x : Z) : bool :=
  if ic then ascii_lower x =? ascii_lower c else x =? c.

Section Matcher.
Context {U : Unicode}.

Definition is_digit (c : Z) : bool := bool_decide (is_Some (digit_value c)).
Definition is_word (c : Z) : bool := isalnum c || (c =? 95).
Definition word_at (c : option Z) : bool :=
  match c with Some x => is_word x | None => false end.

Section Run.
Context {A : Type}.
Variable ic : bool.

(** Greedy repetition of a class: take one more character while allowed,
    and give characters back one at a time when what follows fails. *)
Fixpoint rep (p : Z -> bool) (lo : nat) (hi : option nat)
    (prev : option Z) (s : str)
    (k : option Z -> str -> option A) : option A :=
  let stop := if (lo =? 0)%nat then k prev s else None in
  match s with
  | x :: s' =>
      if p x && negb (bool_decide (hi = Some 0%nat)) then
        match rep p (Nat.pred lo) (Nat.pred <$> hi) (Some x) s' k with
        | Some a => Some a
        | None => stop
        end
      else stop
  | [] => stop
  end.

(** [rmatch r prev s g k]: match [r] at the front of [s], where [prev] is
    the character before it and [g] the group captured so far; [k] is what
    has to match afterwards. *)
Fixpoint rmatch (r : regex) (prev : option Z) (s : str) (g : option str)
    (k : option Z -> str -> option str -> option A) : option A :=
  match r with
  | Lit c =>
      match s with
      | x :: s' => if lit_eq ic c x then k (Some x) s' g else None
      | [] => None
      end
  | Class p =>
      match s with
      | x :: s' => if p x then k (Some x) s' g else None
      | [] => None
      end
  | Cat r1 r2 =>
      rmatch r1 prev s g (fun prev' s' g' => rmatch r2 prev' s' g' k)
  | Alt r1 r2 =>
      match rmatch r1 prev s g k with
      | Some a => Some a
      | None => rmatch r2 prev s g k
      end
  | Empty => k prev s g
  | Repeat p lo hi => rep p lo hi prev s (fun prev' s' => k prev' s' g)
  | Group r1 =>
      rmatch r1 prev s g
        (fun prev' s' _ => k prev' s' (Some (take (length s - length s') s)))
  | WordBoundary =>
      if xorb (word_at prev) (word_at (head s)) then k prev s g else None
  end.
End Run.

(** A match: the text of group 1 and what is left of the input after the
    match. *)
Record rmatch_result := { group1 : str; after : str }.

Definition match_here (ic : bool) (r : regex) (prev : option Z) (s : str)
    : option rmatch_result :=
  rmatch ic r prev s None
    (fun _ s' g => Some {| group1 := default [] g; after := s' |}).

(** [re.search]: the first position, from the left, at which [r] matches. *)
Fixpoint search_from (ic : bool) (r : regex) (prev : option Z) (s : str)
    : option rmatch_result :=
  match match_here ic r prev s with
  | Some m => Some m
  | None =>
      match s with
      | [] => None
      | x :: s' => search_from ic r (Some x) s'
      end
  end.

Definition search (ic : bool) (r : regex) (s : str) : option rmatch_result :=
  search_from ic r None s.
End Matcher.

(** ** Python floats

    A [float] is an IEEE 754 binary64 number.  A finite one is kept as the
    pair [(m, e)] of its value [m * 2^e], in the form the conversion below
    produces: [2^52 <= |m| < 2^53] for a normal number, [e = -1074] for a
    subnormal one. *)

Inductive float :=
| Finite (m e : Z)
| Infinity (negative : bool)
| NaN.

(** The integer nearest to [p / q] for [q > 0], ties to the even one. *)
Definition round_half_even (p q : Z) : Z :=
  let d := p / q in
  let r := p mod q in
  if 2 * r <? q then d
  else if q <? 2 * r then d + 1
  else if Z.even d then d else d + 1.

(** The float of significand [m] and exponent [sh] after rounding: a
    significand that rounded up to [2^53] moves to the next exponent, and an
    exponent above the largest one overflows to infinity. *)
Definition pack (m sh : Z) : float :=
  let '(m', sh') := if m =? 2 ^ 53 then (2 ^ 52, sh + 1) else (m, sh) in
  if m' =? 0 then Finite 0 0
  else if 971 <? sh' then Infinity false
  else Finite m' sh'.

(** The binary64 number nearest to [p / q], for [p > 0] and [q > 0]: with
    [e1] the exponent of the leading bit of [p / q], the quotient is rounded
    at the 53rd bit, or at [2^-1074] in the subnormal range. *)
Definition fl_pos (p q : Z) : float :=
  let e0 := Z.log2 p - Z.log2 q in
  let e1 := if p * 2 ^ Z.max 0 (- e0) <? q * 2 ^ Z.max 0 e0 then e0 - 1 else e0 in
  let sh := Z.max (e1 - 52) (-1074) in
  pack (round_half_even (p * 2 ^ Z.max 0 (- sh)) (q * 2 ^ Z.max 0 sh)) sh.

Definition fneg (x : float) : float :=
  match x with
  | Finite m e => Finite (- m) e
  | Infinity s => Infinity (negb s)
  | NaN => NaN
  end.

(** Correct rounding of the rational [p / q], [q > 0]: what [float] does to
    a decimal literal and what each arithmetic operation does to its exact
    result. *)
Definition fl (p q : Z) : float :=
  if p =? 0 then Finite 0 0
  else if p <? 0 then fneg (fl_pos (- p) q)
  else fl_pos p q.

Definition float_of_Z (n : Z) : float := fl n 1.

(** [x <= y] on floats; a comparison with NaN is false. *)
Definition fle (x y : float) : bool :=
  match x, y with
  | NaN, _ | _, NaN => false
  | Infinity true, _ => true
  | _, Infinity false => true
  | Infinity false, _ => false
  | _, Infinity true => false
  | Finite m1 e1, Finite m2 e2 =>
      let e := Z.min e1 e2 in
      m1 * 2 ^ (e1 - e) <=? m2 * 2 ^ (e2 - e)
  end.

(** The truth value of a float: anything but zero. *)
Definition float_truthy (x : float) : bool :=
  match x with
  | Finite m _ => negb (m =? 0)
  | _ => true
  end.

(** [x] is finite and its value is exactly [p / q]. *)
Definition float_is (x : float) (p q : Z) : Prop :=
  match x with
  | Finite m e => m * 2 ^ Z.max 0 e * q = p * 2 ^ Z.max 0 (- e)
  | _ => False
  end.

(** [round(x, 2)]: the exact value of [x] is rounded to two decimals, ties
    to even, and the result converted back. *)
Definition round2 (x : float) : float :=
  match x with
  | Finite m e =>
      fl (round_half_even (m * 100 * 2 ^ Z.max 0 e) (2 ^ Z.max 0 (- e))) 100
  | _ => x
  end.

(** The value of a run of ASCII digits. *)
Definition digits_value (s : str) : Z :=
  fold_left (fun acc c => 10 * acc + (c - 48)) s 0.

(** The longest prefix of [s] whose characters satisfy [p], and the rest. *)
Fixpoint span (p : Z -> bool) (s : str) : str * str :=
  match s with
  | x :: s' => if p x then let '(a, b) := span p s' in (x :: a, b) else ([], s)
  | [] => ([], [])
  end.

(** [float(s)] on the strings the patterns capture, which hold ASCII digits
    and dots only: digits with at most one dot, and at least one digit.
    Any other string over these characters raises [ValueError], here [None]. *)
Definition py_float (s : str) : option float :=
  let '(ip, rest) := span ascii_digit s in
  match rest with
  | [] => if bool_decide (ip = []) then None else Some (fl (digits_value ip) 1)
  | c :: fp =>
      if (c =? 46) && forallb ascii_digit fp
         && negb (bool_decide (ip = []) && bool_decide (fp = []))
      then Some (fl (digits_value (ip ++ fp)) (10 ^ Z.of_nat (length fp)))
      else None
  end.

(** [s.replace(c, "")] for a single character [c]. *)
Definition remove_char (c : Z) (s : str) : str :=
  List.filter (fun x => negb (x =? c)) s.

Definition COMMA : Z := 44.
Definition DOT : Z := 46.

Section Utils.
Context {U : Unicode}.

(** [int(s)] on a run of decimal digits of any script. *)
Fixpoint int_digits (acc : Z) (s : str) : option Z :=
  match s with
  | [] => Some acc
  | c :: s' =>
      match digit_value c with
      | Some v => int_digits (10 * acc + v) s'
      | None => None
      end
  end.

Definition py_int (s : str) : option Z :=
  match s with [] => None | _ => int_digits 0 s end.

(** [PRICE_RE = ([0-9]+(?:[.,][0-9]+)?)] *)
Definition PRICE_RE : regex :=
  Group (Seq [Plus ascii_digit;
              Opt (Seq [Class (fun c => (c =? DOT) || (c =? COMMA));
                        Plus ascii_digit])]).

(** [(?:ml|מ״ל|מל|ML|Ml)], the unit of [ML_RE] *)
Definition UNIT_RE : regex :=
  Alt (Lits (py "ml"))
 (Alt (Lits [MEM; GERSHAYIM; LAMED])
 (Alt (Lits [MEM; LAMED])
 (Alt (Lits (py "ML"))
      (Lits (py "Ml"))))).

(** [ML_RE = (\d{2,5})\s*(?:ml|מ״ל|מל|ML|Ml)\b], with [re.IGNORECASE] *)
Definition ML_RE : regex :=
  Seq [Group (Repeat is_digit 2 (Some 5%nat));
       Star isspace;
       UNIT_RE;
       WordBoundary].

(** [ML_NUMBER_RE = (\d{2,5})] *)
Definition ML_NUMBER_RE : regex := Group (Repeat is_digit 2 (Some 5%nat)).

Definition parse_price (text : str) : option float :=
  match text with
  | [] => None
  | _ =>
      match search false PRICE_RE (remove_char COMMA text) with
      | None => None
      | Some m => py_float (group1 m)
      end
  end.

Definition extract_ml (text : str) : option Z :=
  match text with
  | [] => None
  | _ =>
      (* remove common thousands separators *)
      let cleaned := remove_char COMMA text in
      match search true ML_RE cleaned ≫= (fun m => py_int (group1 m)) with
      | Some n => Some n
      | None =>
          match search false ML_NUMBER_RE cleaned with
          | Some m2 =>
              match py_int (group1 m2) with
              | Some ml =>
                  if (50 <=? ml) && (ml <=? 3000) then Some ml else None
              | None => None
              end
          | None => None
          end
      end
  end.
End Utils.

(** ** Values, dictionaries and exceptions *)

(** What [json.loads] returns. *)
#[warning="-register-all"]
Inductive json :=
| JNull
| JBool (b : bool)
| JInt (n : Z)
| JFloat (f : float)
| JStr (s : str)
| JList (l : list json)
| JObj (fields : list (str * json)).

(** The values the extraction dictionaries hold. *)
Inductive value :=
| VNone
| VStr (s : str)
| VFloat (f : float)
| VInt (n : Z).

Inductive exn := TypeError | AttributeError.

Inductive result (A : Type) :=
| Ret (a : A)
| Raise (e : exn).
Arguments Ret {A} a.
Arguments Raise {A} e.

#[global] Instance result_ret : MRet result := fun A a => Ret a.
#[global] Instance result_bind : MBind result := fun A B f x =>
  match x with
  | Ret a => f a
  | Raise e => Raise e
  end.

(** A [for] loop whose body may raise. *)
Fixpoint for_each {A S} (body : S -> A -> result S) (st : S) (l : list A)
    : result S :=
  match l with
  | [] => Ret st
  | a :: l' => st' ← body st a; for_each body st' l'
  end.

(** Truth values. *)
Definition json_truthy (j : json) : bool :=
  match j with
  | JNull => false
  | JBool b => b
  | JInt n => negb (n =? 0)
  | JFloat f => float_truthy f
  | JStr s => negb (bool_decide (s = []))
  | JList l => negb (bool_decide (length l = 0%nat))
  | JObj o => negb (bool_decide (length o = 0%nat))
  end.

Definition truthy (v : value) : bool :=
  match v with
  | VNone => false
  | VStr s => negb (bool_decide (s = []))
  | VFloat f => float_truthy f
  | VInt n => negb (n =? 0)
  end.

(** [d.get(k)]: the value at [k], [None] when the key is missing. *)
Definition dict_get (d : gmap string value) (k : string) : value :=
  default VNone (d !! k).

(** The same on a JSON object.  [json.loads] keeps one value per key. *)
Fixpoint obj_lookup (o : list (str * json)) (k : str) : option json :=
  match o with
  | [] => None
  | (k', v) :: o' => if bool_decide (k' = k) then Some v else obj_lookup o' k
  end.

Definition obj_get (o : list (str * json)) (k : str) : json :=
  default JNull (obj_lookup o k).

Definition opt_float (x : option float) : value :=
  match x with Some f => VFloat f | None => VNone end.

Definition opt_int (x : option Z) : value :=
  match x with Some n => VInt n | None => VNone end.

(** [needle in hay] on strings. *)
Fixpoint starts_with (p s : str) : bool :=
  match p, s with
  | [], _ => true
  | a :: p', b :: s' => (a =? b) && starts_with p' s'
  | _ :: _, [] => false
  end.

Fixpoint contains (needle hay : str) : bool :=
  starts_with needle hay ||
  match hay with
  | [] => false
  | _ :: hay' => contains needle hay'
  end.

(** [sep.join(l)] *)
Fixpoint join (sep : str) (l : list str) : str :=
  match l with
  | [] => []
  | [x] => x
  | x :: l' => x ++ sep ++ join sep l'
  end.

(** ** The parsed page

    BeautifulSoup is outside the program; a parsed page is what its queries
    in [main.py] return. *)

(** A [<meta>] tag: the two attributes the program reads. *)
Record meta := { content : option str; value_attr : option str }.

(** An element: [get_text(" ", strip=True)] and the one attribute read. *)
Record element := { text : str; data_price_amount : option str }.

Record soup := {
  (** [find_all("script", type="application/ld+json")], each with the result
      of [json.loads] on its text, [None] when that raises *)
  ld_json : list (option json);
  og_type : option meta;                  (* [find("meta", property="og:type")] *)
  og_title : option meta;
  itemprop_price : option meta;           (* [find("meta", {"itemprop": "price"})] *)
  product_price_amount : option meta;
  twitter_data1 : option meta;
  og_description : option meta;
  h1_page_title_base : option element;    (* [select_one("h1.page-title .base")] *)
  h1_base : option element;
  h1_product_name : option element;
  h1 : option element;                    (* [find("h1")] *)
  span_price_amount : option element;     (* [select_one("span.price[data-price-amount]")] *)
  price_wrapper_price : option element;
  span_price : option element;
  description : option element;           (* [select_one("#description")] *)
  attribute_description : option element;
  short_description : option element;
  product_info_main : option element;
  tables : list element                   (* [select("table, .additional-attributes-wrapper")] *)
}.

(** [a or b] on two query results: a tag is always true. *)
Definition or_else {A} (a b : option A) : option A :=
  match a with Some _ => a | None => b end.

(** [a or b] on strings. *)
Definition str_or (a b : str) : str :=
  match a with [] => b | _ => a end.

(** The product record [parse_pdp] returns. *)
Record product := {
  name : str;
  price_value : float;
  bottle_size_ml : Z;
  url : str
}.

(** What the program imports besides [re]: [html.unescape], the [str] of a
    value that is not a string, and BeautifulSoup, which may be missing
    ([BeautifulSoup = None]).  A text without [&] holds no character reference
    and [unescape] returns it as it is. *)
Class Library := {
  unescape : str -> str;
  repr : json -> str;
  BeautifulSoup : option (str -> soup);
  unescape_plain s : 38 ∉ s -> unescape s = s
}.

Section PDP.
Context {U : Unicode} {L : Library}.

(** [str(x)] *)
Definition py_str (j : json) : str :=
  match j with JStr s => s | _ => repr j end.

(** [re.sub(r"\s+", " ", s)]: every maximal run of whitespace becomes one
    space.  [in_run] tells that the run the next character would belong to
    has been replaced already. *)
Fixpoint sub_spaces (in_run : bool) (s : str) : str :=
  match s with
  | [] => []
  | x :: s' =>
      if isspace x then
        if in_run then sub_spaces true s' else 32 :: sub_spaces true s'
      else x :: sub_spaces false s'
  end.

Fixpoint lstrip (s : str) : str :=
  match s with
  | x :: s' => if isspace x then lstrip s' else s
  | [] => []
  end.

Fixpoint rstrip (s : str) : str :=
  match s with
  | x :: s' =>
      let r := rstrip s' in
      if isspace x && bool_decide (r = []) then [] else x :: r
  | [] => []
  end.

(** [s.strip()] *)
Definition strip (s : str) : str := rstrip (lstrip s).

(** [normalize_name] on a string. *)
Definition normalize_name (name : str) : str :=
  strip (sub_spaces false (unescape name)).

(** [normalize_name] on a JSON value: [name or ""] turns a false value
    into the empty string; [unescape] or [re.sub] raises [TypeError] on a
    true value that is not a string. *)
Definition normalize_name_json (name : json) : result str :=
  if json_truthy name then
    match name with
    | JStr s => Ret (normalize_name s)
    | _ => Raise TypeError
    end
  else Ret (normalize_name []).

(** [obj.get("@type") in ("Product", ["Product"])] *)
Definition is_product_type (t : json) : bool :=
  match t with
  | JStr s => bool_decide (s = py "Product")
  | JList [JStr s] => bool_decide (s = py "Product")
  | _ => false
  end.

(** The three steps of the inner loop of [_from_json_ld] on an object [o]
    typed as a product.  First the name:
    [if "name" in obj and not data.get("name")]. *)
Definition ld_name (data : gmap string value) (o : list (str * json))
    : result (gmap string value) :=
  match obj_lookup o (py "name") with
  | Some nm =>
      if negb (truthy (dict_get data "name")) then
        n ← normalize_name_json nm;
        Ret (<["name" := VStr n]> data)
      else Ret data
  | None => Ret data
  end.

(** [offers.get("price") or offers.get("priceSpecification", {}).get("price")];
    the second [get] raises when the specification is not an object. *)
Definition offer_price (offers : list (str * json)) : result json :=
  let p := obj_get offers (py "price") in
  if json_truthy p then Ret p
  else match obj_lookup offers (py "priceSpecification") with
       | None => Ret JNull
       | Some (JObj spec) => Ret (obj_get spec (py "price"))
       | Some _ => Raise AttributeError
       end.

Definition ld_price (data : gmap string value) (o : list (str * json))
    : result (gmap string value) :=
  match obj_get o (py "offers") with
  | JObj offers =>
      price ← offer_price offers;
      if json_truthy price && negb (truthy (dict_get data "price_value"))
      then Ret (<["price_value" := opt_float (parse_price (py_str price))]> data)
      else Ret data
  | _ => Ret data
  end.

(** size might be in name/description *)
Definition ld_size (data : gmap string value) (o : list (str * json))
    : gmap string value :=
  let field k := py_str (default (JStr []) (obj_lookup o (py k))) in
  let desc_text := join (py " ") [field "description"; field "name"] in
  match extract_ml desc_text with
  | Some ml =>
      if negb (ml =? 0) && negb (truthy (dict_get data "bottle_size_ml"))
      then <["bottle_size_ml" := VInt ml]> data
      else data
  | None => data
  end.

(** The body of the inner loop of [_from_json_ld]. *)
Definition json_ld_object (data : gmap string value) (obj : json)
    : result (gmap string value) :=
  match obj with
  | JObj o =>
      if is_product_type (obj_get o (py "@type")) then
        data ← ld_name data o;
        data ← ld_price data o;
        Ret (ld_size data o)
      else Ret data
  | _ => Ret data
  end.

Definition _from_json_ld (s : soup) : result (gmap string value) :=
  for_each
    (fun data script =>
       match script with
       | None => Ret data                      (* [json.loads] raised *)
       | Some payload =>
           (* sometimes an array of things *)
           let candidates :=
             match payload with JList l => l | _ => [payload] end in
           for_each json_ld_object data candidates
       end)
    ∅ (ld_json s).

(** [tag.get("content", "")] *)
Definition content_of (t : meta) : str := default [] (content t).

Definition _from_meta_tags (s : soup) : gmap string value :=
  let data : gmap string value := ∅ in
  (* Open Graph *)
  let data :=
    match og_title s with
    | Some mt =>
        if negb (truthy (dict_get data "name"))
        then <["name" := VStr (normalize_name (content_of mt))]> data
        else data
    | None => data
    end in
  (* Price metas *)
  let data :=
    fold_left
      (fun data tag =>
         match tag with
         | Some t =>
             if negb (truthy (dict_get data "price_value"))
             then <["price_value" :=
                      opt_float (parse_price
                        (str_or (content_of t) (default [] (value_attr t))))]> data
             else data
         | None => data
         end)
      [itemprop_price s; product_price_amount s; twitter_data1 s] data in
  (* look for og:description for ml *)
  match og_description s with
  | Some md =>
      if negb (truthy (dict_get data "bottle_size_ml"))
      then <["bottle_size_ml" := opt_int (extract_ml (content_of md))]> data
      else data
  | None => data
  end.

Definition _from_dom_selectors (s : soup) : gmap string value :=
  let data : gmap string value := ∅ in
  (* name *)
  let title :=
    or_else (h1_page_title_base s)
      (or_else (h1_base s) (or_else (h1_product_name s) (h1 s))) in
  let data :=
    match title with
    | Some t =>
        if negb (truthy (dict_get data "name"))
        then <["name" := VStr (normalize_name (text t))]> data
        else data
    | None => data
    end in
  (* price wrappers *)
  let price_el :=
    or_else (span_price_amount s)
      (or_else (price_wrapper_price s) (span_price s)) in
  let data :=
    match price_el with
    | Some el =>
        if negb (truthy (dict_get data "price_value")) then
          (* prefer data attribute *)
          let amt := default [] (data_price_amount el) in
          <["price_value" := opt_float (parse_price (str_or amt (text el)))]> data
        else data
    | None => data
    end in
  (* try to find ml anywhere in the core info *)
  let blobs :=
    omap (fmap text)
      [description s; attribute_description s; short_description s;
       product_info_main s]
    ++ match title with Some t => [text t] | None => [] end
    ++ map text (tables s) in
  let blob := join (py " | ") blobs in
  if negb (bool_decide (blob = []))
     && negb (truthy (dict_get data "bottle_size_ml"))
  then <["bottle_size_ml" := opt_int (extract_ml blob)]> data
  else data.

(** The first test of [page_looks_like_product]:
    [ogtype and "product" in (ogtype.get("content") or "").lower()]. *)
Definition has_product_marker (s : soup) : bool :=
  match og_type s with
  | Some ogtype => contains (py "product") (lower (default [] (content ogtype)))
  | None => false
  end.

Definition page_looks_like_product (s : soup) : result bool :=
  if has_product_marker s then Ret true
  else (* JSON-LD Product present? *)
    j ← _from_json_ld s; Ret (truthy (dict_get j "name")).

(** The inner loop of the merge:
    [for k, v in chunk.items(): if v and not data.get(k): data[k] = v]. *)
Definition merge_chunk (data chunk : gmap string value) : gmap string value :=
  map_fold
    (fun k v data =>
       if truthy v && negb (truthy (dict_get data k)) then <[k := v]> data
       else data)
    data chunk.

(** The three strategies, in the order of the loop. *)
Definition extractors : list (soup -> result (gmap string value)) :=
  [_from_json_ld;
   (fun s => Ret (_from_meta_tags s));
   (fun s => Ret (_from_dom_selectors s))].

Definition merge_all (s : soup) : result (gmap string value) :=
  for_each
    (fun data extractor => chunk ← extractor s; Ret (merge_chunk data chunk))
    ∅ extractors.

(** [₪\s*([0-9]+(?:[.,][0-9]+)?)] *)
Definition SHEQEL_RE : regex :=
  Seq [Lit SHEQEL; Star isspace; PRICE_RE].

(** The last resort for the price: a number next to the currency sign in
    the raw markup. *)
Definition salvage_price (html : str) : option float :=
  match search false SHEQEL_RE html with
  | Some m => py_float (remove_char COMMA (group1 m))
  | None => None
  end.

(** [float(x)] and [int(x)] on the values a dictionary holds. *)
Definition to_float (v : value) : result float :=
  match v with
  | VFloat f => Ret f
  | VInt n => Ret (float_of_Z n)
  | _ => Raise TypeError
  end.

Definition to_int (v : value) : result Z :=
  match v with
  | VInt n => Ret n
  | _ => Raise TypeError
  end.

(** The part of [parse_pdp] after the gate: merge, salvage, defaults. *)
Definition build_record (s : soup) (html url : str) : result (option product) :=
  (* priority: JSON-LD -> meta tags -> DOM *)
  data ← merge_all s;
  nm ← (let v := dict_get data "name" in
        if truthy v then
          match v with
          | VStr n => Ret (normalize_name n)
          | _ => Raise TypeError
          end
        else Ret (normalize_name []));
  let price := dict_get data "price_value" in
  let ml := dict_get data "bottle_size_ml" in
  if bool_decide (nm = []) then Ret None else
  let price :=
    match price with
    | VNone => opt_float (salvage_price html)   (* final hail-mary *)
    | _ => price
    end in
  match price with
  | VNone => Ret None
  | _ =>
      let ml := if negb (truthy ml) then VInt 750 else ml in   (* sane default *)
      p ← to_float price;
      m ← to_int ml;
      Ret (Some {| name := nm; price_value := p;
                   bottle_size_ml := m; url := url |})
  end.

Definition parse_pdp (html url : str) : result (option product) :=
  if bool_decide (html = []) then Ret None else
  match BeautifulSoup with
  | None => Ret None
  | Some parser =>
      let s := parser html in
      ok ← page_looks_like_product s;
      if negb ok then Ret None else build_record s html url
  end.
End PDP.

(** ** The rating matcher *)

Definition QUOTE : Z := 34.

Definition in_class (lo hi : Z) (c : Z) : bool := (lo <=? c) && (c <=? hi).

(** [2.5 <= val <= 5.0] *)
Definition plausible (val : float) : bool :=
  fle (fl 5 2) val && fle val (fl 5 1).

Section Rating.
Context {U : Unicode}.

(** ["rating"\s*:\s*{[^}]*"average"\s*:\s*([0-9.]+)] *)
Definition RATING_JSON_RE : regex :=
  Seq [Lits ([QUOTE] ++ py "rating" ++ [QUOTE]);
       Star isspace; Lit 58; Star isspace;
       Lit 123;
       Star (fun c => negb (c =? 125));
       Lits ([QUOTE] ++ py "average" ++ [QUOTE]);
       Star isspace; Lit 58; Star isspace;
       Group (Plus (fun c => ascii_digit c || (c =? DOT)))].

(** [([3-5]\.[0-9])\s*(?:/|out of)?\s*5], with [re.I] *)
Definition RATING_TEXT_RE : regex :=
  Seq [Group (Seq [Class (in_class 51 53); Lit DOT; Class ascii_digit]);
       Star isspace;
       Opt (Alt (Lit 47) (Lits (py "out of")));
       Star isspace;
       Lit 53].

(** One of the two attempts: the first match of the pattern, converted,
    kept when plausible. *)
Definition rating_by (ic : bool) (r : regex) (html : str) : option float :=
  match search ic r html with
  | Some m =>
      match py_float (group1 m) with
      | Some val => if plausible val then Some val else None
      | None => None
      end
  | None => None
  end.

Definition _extract_vivino_rating_from_html (html : str) : option float :=
  match rating_by false RATING_JSON_RE html with
  | Some val => Some val
  | None => rating_by true RATING_TEXT_RE html
  end.
End Rating.

(** *** The network and the clock

    A lookup talks to the network and sleeps.  Both are kept in the state it
    runs in: the requests and the sleeps it has made so far, and what the
    outside will answer and [random] will draw next.  Durations and random
    draws are exact rationals. *)

Inductive response :=
| Status (code : Z) (body : str)   (* an answer with this status and text *)
| Failure.                          (* a timeout or a transport error *)

Inductive event :=
| Sleep (seconds : Q)
| Get (url : str) (params : list (str * str)).

Record match_result := { vivino_url : str; vivino_rating : float }.

Record world := {
  (** [vivino_cache]; the value [None] is the negative marker *)
  vivino_cache : gmap str (option match_result);
  (** what has happened, the latest event first *)
  trace : list event;
  (** the answers to the requests still to come: [answers 0] to the next
      request, [answers 1] to the one after it *)
  answers : nat -> response;
  (** the results of the calls of [random.random] still to come *)
  draws : nat -> Q
}.

Definition emit (e : event) (w : world) : world :=
  {| vivino_cache := vivino_cache w; trace := e :: trace w;
     answers := answers w; draws := draws w |}.

(** [random.random()] *)
Definition random (w : world) : Q * world :=
  (draws w 0%nat,
   {| vivino_cache := vivino_cache w; trace := trace w;
      answers := answers w; draws := fun n => draws w (S n) |}).

(** [session.get]: the request is made and the next answer taken. *)
Definition request (url : str) (params : list (str * str)) (w : world)
    : response * world :=
  (answers w 0%nat,
   {| vivino_cache := vivino_cache w; trace := Get url params :: trace w;
      answers := fun n => answers w (S n); draws := draws w |}).

Definition set_cache (k : str) (v : option match_result) (w : world) : world :=
  {| vivino_cache := <[k := v]> (vivino_cache w); trace := trace w;
     answers := answers w; draws := draws w |}.

(** The number of requests in a trace. *)
Definition is_request (e : event) : bool :=
  match e with Get _ _ => true | Sleep _ => false end.

Definition requests (t : list event) : nat :=
  length (List.filter is_request t).

Definition BING_SEARCH_URL : str := py "https://www.bing.com/search".
Definition VIVINO_FALLBACK_SEARCH : str := py "https://www.vivino.com/search/wines".

(** [fetch_text] *)
Definition fetch_text (url : str) (params : list (str * str))
    (min_delay max_delay : Q) (w : world) : option str * world :=
  let '(r, w) := random w in
  let w := emit (Sleep (min_delay + (max_delay - min_delay) * r)%Q) w in
  let '(a, w) := request url params w in
  match a with
  | Status code body => if code =? 200 then (Some body, w) else (None, w)
  | Failure => (None, w)
  end.

(** The loop of [_fetch_vivino_search_with_backoff]: [attempt] is the number
    of the attempt to make, [left] how many attempts remain. *)
Fixpoint backoff_loop (params : list (str * str)) (left : nat) (attempt : Z)
    (delay : Q) (w : world) : option str * world :=
  match left with
  | O => (None, w)
  | S left' =>
      let w := emit (Sleep (if 1 <? attempt then delay else 0%Q)) w in
      let '(a, w) := request VIVINO_FALLBACK_SEARCH params w in
      match a with
      | Status code body =>
          if code =? 429 then
            let '(r, w) := random w in
            backoff_loop params left' (attempt + 1)
              (delay * ((17 # 10) + r * (3 # 10)))%Q w
          else if 400 <=? code then      (* [raise_for_status] *)
            backoff_loop params left' (attempt + 1) (delay * (14 # 10))%Q w
          else (Some body, w)
      | Failure =>
          backoff_loop params left' (attempt + 1) (delay * (14 # 10))%Q w
      end
  end.

Definition max_tries : nat := 6.

Definition _fetch_vivino_search_with_backoff (params : list (str * str))
    (w : world) : option str * world :=
  backoff_loop params max_tries 1 2%Q w.

(** The parts of the matcher that rest on [urllib] and on the translation
    table: the query translation, the links of a search-engine page and the
    links of a page of the site's own search.  No property below depends on
    what they return. *)
Class LinkExtraction := {
  _he_to_en_query : str -> str;
  _extract_all_vivino_links_from_bing : str -> list str;
  vivino_search_links : str -> list str
}.

Section Lookup.
Context {U : Unicode} {X : LinkExtraction}.

(** The loop over the first candidates. *)
Fixpoint scan_candidates (key : str) (urls : list str) (w : world)
    : option match_result * world :=
  match urls with
  | [] =>
      (None, set_cache key None w)
  | vu :: urls' =>
      let '(page, w) := fetch_text vu [] (6 # 10)%Q (12 # 10)%Q w in
      match page with
      | None | Some [] => scan_candidates key urls' w
      | Some page =>
          match _extract_vivino_rating_from_html page with
          | Some rating =>
              let res := {| vivino_url := vu; vivino_rating := round2 rating |} in
              (Some res, set_cache key (Some res) w)
          | None => scan_candidates key urls' w
          end
      end
  end.

Definition vivino_lookup (wine_name : str) (w : world)
    : option match_result * world :=
  let key := strip wine_name in
  match vivino_cache w !! key with
  | Some cached => (cached, w)
  | None =>
      let q_en := _he_to_en_query wine_name in
      let params :=
        [(py "q", py "site:vivino.com " ++ [QUOTE] ++ q_en ++ [QUOTE]);
         (py "setlang", py "en")] in
      let '(html, w) := fetch_text BING_SEARCH_URL params (4 # 10)%Q 1%Q w in
      let viv_urls :=
        match html with
        | None | Some [] => []
        | Some html => _extract_all_vivino_links_from_bing html
        end in
      let '(viv_urls, w) :=
        match viv_urls with
        | [] =>
            let '(vhtml, w) :=
              _fetch_vivino_search_with_backoff [(py "q", q_en)] w in
            match vhtml with
            | None | Some [] => ([], w)
            | Some vhtml => (vivino_search_links vhtml, w)
            end
        | _ => (viv_urls, w)
        end in
      scan_candidates key (take 3 viv_urls) w
  end.

End Lookup.

(** ** What a pattern matches

    The matches of a pattern, said without the search order: [matches ic r
    prev s g prev' s' g'] holds when [r] can consume a prefix of [s] and leave
    [s'], starting after the character [prev] with group [g] and ending after
    [prev'] with group [g'].  The matcher finds one of them, and finds one
    whenever there is one. *)

(** The character before the cursor once [ds] has been read. *)
Definition prev_after (prev : option Z) (ds : str) : option Z :=
  fold_left (fun _ x => Some x) ds prev.

Definition within (n : nat) (hi : option nat) : Prop :=
  match hi with Some h => (n <= h)%nat | None => True end.

Fixpoint matches `{Unicode} (ic : bool) (r : regex)
    (prev : option Z) (s : str) (g : option str)
    (prev' : option Z) (s' : str) (g' : option str) : Prop :=
  match r with
  | Lit c =>
      exists x, s = x :: s' /\ lit_eq ic c x = true /\ prev' = Some x /\ g' = g
  | Class p =>
      exists x, s = x :: s' /\ p x = true /\ prev' = Some x /\ g' = g
  | Cat r1 r2 =>
      exists p1 s1 g1,
        matches ic r1 prev s g p1 s1 g1 /\ matches ic r2 p1 s1 g1 prev' s' g'
  | Alt r1 r2 =>
      matches ic r1 prev s g prev' s' g' \/ matches ic r2 prev s g prev' s' g'
  | Empty => prev' = prev /\ s' = s /\ g' = g
  | Repeat p lo hi =>
      exists ds, s = ds ++ s' /\ forallb p ds = true
                 /\ (lo <= length ds)%nat /\ within (length ds) hi
                 /\ prev' = prev_after prev ds /\ g' = g
  | Group r1 =>
      exists g1, matches ic r1 prev s g prev' s' g1
                 /\ g' = Some (take (length s - length s') s)
  | WordBoundary =>
      xorb (word_at prev) (word_at (head s)) = true
      /\ prev' = prev /\ s' = s /\ g' = g
  end.

(** The spellings of the unit that [ML_RE] accepts: [ml] in any mix of
    cases, and the two Hebrew ones. *)
Definition unit_token (u : str) : Prop :=
  map ascii_lower u = py "ml" \/ u = [MEM; GERSHAYIM; LAMED] \/ u = [MEM; LAMED].

(** [s] starts with the number [ds], of two to five digits, followed after
    any whitespace by a unit that ends at a word boundary. *)
Definition unit_number_here `{Unicode} (s ds : str) : Prop :=
  exists ws u post,
    s = ds ++ ws ++ u ++ post
    /\ forallb is_digit ds = true /\ (2 <= length ds <= 5)%nat
    /\ forallb isspace ws = true
    /\ unit_token u
    /\ word_at (head post) = false.

(** [ds] is such a number somewhere in [cleaned]. *)
Definition unit_number `{Unicode} (cleaned ds : str) : Prop :=
  exists pre s, cleaned = pre ++ s /\ unit_number_here s ds.

(** [ds] is a run of two to five digits somewhere in [cleaned]. *)
Definition bare_number `{Unicode} (cleaned ds : str) : Prop :=
  exists pre post,
    cleaned = pre ++ ds ++ post
    /\ forallb is_digit ds = true /\ (2 <= length ds <= 5)%nat.

(** [s] does not go on with a number that ends just before it: it starts
    neither with a digit nor with a dot and a digit. *)
Definition ends_number (s : str) : bool :=
  match s with
  | [] => true
  | c :: rest =>
      negb (ascii_digit c)
      && negb ((c =? DOT) && match rest with d :: _ => ascii_digit d | [] => false end)
  end.

(** ** What the dictionaries hold

    The types of the three fields of a chunk and of the merged dictionary,
    and the first true value of a list, which is what the merge keeps. *)

Definition nonneg (f : float) : bool := fle (Finite 0 0) f.

Definition field_ok `{Unicode, Library} (k : string) (v : value) : Prop :=
  if bool_decide (k = "name") then exists x, v = VStr (normalize_name x)
  else if bool_decide (k = "price_value") then
    v = VNone \/ exists f, v = VFloat f /\ nonneg f = true
  else if bool_decide (k = "bottle_size_ml") then
    v = VNone \/ exists n, v = VInt n /\ 0 <= n
  else True.

Definition chunk_ok `{Unicode, Library} (c : gmap string value) : Prop :=
  map_Forall field_ok c.

(** A text in which every whitespace character is a single space that does
    not follow another one: what [re.sub(r"\s+", " ", s)] returns. *)
Fixpoint spaced `{Unicode} (in_run : bool) (s : str) : bool :=
  match s with
  | [] => true
  | x :: s' =>
      if isspace x then negb in_run && (x =? 32) && spaced true s'
      else spaced false s'
  end.

Fixpoint first_true (vs : list value) : value :=
  match vs with
  | [] => VNone
  | v :: vs' => if truthy v then v else first_true vs'
  end.

(** ** Concrete libraries and pages

    For running the definitions: [html.unescape] on texts whose only
    character reference is [&amp;], [str] on the few values that are not
    strings, and a parser that returns a given page. *)

Fixpoint unescape_amp (skip : nat) (s : str) : str :=
  match s with
  | [] => []
  | c :: s' =>
      match skip with
      | S n => unescape_amp n s'
      | O =>
          if (c =? 38) && starts_with (py "amp;") s'
          then 38 :: unescape_amp 4 s'
          else c :: unescape_amp 0 s'
      end
  end.

Definition simple_repr (j : json) : str :=
  match j with
  | JNull => py "None"
  | JBool true => py "True"
  | JBool false => py "False"
  | _ => []
  end.

#[refine] Instance page_library (parser : option (str -> soup)) : Library := {|
  unescape := unescape_amp 0;
  repr := simple_repr;
  BeautifulSoup := parser
|}.
Proof.
  intros s. induction s as [|c s IH]; [reflexivity|].
  intros Hn. cbn [unescape_amp].
  destruct (decide (c = 38)) as [->|Hc].
  - exfalso. apply Hn. left.
  - replace (c =? 38) with false by lia. cbn [andb]. f_equal. apply IH.
    intros Hin. apply Hn. now right.
Defined.

Definition no_page : soup := {|
  ld_json := []; og_type := None; og_title := None; itemprop_price := None;
  product_price_amount := None; twitter_data1 := None; og_description := None;
  h1_page_title_base := None; h1_base := None; h1_product_name := None;
  h1 := None; span_price_amount := None; price_wrapper_price := None;
  span_price := None; description := None; attribute_description := None;
  short_description := None; product_info_main := None; tables := []
|}.

Definition meta_content (c : string) : option meta :=
  Some {| content := Some (py c); value_attr := None |}.

Definition element_text (t : str) : option element :=
  Some {| text := t; data_price_amount := None |}.

(** A page with a heading and a price on display, but neither a product
    marker nor structured data. *)
Definition shell_page : soup := {|
  ld_json := []; og_type := meta_content "website"; og_title := None;
  itemprop_price := None; product_price_amount := None; twitter_data1 := None;
  og_description := None;
  h1_page_title_base := None; h1_base := None; h1_product_name := None;
  h1 := element_text (py "Cabernet Sauvignon 2019");
  span_price_amount := None; price_wrapper_price := None;
  span_price := element_text (SHEQEL :: py " 89.90");
  description := None; attribute_description := None;
  short_description := None; product_info_main := None; tables := []
|}.

(** A page with an Open Graph type, a title and a price meta, and no
    structured data. *)
Definition og_page (type : string) : soup := {|
  ld_json := []; og_type := meta_content type;
  og_title := meta_content "Cabernet Sauvignon 2019";
  itemprop_price := None; product_price_amount := meta_content "89,90";
  twitter_data1 := None; og_description := None;
  h1_page_title_base := None; h1_base := None; h1_product_name := None;
  h1 := None; span_price_amount := None; price_wrapper_price := None;
  span_price := None; description := None; attribute_description := None;
  short_description := None; product_info_main := None; tables := []
|}.

(** A page whose structured data names the product and whose title meta
    names it differently. *)
Definition ld_product (nm : str) : json :=
  JObj [(py "@type", JStr (py "Product"));
        (py "name", JStr nm);
        (py "offers", JObj [(py "price", JStr (py "120.00"))]);
        (py "description", JStr (py "750 ml"))].

Definition ld_page (nm : str) : soup := {|
  ld_json := [Some (ld_product nm)]; og_type := None;
  og_title := meta_content "Red wine | The Importer";
  itemprop_price := None; product_price_amount := None;
  twitter_data1 := None; og_description := None;
  h1_page_title_base := None; h1_base := None; h1_product_name := None;
  h1 := None; span_price_amount := None; price_wrapper_price := None;
  span_price := None; description := None; attribute_description := None;
  short_description := None; product_info_main := None; tables := []
|}.

(** The chunk the structured-data strategy returns on [ld_page nm], for a
    name [nm] that normalisation leaves as it is. *)
Definition ld_chunk (nm : str) : gmap string value :=
  <["bottle_size_ml" := VInt 750]>
    (<["price_value" := VFloat (float_of_Z 120)]>
       (<["name" := VStr nm]> ∅)).

Definition some_html : str := py "<html>".
Definition some_url : str := py "https://www.the-importer.co.il/wine-1".

(** The record of [og_page "product"]. *)
Definition og_record : product := {|
  name := py "Cabernet Sauvignon 2019";
  price_value := float_of_Z 8990;
  bottle_size_ml := 750;
  url := some_url
|}.

(** A link extraction that finds nothing, and a world in which every
    request is answered with a rate limit. *)
Instance no_links : LinkExtraction := {|
  _he_to_en_query := fun q => q;
  _extract_all_vivino_links_from_bing := fun _ => [];
  vivino_search_links := fun _ => []
|}.

Definition limited_world (cache : gmap str (option match_result)) : world := {|
  vivino_cache := cache;
  trace := [];
  answers := fun _ => Status 429 [];
  draws := fun _ => (1 # 2)%Q
|}.

Definition merlot_match : match_result := {|
  vivino_url := py "https://www.vivino.com/wines/1";
  vivino_rating := fl 43 10
|}.

(** A cache with a positive entry and a negative marker. *)
Definition two_entries : gmap str (option match_result) :=
  <[py "Yarden Merlot" := Some merlot_match]> (<[py "House red" := None]> ∅).

(** ** What the structured data of a page holds

    The objects [_from_json_ld] loops over, in the order of the page: the
    payload of every script that parsed, an array taken apart one level. *)

Definition ld_candidates (payload : json) : list json :=
  match payload with JList l => l | _ => [payload] end.

Definition ld_objects (s : soup) : list json :=
  flat_map (fun script => from_option ld_candidates [] script) (ld_json s).

(** An object typed as a product: the test of the inner loop. *)
Definition typed_product `{Unicode, Library} (obj : json) : bool :=
  match obj with
  | JObj o => is_product_type (obj_get o (py "@type"))
  | _ => false
  end.

(** The price the meta tags give, tag by tag. *)
Definition meta_price `{Unicode} (tag : option meta) : value :=
  match tag with
  | Some t =>
      opt_float (parse_price (str_or (content_of t) (default [] (value_attr t))))
  | None => VNone
  end.

(** A page whose structured data is a product with a number for a name. *)
Definition ld_numbered : soup := {|
  ld_json := [Some (JObj [(py "@type", JStr (py "Product"));
                          (py "name", JInt 1848)])];
  og_type := meta_content "product";
  og_title := meta_content "1848 Winery";
  itemprop_price := None; product_price_amount := meta_content "89,90";
  twitter_data1 := None; og_description := None;
  h1_page_title_base := None; h1_base := None; h1_product_name := None;
  h1 := None; span_price_amount := None; price_wrapper_price := None;
  span_price := None; description := None; attribute_description := None;
  short_description := None; product_info_main := None; tables := []
|}.
(** ** Fetching a product page *)

Definition BASE : str := py "https://www.the-importer.co.il".

(** [html or s] on the result of [fetch_text], for the empty string [s]. *)
Definition or_empty (html : option str) : str := default [] html.

(** What [fetch_text] returns for an answer. *)
Definition body_of (a : response) : option str :=
  match a with
  | Status code body => if code =? 200 then Some body else None
  | Failure => None
  end.

(** An answer after which the fallback search tries again: a rate limit, a
    status that [raise_for_status] refuses, a transport error. *)
Definition retryable (a : response) : bool :=
  match a with
  | Status code _ => (code =? 429) || (400 <=? code)
  | Failure => true
  end.

Section FetchPDP.
Context {U : Unicode} {L : Library}.

(** [fetch_pdp]: a second attempt, with a slower pace, when the first parse
    yields nothing.  A record is a dictionary with four keys, hence true. *)
Definition fetch_pdp (url : str) (w : world) : result (option product) * world :=
  let '(html, w) := fetch_text url [] (3 # 10)%Q (8 # 10)%Q w in
  match parse_pdp (or_empty html) url with
  | Raise e => (Raise e, w)
  | Ret (Some data) => (Ret (Some data), w)
  | Ret None =>
      (* second attempt with slower delay *)
      let '(html, w) := fetch_text url [] 1%Q (18 # 10)%Q w in
      (parse_pdp (or_empty html) url, w)
  end.
End FetchPDP.

(** A world that answers the first request with an error page and the
    second with a product page. *)
Definition flaky_world : world := {|
  vivino_cache := ∅;
  trace := [];
  answers := fun n => match n with O => Status 503 [] | _ => Status 200 some_html end;
  draws := fun _ => (1 # 2)%Q
|}.
(** The addresses requested in a trace, the earliest first. *)
Definition requested (t : list event) : list str :=
  omap (fun e => match e with Get u _ => Some u | Sleep _ => None end) (rev t).

(** A search page with one link, and a world that answers every request
    with a page that shows a rating. *)
Instance one_link : LinkExtraction := {|
  _he_to_en_query := fun q => q;
  _extract_all_vivino_links_from_bing := fun _ => [py "https://www.vivino.com/wines/1"];
  vivino_search_links := fun _ => []
|}.

Definition rated_world : world := {|
  vivino_cache := ∅;
  trace := [];
  answers := fun _ => Status 200 (py "Rated 4.3 out of 5");
  draws := fun _ => (1 # 2)%Q
|}.
(** ** Lists of addresses *)

(** [list(dict.fromkeys(l))]: a dictionary keeps its keys in the order they
    were first inserted, so this is [l] with every repetition removed. *)
Definition add_key (keys : list str) (x : str) : list str :=
  if bool_decide (x ∈ keys) then keys else keys ++ [x].

Definition fromkeys (l : list str) : list str := fold_left add_key l [].

(** [l[a:b]] for [0 <= a <= b]. *)
Definition slice {A} (l : list A) (a b : nat) : list A := take (b - a) (drop a l).

(** [range(0, stop, step)] *)
Definition range_step (stop step : nat) : list nat :=
  map (fun i => (i * step)%nat) (seq 0 (Nat.div (stop + step - 1) step)).

Definition MAX_CONCURRENT_PDP : nat := 6.

(** The work list of [main]: the addresses of all category pages, in page
    order, without repetitions. *)
Definition all_urls (results : list (Z * list str)) : list str :=
  fromkeys (fold_left (fun acc r => acc ++ r.2) results []).

(** The chunks [main] fetches one after the other. *)
Definition pdp_chunks (urls : list str) : list (list str) :=
  map (fun chunk_start => slice urls chunk_start (chunk_start + MAX_CONCURRENT_PDP))
    (range_step (length urls) MAX_CONCURRENT_PDP).

(** ** Links in markup *)

Section Finditer.
Context {U : Unicode}.

(** [re.finditer]: the matches from left to right, each search starting
    where the match before it ended.  The patterns it is used with consume
    at least one character, so the text left gets shorter with every match
    and its length bounds the number of matches. *)
Fixpoint finditer_from (fuel : nat) (ic : bool) (r : regex)
    (prev : option Z) (s : str) : list str :=
  match fuel with
  | O => []
  | S fuel' =>
      match search_from ic r prev s with
      | None => []
      | Some m =>
          let consumed := take (length s - length (after m)) s in
          group1 m
          :: finditer_from fuel' ic r (prev_after prev consumed) (after m)
      end
  end.

Definition finditer (ic : bool) (r : regex) (s : str) : list str :=
  finditer_from (length s) ic r None s.

Definition not_quote (c : Z) : bool := negb (c =? QUOTE).

(** [<a[^>]+href=Q([^Q]+)Q], where [Q] stands for the double quote *)
Definition A_HREF_RE : regex :=
  Seq [Lits (py "<a"); Plus (fun c => negb (c =? 62));
       Lits (py "href=" ++ [QUOTE]);
       Group (Plus not_quote);
       Lit QUOTE].

(** [<a href=Q(https?://[^Q]+vivino[^Q]+)Q] *)
Definition BING_LINK_RE : regex :=
  Seq [Lits (py "<a href=" ++ [QUOTE]);
       Group (Seq [Lits (py "http"); Opt (Lit 115); Lits (py "://");
                   Plus not_quote; Lits (py "vivino"); Plus not_quote]);
       Lit QUOTE].

(** [href=Q(/wines/[^Q#?]+)Q] *)
Definition WINES_HREF_RE : regex :=
  Seq [Lits (py "href=" ++ [QUOTE]);
       Group (Seq [Lits (py "/wines/");
                   Plus (fun c => negb ((c =? QUOTE) || (c =? 35) || (c =? 63)))]);
       Lit QUOTE].
End Finditer.

(** What the program takes from [urllib.parse] and from the selectors of
    BeautifulSoup on a category page. *)
Class Urllib := {
  (** [up.urljoin(base, url)] *)
  urljoin : str -> str -> str;
  (** [up.urlunsplit] of the scheme, the host and the path of
      [up.urlsplit(u)], with the query and the fragment left empty; [None]
      when one of the two raises *)
  without_query : str -> option str;
  (** [a.get("href")] for every [a] of
      [soup.select("a.product-item-link, h2 a, h3 a, a[href*='-']")] *)
  select_links : soup -> list (option str)
}.

(** ** Category pages *)

Definition CATEGORY_URL : str :=
  BASE ++ [47; 1497; 1497; 1503; 47; 1497; 1497; 1503; 45; 1488; 1491; 1493; 1501].

(** The routes that are no product pages. *)
Definition NON_PRODUCT_ROUTES : list str :=
  [py "/customer/"; py "/cart"; py "/checkout"; py "/search"; py "/account";
   py "/login"].

Section Category.
Context {U : Unicode} {L : Library} {P : Urllib}.

(** [href = up.urljoin(BASE, href)] when [href.startswith("/")] *)
Definition absolute (href : str) : str :=
  if starts_with (py "/") href then urljoin BASE href else href.

Definition extract_product_urls_from_category (html : str) : list str :=
  let urls :=
    match BeautifulSoup with
    | Some parser =>
        let soup := parser html in
        fold_left
          (fun urls a =>
             match a with
             | None | Some [] => urls
             | Some href =>
                 let href := absolute href in
                 if negb (contains BASE href) then urls
                 (* filter obvious non-product routes *)
                 else if existsb (fun x => contains x href) NON_PRODUCT_ROUTES
                 then urls
                 else urls ++ [href]
             end)
          (select_links soup) []
    | None =>
        fold_left
          (fun urls href =>
             let href := absolute href in
             if contains BASE href
                && negb (existsb (fun x => contains x href) NON_PRODUCT_ROUTES)
             then urls ++ [href]
             else urls)
          (finditer false A_HREF_RE html) []
    end in
  (* dedupe *)
  fromkeys urls.

(** [str(page)] for a page number *)
Definition decimal (n : Z) : str := py (NilZero.string_of_int (Z.to_int n)).

Definition fetch_category_page (page : Z) (w : world)
    : (Z * list str) * world :=
  let address :=
    if page =? 1 then CATEGORY_URL else CATEGORY_URL ++ py "?p=" ++ decimal page in
  let '(html, w) := fetch_text address [] (2 # 10)%Q (5 # 10)%Q w in
  let urls :=
    match html with
    | None | Some [] => []
    | Some html => extract_product_urls_from_category html
    end in
  ((page, urls), w).
End Category.

(** [urllib] on the addresses of the examples: joining puts the base before
    the path, and an address without [?] and [#] has no query to lose. *)
Instance plain_urllib (links : list (option str)) : Urllib := {|
  urljoin := fun base path => base ++ path;
  without_query := fun u => Some u;
  select_links := fun _ => links
|}.
(** ** The translation of a name into a query *)

(** [s.replace(old, new)]: the occurrences of [old] are replaced from left
    to right, none overlapping the one before.  [skip] counts the characters
    of an occurrence still to pass over. *)
Fixpoint replace_from (old new : str) (skip : nat) (s : str) : str :=
  match s with
  | [] => []
  | c :: s' =>
      match skip with
      | S n => replace_from old new n s'
      | O =>
          if starts_with old s
          then new ++ replace_from old new (Nat.pred (length old)) s'
          else c :: replace_from old new 0 s'
      end
  end.

(** An empty [old] occurs before every character and at the end. *)
Definition replace (old new s : str) : str :=
  match old with
  | [] => new ++ flat_map (fun c => c :: new) s
  | _ => replace_from old new 0 s
  end.

(** [HEB_TOKEN_MAP], in the order of the source: producers, then grapes and
    styles.  The keys are Hebrew words, written here by their code points. *)
Definition HEB_TOKEN_MAP : list (str * str) :=
  [
   ([1497; 1512; 1491; 1503],
    py "Yarden");
   ([1490; 1502; 1500; 1488],
    py "Gamla");
   ([1497; 1511; 1489; 32; 1512; 1502; 1514; 32; 1492; 1490; 1493; 1500; 1503],
    py "Golan Heights Winery");
   ([1513; 1488; 1496; 1493; 32; 1490; 1493; 1500; 1503],
    py "Chateau Golan");
   ([1512; 1511; 1504; 1488; 1496; 1497],
    py "Recanati");
   ([1497; 1514; 1497; 1512],
    py "Yatir");
   ([1492; 1512; 1497; 32; 1490; 1500; 1497; 1500],
    py "Galil Mountain");
   ([1508; 1505; 1490; 1493; 1514],
    py "Psagot");
   ([1491; 1500; 1514; 1493; 1503],
    py "Dalton");
   ([1489; 1512; 1511; 1503],
    py "Barkan");
   ([1499; 1512; 1502; 1500],
    py "Carmel");
   ([1496; 1493; 1500; 1497; 1508],
    py "Tulip");
   ([1493; 1497; 1514; 1511; 1497; 1503],
    py "Vitkin");
   ([49; 56; 52; 56],
    py "1848 Winery");
   ([1488; 1489; 1504; 1497; 32; 1492; 1495; 1493; 1513; 1503],
    py "Even Hahoshen");
   ([1502; 1493; 1504; 1497],
    py "Moni");
   ([1510; 1512; 1506; 1492],
    py "Tzora");
   ([1510; 1493; 1489; 1492],
    py "Tzuba");
   ([1488; 1491; 1497; 1512],
    py "Adir");
   ([1511; 1489; 1512; 1504; 1492; 32; 1505; 1493; 1489; 1497; 1504; 1497; 1493; 1503],
    py "Cabernet Sauvignon");
   ([1511; 1489; 1512; 1504; 1492; 32; 1508; 1512; 1504; 1511],
    py "Cabernet Franc");
   ([1502; 1512; 1500; 1493],
    py "Merlot");
   ([1513; 1497; 1512; 1488; 1494],
    py "Shiraz");
   ([1505; 1497; 1512; 1492],
    py "Syrah");
   ([1508; 1496; 1497; 1496; 32; 1505; 1497; 1512; 1492],
    py "Petite Sirah");
   ([1508; 1496; 1497; 32; 1493; 1512; 1491; 1493],
    py "Petit Verdot");
   ([1502; 1500; 1489; 1511],
    py "Malbec");
   ([1496; 1502; 1508; 1512; 1504; 1497; 1493],
    py "Tempranillo");
   ([1505; 1504; 1490; 39; 1493; 1489; 1494; 1492],
    py "Sangiovese");
   ([1490; 1512; 1488; 1504; 1513],
    py "Grenache");
   ([1508; 1497; 1504; 1493; 32; 1504; 1493; 1488; 1512],
    py "Pinot Noir");
   ([1512; 1497; 1493; 1495; 1492],
    py "Rioja");
   ([1512; 1494; 1512; 1489; 1492],
    py "Reserva");
   ([1490; 1512; 1488; 1503; 32; 1512; 1494; 1512; 1489; 1492],
    py "Gran Reserva");
   ([1511; 1512; 1497; 1488; 1504; 1494; 1492],
    py "Crianza");
   ([1489; 1500; 1504; 1491],
    py "Blend")
  ].

(** The class of quotes the query loses: the double quote, the apostrophe
    and the right single quotation mark. *)
Definition is_quote (c : Z) : bool := (c =? 34) || (c =? 39) || (c =? 8217).

Module Vivino.
Section Vivino.
Context {U : Unicode}.

(** The loop over the table. *)
Definition translate (table : list (str * str)) (name : str) : str :=
  fold_left (fun q entry => replace entry.1 entry.2 q) table name.

Definition _he_to_en_query (name : str) : str :=
  let q := translate HEB_TOKEN_MAP name in
  let q := map (fun c => if is_quote c then 32 else c) q in
  strip (sub_spaces false q).

Context {P : Urllib}.

Definition _extract_all_vivino_links_from_bing (html : str) : list str :=
  let urls := finditer false BING_LINK_RE html in
  let urls := List.filter (contains (py "/wines/")) urls in
  let clean := map (fun u => default u (without_query u)) urls in
  fromkeys clean.

(** The links [vivino_lookup] reads off a page of the site's own search. *)
Definition vivino_search_links (vhtml : str) : list str :=
  fromkeys (map (urljoin (py "https://www.vivino.com"))
                (finditer false WINES_HREF_RE vhtml)).

(** The helpers as [vivino_lookup] calls them. *)
Definition helpers : LinkExtraction :=
  Build_LinkExtraction _he_to_en_query _extract_all_vivino_links_from_bing
    vivino_search_links.
End Vivino.
End Vivino.
(** A world whose search engine answers with one link to a wine page, which
    shows a rating. *)
Definition linked_world : world := {|
  vivino_cache := ∅;
  trace := [];
  answers := fun n =>
    match n with
    | O => Status 200 (py "<li><a href=" ++ [QUOTE]
                       ++ py "https://www.vivino.com/wines/1" ++ [QUOTE]
                       ++ py ">Merlot</a>")
    | _ => Status 200 (py "Rated 4.3 out of 5")
    end;
  draws := fun _ => (1 # 2)%Q
|}.
(** ** Notions the properties are stated with *)

(** An address of the site that is none of the routes left out. *)
Definition product_route (href : str) : Prop :=
  contains BASE href = true
  /\ Forall (fun x => contains x href = false) NON_PRODUCT_ROUTES.

Section LinkForms.
Context {U : Unicode}.

(** A pattern that starts with a literal consumes at least one character. *)
Definition consuming (ic : bool) (r : regex) : Prop :=
  forall prev s g prev' s' g',
    matches ic r prev s g prev' s' g' -> (length s' < length s)%nat.

(** The form of a path the site's own search links to. *)
Definition wine_path (p : str) : Prop :=
  exists a,
    p = py "/wines/" ++ a /\ a <> []
    /\ forallb (fun c => negb ((c =? QUOTE) || (c =? 35) || (c =? 63))) a = true.


(** The form of a link to the rating site in a page of the search engine. *)
Definition vivino_link (h : str) : Prop :=
  exists sch a b,
    h = py "http" ++ sch ++ py "://" ++ a ++ py "vivino" ++ b
    /\ (sch = [] \/ sch = py "s")
    /\ a <> [] /\ b <> []
    /\ forallb not_quote a = true /\ forallb not_quote b = true.

End LinkForms.

(** The table without the two phrases that come after a word of theirs:
    [Petite Sirah] after [Syrah], [Gran Reserva] after [Reserva]. *)
Definition live_entries : list (str * str) :=
  take 24 HEB_TOKEN_MAP ++ take 8 (drop 25 HEB_TOKEN_MAP) ++ drop 34 HEB_TOKEN_MAP.

(** Proof steps for the patterns: open a match, write the literals of a
    pattern as code points, read a matched literal. *)
Ltac open_match :=
  repeat match goal with
         | H : exists _, _ |- _ => destruct H
         | H : _ /\ _ |- _ => destruct H
         end.

Ltac code_points :=
  repeat match goal with
         | |- context [py ?s] =>
             let v := eval vm_compute in (py s) in change (py s) with v
         end.

Ltac literals :=
  repeat match goal with
         | H : lit_eq false _ _ = true |- _ =>
             unfold lit_eq in H; apply Z.eqb_eq in H; subst
         end.

(** ** Notions for the size rule, the rating rule and the cache *)

(** [s] starts with two digits: the places where [ML_NUMBER_RE] matches. *)
Definition two_digits `{Unicode} (s : str) : bool :=
  match s with
  | x :: y :: _ => is_digit x && is_digit y
  | _ => false
  end.

(** [ds] is the first bare number of [cleaned]: the digits, five at most, of
    the first place at which two digits stand together. *)
Definition first_bare_number `{Unicode} (cleaned ds : str) : Prop :=
  exists pre post,
    cleaned = pre ++ ds ++ post
    /\ (forall p1 p2, pre = p1 ++ p2 -> p2 <> [] ->
                      two_digits (p2 ++ ds ++ post) = false)
    /\ forallb is_digit ds = true /\ (2 <= length ds <= 5)%nat
    /\ (length ds = 5%nat
        \/ match post with c :: _ => is_digit c = false | [] => True end).

(** The two keys of the structured rating, with their quotes. *)
Definition RATING_KEY : str := [QUOTE] ++ py "rating" ++ [QUOTE].
Definition AVERAGE_KEY : str := [QUOTE] ++ py "average" ++ [QUOTE].

Definition not_brace (c : Z) : bool := negb (c =? 125).
Definition rating_char (c : Z) : bool := ascii_digit c || (c =? DOT).

(** [s] starts with a rating in words: the three characters [t], a digit
    from 3 to 5, a dot and a digit, then after any whitespace a slash or the
    words "out of" or neither, then after any whitespace a 5. *)
Definition rating_text_here `{Unicode} (s t : str) : Prop :=
  exists d1 d2 ws sep ws' rest,
    t = [d1; DOT; d2]
    /\ s = t ++ ws ++ sep ++ ws' ++ [53] ++ rest
    /\ in_class 51 53 d1 = true /\ ascii_digit d2 = true
    /\ forallb isspace ws = true /\ forallb isspace ws' = true
    /\ (sep = [] \/ sep = [47] \/ map ascii_lower sep = py "out of").

(** What [scan_candidates] reads off the answer to a request for a
    candidate page: the rating of a page that came with status 200 and is
    not empty. *)
Definition rating_of `{Unicode} (a : response) : option float :=
  match body_of a with
  | Some (c :: page) => _extract_vivino_rating_from_html (c :: page)
  | _ => None
  end.

(** The text of a structured rating: the key, a colon, an opening brace,
    and after [mid] the key of the average, a colon and the number [num]. *)
Definition structured_rating_text (ws1 ws2 mid ws3 ws4 num rest : str) : str :=
  RATING_KEY ++ ws1 ++ [58] ++ ws2 ++ [123] ++ mid
  ++ AVERAGE_KEY ++ ws3 ++ [58] ++ ws4 ++ num ++ rest.

(** [s] starts with a structured rating that can be read with the number
    [num]: no closing brace between the opening one and the key of the
    average, whitespace only around the colons, and [num] a run of digits
    and dots. *)
Definition rating_json_here `{Unicode} (s num : str) : Prop :=
  exists ws1 ws2 mid ws3 ws4 rest,
    s = structured_rating_text ws1 ws2 mid ws3 ws4 num rest
    /\ forallb isspace ws1 = true /\ forallb isspace ws2 = true
    /\ forallb not_brace mid = true
    /\ forallb isspace ws3 = true /\ forallb isspace ws4 = true
    /\ forallb rating_char num = true /\ num <> [].

(** The first structured rating of [page] has the number [num]: the key
    ["rating"] starts nowhere before it, the number is the whole run of
    digits and dots, and up to the first closing brace (or the end of the
    page) the key ["average"] does not start again after the number. *)
Definition first_structured_rating `{Unicode} (page num : str) : Prop :=
  exists pre ws1 ws2 mid ws3 ws4 r1 r2,
    page = pre ++ structured_rating_text ws1 ws2 mid ws3 ws4 num (r1 ++ r2)
    /\ (forall p1 p2, pre = p1 ++ p2 -> p2 <> [] ->
          starts_with RATING_KEY
            (p2 ++ structured_rating_text ws1 ws2 mid ws3 ws4 num (r1 ++ r2))
          = false)
    /\ forallb isspace ws1 = true /\ forallb isspace ws2 = true
    /\ forallb not_brace mid = true
    /\ forallb isspace ws3 = true /\ forallb isspace ws4 = true
    /\ forallb rating_char num = true /\ num <> []
    /\ forallb not_brace r1 = true
    /\ match r2 with c :: _ => c = 125 | [] => True end
    /\ match r1 ++ r2 with c :: _ => rating_char c = false | [] => True end
    /\ (forall p1 p2, r1 = p1 ++ p2 -> p2 <> [] ->
          starts_with AVERAGE_KEY (p2 ++ r2) = false).

(** The first rating in words of [page] is [t]. *)
Definition first_rating_text `{Unicode} (page t : str) : Prop :=
  exists pre s,
    page = pre ++ s /\ rating_text_here s t
    /\ forall p1 p2 t', pre = p1 ++ p2 -> p2 <> [] ->
                        ~ rating_text_here (p2 ++ s) t'.

(** The number of tenths that a rating in words shows. *)
Definition tenths (t : str) : Z :=
  match t with
  | [d1; _; d2] => 10 * (d1 - 48) + (d2 - 48)
  | _ => 0
  end.

(** From [w] to [w'] the requests [reqs] were made, in this order, and
    answered by the first answers that [w] had to come. *)
Definition advanced (w w' : world) (reqs : list str) : Prop :=
  requested (trace w') = requested (trace w) ++ reqs
  /\ forall m, answers w' m = answers w (length reqs + m)%nat.

(** After the key, the colon and the number: what the pattern reads from
    the key on. *)
Definition average_tail `{Unicode} : regex :=
  Seq [Lits AVERAGE_KEY; Star isspace; Lit 58; Star isspace;
       Group (Plus rating_char)].

(** A page without a product marker whose structured data is a product
    with a list for the price specification of its offer; a heading and a
    price are on display. *)
Definition ld_price_list : soup := {|
  ld_json :=
    [Some (JObj [(py "@type", JStr (py "Product"));
                 (py "offers",
                  JObj [(py "priceSpecification",
                         JList [JObj [(py "price", JStr (py "10"))]])])])];
  og_type := None; og_title := None;
  itemprop_price := None; product_price_amount := None; twitter_data1 := None;
  og_description := None;
  h1_page_title_base := None; h1_base := None; h1_product_name := None;
  h1 := element_text (py "Cabernet Sauvignon 2019");
  span_price_amount := None; price_wrapper_price := None;
  span_price := element_text (SHEQEL :: py " 89.90");
  description := None; attribute_description := None;
  short_description := None; product_info_main := None; tables := []
|}.

(** ** Lookups as tasks of the event loop

    [main] starts one task per product and lets [asyncio.gather] run them
    together.  A task runs without interruption up to its next [await] on
    a sleep or on the network; there the event loop may run any other task
    that is ready.  A coroutine is therefore written as the code between
    its awaits. *)

Inductive proc (A : Type) : Type :=
| Done (a : A)                                   (* [return a] *)
| Do {B : Type} (f : world -> B * world) (k : B -> proc A)
                                                 (* code without an await *)
| Await (k : proc A)                             (* an await that suspends *)
| Acquire (k : proc A)                           (* enter [async with vivino_fallback_sem] *)
| Release (k : proc A).                          (* leave it *)

Arguments Done {A} a.
Arguments Do {A B} f k.
Arguments Await {A} k.
Arguments Acquire {A} k.
Arguments Release {A} k.

Fixpoint pbind {A B : Type} (p : proc A) (f : A -> proc B) : proc B :=
  match p with
  | Done a => f a
  | Do g k => Do g (fun b => pbind (k b) f)
  | Await k => Await (pbind k f)
  | Acquire k => Acquire (pbind k f)
  | Release k => Release (pbind k f)
  end.

(** A statement that changes the state and returns nothing. *)
Definition exec {A : Type} (f : world -> world) (k : proc A) : proc A :=
  Do (fun w => (tt, f w)) (fun _ => k).

(** [fetch_text], with its two awaits: the sleep and the answer. *)
Definition fetch_text_proc (url : str) (params : list (str * str))
    (min_delay max_delay : Q) : proc (option str) :=
  Do random (fun r =>
  exec (emit (Sleep (min_delay + (max_delay - min_delay) * r)%Q))
  (Await
  (Do (request url params) (fun a =>
  Await
  (Done (body_of a)))))).

(** The loop of [_fetch_vivino_search_with_backoff]. *)
Fixpoint backoff_proc (params : list (str * str)) (left : nat) (attempt : Z)
    (delay : Q) : proc (option str) :=
  match left with
  | O => Done None
  | S left' =>
      exec (emit (Sleep (if 1 <? attempt then delay else 0%Q)))
      (Await
      (Do (request VIVINO_FALLBACK_SEARCH params) (fun a =>
      Await
      match a with
      | Status code body =>
          if code =? 429 then
            Do random (fun r =>
              backoff_proc params left' (attempt + 1)
                (delay * ((17 # 10) + r * (3 # 10)))%Q)
          else if 400 <=? code then
            backoff_proc params left' (attempt + 1) (delay * (14 # 10))%Q
          else Done (Some body)
      | Failure =>
          backoff_proc params left' (attempt + 1) (delay * (14 # 10))%Q
      end)))
  end.

Definition _fetch_vivino_search_with_backoff_proc (params : list (str * str))
    : proc (option str) :=
  Acquire
    (pbind (backoff_proc params max_tries 1 2%Q) (fun r => Release (Done r))).

Section LookupTask.
Context {U : Unicode} {X : LinkExtraction}.

Fixpoint scan_proc (key : str) (urls : list str)
    : proc (option match_result) :=
  match urls with
  | [] => exec (set_cache key None) (Done None)
  | vu :: urls' =>
      pbind (fetch_text_proc vu [] (6 # 10)%Q (12 # 10)%Q) (fun page =>
      match page with
      | None | Some [] => scan_proc key urls'
      | Some page =>
          match _extract_vivino_rating_from_html page with
          | Some rating =>
              let res := {| vivino_url := vu; vivino_rating := round2 rating |} in
              exec (set_cache key (Some res)) (Done (Some res))
          | None => scan_proc key urls'
          end
      end)
  end.

(** [vivino_lookup] as a coroutine: the test of the cache and the return
    of the entry have no await between them. *)
Definition vivino_lookup_proc (wine_name : str) : proc (option match_result) :=
  let key := strip wine_name in
  Do (fun w => (vivino_cache w !! key, w)) (fun hit =>
  match hit with
  | Some cached => Done cached
  | None =>
      let q_en := _he_to_en_query wine_name in
      let params :=
        [(py "q", py "site:vivino.com " ++ [QUOTE] ++ q_en ++ [QUOTE]);
         (py "setlang", py "en")] in
      pbind (fetch_text_proc BING_SEARCH_URL params (4 # 10)%Q 1%Q) (fun html =>
      let viv_urls :=
        match html with
        | None | Some [] => []
        | Some html => _extract_all_vivino_links_from_bing html
        end in
      pbind
        match viv_urls with
        | [] =>
            pbind (_fetch_vivino_search_with_backoff_proc [(py "q", q_en)])
              (fun vhtml =>
                 match vhtml with
                 | None | Some [] => Done []
                 | Some vhtml => Done (vivino_search_links vhtml)
                 end)
        | _ => Done viv_urls
        end
        (fun viv_urls => scan_proc key (take 3 viv_urls)))
  end).
End LookupTask.

(** A coroutine run alone, from start to end. *)
Fixpoint run {A : Type} (p : proc A) (w : world) : A * world :=
  match p with
  | Done a => (a, w)
  | Do f k => let '(b, w') := f w in run (k b) w'
  | Await k | Acquire k | Release k => run k w
  end.

(** A coroutine run up to the place where it next gives up control: an
    await, the semaphore of the fallback search when it has no permit left
    ([free] counts its permits), or its end. *)
Fixpoint settle {A : Type} (p : proc A) (w : world) (free : nat)
    : proc A * world * nat :=
  match p with
  | Done a => (Done a, w, free)
  | Do f k => let '(b, w') := f w in settle (k b) w' free
  | Await k => (Await k, w, free)
  | Acquire k =>
      match free with
      | O => (Acquire k, w, free)
      | S free' => settle k w free'
      end
  | Release k => settle k w (S free)
  end.

(** The tasks [_match(p)] of [main]: not yet inside [async with viv_sem],
    suspended inside [vivino_lookup], or finished with a result. *)
Inductive task :=
| Waiting (wine_name : str)
| Running (p : proc (option match_result))
| Finished (res : option match_result).

Record pool := {
  tasks : list task;
  (** the state the tasks share: the cache, the network, the clock *)
  shared : world;
  (** the permits left of [vivino_fallback_sem], one at the start *)
  fallback_free : nat
}.

Definition is_running (t : task) : bool :=
  match t with Running _ => true | _ => false end.

Definition park (p : proc (option match_result)) : task :=
  match p with Done res => Finished res | _ => Running p end.

(** [viv_sem = asyncio.Semaphore(6)] *)
Definition VIV_PERMITS : nat := 6.

Section Pool.
Context {U : Unicode} {X : LinkExtraction}.

Definition settled (i : nat) (c : pool)
    (r : proc (option match_result) * world * nat) : pool :=
  {| tasks := <[i := park r.1.1]> (tasks c);
     shared := r.1.2;
     fallback_free := r.2 |}.

(** The event loop runs task [i] up to the place where it next gives up
    control.  A task that waits for a permit it cannot have, or that has
    finished, cannot run. *)
Definition step (i : nat) (c : pool) : option pool :=
  match tasks c !! i with
  | Some (Waiting wine_name) =>
      if (length (List.filter is_running (tasks c)) <? VIV_PERMITS)%nat then
        Some (settled i c
                (settle (vivino_lookup_proc wine_name) (shared c)
                   (fallback_free c)))
      else None
  | Some (Running (Await k)) =>
      Some (settled i c (settle k (shared c) (fallback_free c)))
  | Some (Running (Acquire k)) =>
      match fallback_free c with
      | O => None
      | S _ => Some (settled i c (settle (Acquire k) (shared c) (fallback_free c)))
      end
  | _ => None
  end.

(** The tasks run in the order [order] tells, one stretch each time. *)
Fixpoint schedule (order : list nat) (c : pool) : option pool :=
  match order with
  | [] => Some c
  | i :: order' =>
      match step i c with
      | Some c' => schedule order' c'
      | None => None
      end
  end.
End Pool.

(** The pool at the start of the matching: one task per product name. *)
Definition start (names : list str) (w : world) : pool :=
  {| tasks := map Waiting names; shared := w; fallback_free := 1 |}.

(** A coroutine of the matcher only ever adds entries to the cache or
    replaces them. *)
Inductive keeps_entries {A : Type} : proc A -> Prop :=
| keeps_Done a : keeps_entries (Done a)
| keeps_Do {B : Type} (f : world -> B * world) (k : B -> proc A) :
    (forall w key, is_Some (vivino_cache w !! key) ->
                   is_Some (vivino_cache (f w).2 !! key)) ->
    (forall b, keeps_entries (k b)) ->
    keeps_entries (Do f k)
| keeps_Await k : keeps_entries k -> keeps_entries (Await k)
| keeps_Acquire k : keeps_entries k -> keeps_entries (Acquire k)
| keeps_Release k : keeps_entries k -> keeps_entries (Release k).

Definition task_keeps_entries (t : task) : Prop :=
  match t with Running p => keeps_entries p | _ => True end.

(** ** The cache file

    [main] reads the cache from a file when it starts and writes it back
    when it ends.  The text of the file is made by [json.dumps] and read by
    [json.loads], which belong to the interpreter: what is used of them is
    that the text written for a cache is read back as this cache. *)
Class CacheFile := {
  cache_text : Type;
  (** [json.dumps(vivino_cache, ensure_ascii=False, indent=2)] *)
  dumps : gmap str (option match_result) -> cache_text;
  (** [json.loads]; [None] when it raises or gives no dictionary *)
  loads : cache_text -> option (gmap str (option match_result));
  loads_dumps cache : loads (dumps cache) = Some cache
}.

(** The cache at the start of a run: the file's, when there is a file that
    can be read, and empty otherwise. *)
Definition load_cache `{CacheFile} (file : option cache_text)
    : gmap str (option match_result) :=
  match file with
  | Some text => default ∅ (loads text)
  | None => ∅
  end.

(** The file at the end of a run. *)
Definition save_cache `{CacheFile} (cache : gmap str (option match_result))
    : option cache_text :=
  Some (dumps cache).

(** A cache file kept as the cache itself. *)
#[refine] Instance plain_file : CacheFile := {|
  cache_text := gmap str (option match_result);
  dumps := fun cache => cache;
  loads := fun text => Some text
|}.
Proof. reflexivity. Defined.

(** Two products with one name, a search page with one link to a wine
    page, and a network that shows a rating to the first task and an error
    to the second. *)
Definition twin_world : world := {|
  vivino_cache := ∅;
  trace := [];
  answers := fun n =>
    match n with
    | 0%nat | 1%nat =>
        Status 200 (py "<li><a href=" ++ [QUOTE]
                    ++ py "https://www.vivino.com/wines/1" ++ [QUOTE]
                    ++ py ">Merlot</a>")
    | 2%nat => Status 200 (py "Rated 4.3 out of 5")
    | _ => Status 503 []
    end;
  draws := fun _ => (1 # 2)%Q
|}.

Definition twins : pool := start [py "Merlot"; py "Merlot"] twin_world.

(** Both tasks start, search and find the link; the first fetches the page
    and ends. *)
Definition first_lap : list nat := [0; 1; 0; 1; 0; 1; 0; 0]%nat.
(** Then the second fetches the page and ends. *)
Definition second_lap : list nat := [1; 1]%nat.

(** ** Properties *)

(** *** The definitions on some texts

    Closed examples run on the ASCII part of the character database. *)

Example extract_ml_1500 : extract_ml (py "1,500 ml") = Some 1500.
Proof. reflexivity. Qed.

(** Of a longer number the pattern reads five digits. *)
Example extract_ml_seven_digits : extract_ml (py "1,500,000 ml") = Some 0.
Proof. reflexivity. Qed.

(** A year is a plausible bare number. *)
Example extract_ml_year : extract_ml (py "vintage 2019, 13%") = Some 2019.
Proof. reflexivity. Qed.

Example extract_ml_hebrew_unit :
  extract_ml (py "750 " ++ [MEM; GERSHAYIM; LAMED]) = Some 750.
Proof. reflexivity. Qed.

Example parse_price_decimal : parse_price (py "120.00") = Some (float_of_Z 120).
Proof. vm_compute. reflexivity. Qed.

(** The float of 0.1, and [round] on a value that is not a decimal tie once
    in binary. *)
Example fl_one_tenth : fl 1 10 = Finite 7205759403792794 (-56).
Proof. vm_compute. reflexivity. Qed.

Example round2_2_675 : round2 (fl 2675 1000) = fl 267 100.
Proof. vm_compute. reflexivity. Qed.

(** *** The classification gate *)

Lemma starts_with_app (p s : str) : starts_with p (p ++ s) = true.
Proof.
  induction p as [|a p IH]; [reflexivity|].
  cbn. now rewrite Z.eqb_refl, IH.
Qed.

Lemma contains_prefix (needle hay : str) :
  starts_with needle hay = true -> contains needle hay = true.
Proof. intros H. destruct hay; cbn; now rewrite H. Qed.

Lemma contains_app (needle x y : str) : contains needle (x ++ needle ++ y) = true.
Proof.
  induction x as [|a x IH].
  - rewrite app_nil_l. apply contains_prefix, starts_with_app.
  - cbn. rewrite IH. apply orb_true_r.
Qed.

Lemma ascii_lower_letter (c : Z) :
  97 <= ascii_lower c <= 122 -> is_ascii c = true.
Proof. unfold ascii_lower, is_ascii. destruct (_ && _) eqn:E; lia. Qed.

Lemma lower_product_ascii (p : str) :
  map ascii_lower p = py "product" -> forallb is_ascii p = true.
Proof.
  intros H. apply forallb_forall. intros c Hc.
  apply ascii_lower_letter.
  assert (Hin : In (ascii_lower c) (py "product")) by (rewrite <- H; now apply in_map).
  cbn in Hin. intuition lia.
Qed.

Section Gate.
Context {U : Unicode} {L : Library}.

Lemma marker_passes (s : soup) :
  has_product_marker s = true -> page_looks_like_product s = Ret true.
Proof. unfold page_looks_like_product. now intros ->. Qed.

Lemma parse_pdp_marker (parser : str -> soup) (html url : str) :
  BeautifulSoup = Some parser -> html <> [] ->
  has_product_marker (parser html) = true ->
  parse_pdp html url = build_record (parser html) html url.
Proof.
  intros HB Hh Hm. unfold parse_pdp. rewrite HB.
  rewrite bool_decide_eq_false_2 by assumption.
  now rewrite (marker_passes _ Hm).
Qed.


(** X28.  A page that declares no product marker and on which the
    structured-data strategy returns a chunk without a true name is
    rejected at the gate: [parse_pdp] returns nothing, whatever the
    headings, the price elements and the raw markup hold.  A page on which
    the strategy raises is not covered by this. *)
Theorem gate_rejects_unmarked_page
    (parser : str -> soup) (html url : str) (j : gmap string value) :
  BeautifulSoup = Some parser ->
  has_product_marker (parser html) = false ->
  _from_json_ld (parser html) = Ret j ->
  truthy (dict_get j "name") = false ->
  page_looks_like_product (parser html) = Ret false
  /\ parse_pdp html url = Ret None.
Proof.
  intros HB Hm Hj Hn.
  assert (Hg : page_looks_like_product (parser html) = Ret false).
  { unfold page_looks_like_product. rewrite Hm, Hj. cbn. now rewrite Hn. }
  split; [exact Hg|].
  unfold parse_pdp. rewrite HB. destruct (bool_decide _); [reflexivity|].
  now rewrite Hg.
Qed.
End Gate.


Lemma gate_rejects_unmarked_page_witness :
  (@page_looks_like_product ascii_unicode
     (page_library (Some (fun _ => shell_page))) shell_page = Ret false)
  /\ @parse_pdp ascii_unicode (page_library (Some (fun _ => shell_page)))
       some_html some_url = Ret None.
Proof.
  apply (@gate_rejects_unmarked_page ascii_unicode
           (page_library (Some (fun _ => shell_page)))
           (fun _ => shell_page) some_html some_url ∅).
  - reflexivity.
  - reflexivity.
  - reflexivity.
  - reflexivity.
Defined.
(** *** Numbers are never negative *)

Lemma round_half_even_nonneg (p q : Z) : 0 <= p -> 0 < q -> 0 <= round_half_even p q.
Proof.
  intros Hp Hq. unfold round_half_even.
  assert (0 <= p / q) by (apply Z.div_pos; lia).
  repeat destruct (_ <? _); try destruct (Z.even _); lia.
Qed.

Lemma nonneg_finite (m e : Z) : 0 <= m -> nonneg (Finite m e) = true.
Proof.
  intros Hm. unfold nonneg, fle. apply Z.leb_le.
  pose proof (Z.pow_nonneg 2 (e - Z.min 0 e)). nia.
Qed.

Lemma pack_nonneg (m sh : Z) : 0 <= m -> nonneg (pack m sh) = true.
Proof.
  intros Hm. unfold pack. destruct (m =? 2 ^ 53).
  - change (2 ^ 52 =? 0) with false. cbv iota beta.
    destruct (971 <? sh + 1); [reflexivity|]. now apply nonneg_finite.
  - destruct (m =? 0); [reflexivity|]. destruct (971 <? sh); [reflexivity|].
    now apply nonneg_finite.
Qed.

Lemma fl_pos_nonneg (p q : Z) : 0 < p -> 0 < q -> nonneg (fl_pos p q) = true.
Proof.
  intros Hp Hq. unfold fl_pos. apply pack_nonneg, round_half_even_nonneg.
  - apply Z.mul_nonneg_nonneg; [lia | apply Z.pow_nonneg; lia].
  - apply Z.mul_pos_pos; [exact Hq | apply Z.pow_pos_nonneg; lia].
Qed.

Lemma fl_nonneg (p q : Z) : 0 <= p -> 0 < q -> nonneg (fl p q) = true.
Proof.
  intros Hp Hq. unfold fl. destruct (p =? 0) eqn:E0; [reflexivity|].
  replace (p <? 0) with false by lia. apply fl_pos_nonneg; lia.
Qed.

Lemma digits_value_acc (s : str) (acc : Z) :
  forallb ascii_digit s = true -> 0 <= acc ->
  0 <= fold_left (fun a c => 10 * a + (c - 48)) s acc.
Proof.
  revert acc. induction s as [|c s IH]; intros acc Hs Hacc; [exact Hacc|].
  cbn in Hs |- *. apply andb_prop in Hs as [Hc Hs].
  apply IH; [exact Hs|]. unfold ascii_digit in Hc. lia.
Qed.

Lemma digits_value_nonneg (s : str) :
  forallb ascii_digit s = true -> 0 <= digits_value s.
Proof. intros H. now apply digits_value_acc. Qed.

Lemma span_fst_forall (p : Z -> bool) (s : str) : forallb p (span p s).1 = true.
Proof.
  induction s as [|x s IH]; [reflexivity|]. cbn.
  destruct (p x) eqn:E; [|reflexivity].
  destruct (span p s) as [a b]. cbn in *. now rewrite E.
Qed.

Lemma span_app (p : Z -> bool) (s : str) : (span p s).1 ++ (span p s).2 = s.
Proof.
  induction s as [|x s IH]; [reflexivity|]. cbn.
  destruct (p x); [|reflexivity].
  destruct (span p s) as [a b]. cbn in *. now rewrite IH.
Qed.

Lemma py_float_nonneg (s : str) (f : float) :
  py_float s = Some f -> nonneg f = true.
Proof.
  unfold py_float. pose proof (span_fst_forall ascii_digit s) as Hip.
  destruct (span ascii_digit s) as [ip rest]. cbn [fst] in Hip.
  destruct rest as [|c fp].
  - destruct (bool_decide _); [discriminate|]. intros [= <-].
    apply fl_nonneg; [now apply digits_value_nonneg | lia].
  - destruct (_ && _) eqn:E; [|discriminate]. intros [= <-].
    apply andb_prop in E as [E _]. apply andb_prop in E as [_ Hfp].
    apply fl_nonneg.
    + apply digits_value_nonneg. rewrite forallb_app. now rewrite Hip, Hfp.
    + apply Z.pow_pos_nonneg; lia.
Qed.

Section Nonneg.
Context {U : Unicode}.

Lemma parse_price_nonneg (text : str) (f : float) :
  parse_price text = Some f -> nonneg f = true.
Proof.
  unfold parse_price. destruct text; [discriminate|].
  destruct (search _ _ _); [|discriminate]. apply py_float_nonneg.
Qed.

Lemma int_digits_nonneg (s : str) (acc n : Z) :
  int_digits acc s = Some n -> 0 <= acc -> 0 <= n.
Proof.
  revert acc. induction s as [|c s IH]; intros acc; cbn.
  - intros [= <-]. auto.
  - destruct (digit_value c) as [v|] eqn:E; [|discriminate].
    intros H Hacc. apply (IH _ H). apply digit_value_range in E. lia.
Qed.

Lemma py_int_nonneg (s : str) (n : Z) : py_int s = Some n -> 0 <= n.
Proof.
  unfold py_int. destruct s; [discriminate|].
  intros H. now apply (int_digits_nonneg _ _ _ H).
Qed.

Lemma extract_ml_nonneg (text : str) (n : Z) :
  extract_ml text = Some n -> 0 <= n.
Proof.
  unfold extract_ml. destruct text; [discriminate|].
  destruct (search true ML_RE _ ≫= _) as [k|] eqn:E1.
  - intros [= <-]. destruct (search true ML_RE _); [|discriminate].
    cbn in E1. now apply py_int_nonneg in E1.
  - destruct (search false ML_NUMBER_RE _); [|discriminate].
    destruct (py_int _) as [ml|] eqn:E2; [|discriminate].
    destruct (_ && _); [|discriminate]. intros [= <-].
    now apply py_int_nonneg in E2.
Qed.

Lemma salvage_price_nonneg (html : str) (f : float) :
  salvage_price html = Some f -> nonneg f = true.
Proof.
  unfold salvage_price. destruct (search _ _ _); [|discriminate].
  apply py_float_nonneg.
Qed.
End Nonneg.
(** *** Name normalisation *)

Section Normalise.
Context {U : Unicode}.

Lemma isspace_32 : isspace 32 = true.
Proof. now rewrite isspace_ascii. Qed.

Lemma sub_spaces_spaced (b : bool) (s : str) : spaced b (sub_spaces b s) = true.
Proof.
  revert b. induction s as [|x s IH]; intros b; [reflexivity|]. cbn.
  destruct (isspace x) eqn:E.
  - destruct b; [apply IH|]. cbn. rewrite isspace_32. cbn. apply IH.
  - cbn. rewrite E. apply IH.
Qed.

Lemma sub_spaces_id (b : bool) (s : str) : spaced b s = true -> sub_spaces b s = s.
Proof.
  revert b. induction s as [|x s IH]; intros b; [reflexivity|]. cbn.
  destruct (isspace x) eqn:E.
  - intros H. apply andb_prop in H as [H Hs]. apply andb_prop in H as [Hb Hx].
    destruct b; [discriminate|]. f_equal; [lia | now apply IH].
  - intros H. f_equal. now apply IH.
Qed.

Lemma lstrip_spaced (b : bool) (s : str) :
  spaced b s = true -> spaced false (lstrip s) = true.
Proof.
  revert b. induction s as [|x s IH]; intros b; [reflexivity|]. cbn.
  destruct (isspace x) eqn:E.
  - intros H. apply andb_prop in H as [_ Hs]. now apply (IH true).
  - intros H. cbn. now rewrite E.
Qed.

Lemma rstrip_spaced (b : bool) (s : str) :
  spaced b s = true -> spaced b (rstrip s) = true.
Proof.
  revert b. induction s as [|x s IH]; intros b; [reflexivity|]. cbn.
  destruct (isspace x) eqn:E; cbn.
  - intros H. apply andb_prop in H as [H Hs].
    destruct (bool_decide _); [reflexivity|]. cbn. rewrite E, H. now apply IH.
  - intros H. rewrite E. now apply IH.
Qed.

Lemma rstrip_idem (s : str) : rstrip (rstrip s) = rstrip s.
Proof.
  induction s as [|x s IH]; [reflexivity|]. cbn.
  destruct (isspace x && bool_decide (rstrip s = [])) eqn:E; [reflexivity|].
  cbn. rewrite IH, E. reflexivity.
Qed.

Lemma lstrip_fixed (s : str) :
  match s with x :: _ => isspace x = false | [] => True end -> lstrip s = s.
Proof. destruct s as [|x s]; [reflexivity|]. cbn. now intros ->. Qed.

Lemma lstrip_head (s : str) :
  match lstrip s with x :: _ => isspace x = false | [] => True end.
Proof.
  induction s as [|x s IH]; [exact I|]. cbn.
  destruct (isspace x) eqn:E; [exact IH | exact E].
Qed.

Lemma rstrip_head (s : str) :
  match s with x :: _ => isspace x = false | [] => True end ->
  match rstrip s with x :: _ => isspace x = false | [] => True end.
Proof. destruct s as [|x s]; [auto|]. cbn. intros E. now rewrite E. Qed.

Lemma strip_idem (s : str) : strip (strip s) = strip s.
Proof.
  unfold strip.
  rewrite (lstrip_fixed (rstrip (lstrip s))).
  - apply rstrip_idem.
  - apply rstrip_head, lstrip_head.
Qed.

Lemma strip_spaced (b : bool) (s : str) :
  spaced b s = true -> spaced false (strip s) = true.
Proof. intros H. unfold strip. eapply rstrip_spaced, lstrip_spaced, H. Qed.

Context {L : Library}.

Lemma strip_normalize_name (x : str) : strip (normalize_name x) = normalize_name x.
Proof. apply strip_idem. Qed.

(** Normalising a name again changes it only through [unescape]. *)
Lemma normalize_name_again (x : str) :
  unescape (normalize_name x) = normalize_name x ->
  normalize_name (normalize_name x) = normalize_name x.
Proof.
  intros Hu. unfold normalize_name at 1. rewrite Hu.
  rewrite sub_spaces_id; [apply strip_normalize_name|].
  unfold normalize_name. eapply strip_spaced, sub_spaces_spaced.
Qed.

Lemma normalize_name_plain (x : str) :
  38 ∉ normalize_name x ->
  normalize_name (normalize_name x) = normalize_name x.
Proof. intros H. now apply normalize_name_again, unescape_plain. Qed.
End Normalise.

(** *** The merge *)

Lemma dict_get_empty (k : string) : dict_get ∅ k = VNone.
Proof. unfold dict_get. now rewrite lookup_empty. Qed.

Lemma merge_chunk_lookup (data chunk : gmap string value) (k : string) :
  merge_chunk data chunk !! k =
    match chunk !! k with
    | Some v =>
        if truthy v && negb (truthy (dict_get data k)) then Some v else data !! k
    | None => data !! k
    end.
Proof.
  unfold merge_chunk. revert k.
  apply (map_fold_weak_ind
    (fun (r m : gmap string value) => forall k,
       r !! k = match m !! k with
                | Some v =>
                    if truthy v && negb (truthy (dict_get data k))
                    then Some v else data !! k
                | None => data !! k
                end)).
  - intros k. now rewrite lookup_empty.
  - intros i x m r Hi IH k.
    destruct (decide (i = k)) as [<-|Hne].
    + rewrite lookup_insert_eq.
      assert (Hr : dict_get r i = dict_get data i).
      { unfold dict_get. now rewrite IH, Hi. }
      rewrite Hr. destruct (truthy x && negb (truthy (dict_get data i))).
      * apply lookup_insert_eq.
      * now rewrite IH, Hi.
    + rewrite (lookup_insert_ne m) by assumption.
      destruct (truthy x && negb (truthy (dict_get r i))).
      * rewrite lookup_insert_ne by assumption. apply IH.
      * apply IH.
Qed.

Lemma dict_get_merge (data chunk : gmap string value) (k : string) :
  dict_get (merge_chunk data chunk) k =
    if truthy (dict_get chunk k) && negb (truthy (dict_get data k))
    then dict_get chunk k else dict_get data k.
Proof.
  unfold dict_get. rewrite merge_chunk_lookup. unfold dict_get.
  destruct (chunk !! k) as [v|]; simpl.
  - destruct (truthy v && negb (truthy (default VNone (data !! k)))); reflexivity.
  - reflexivity.
Qed.

(** Field by field, the merge of the three chunks keeps the first true
    value. *)
Lemma merge_first_true (c1 c2 c3 : gmap string value) (k : string) :
  dict_get (merge_chunk (merge_chunk (merge_chunk ∅ c1) c2) c3) k =
    first_true [dict_get c1 k; dict_get c2 k; dict_get c3 k].
Proof.
  rewrite !dict_get_merge, dict_get_empty.
  generalize (dict_get c1 k) (dict_get c2 k) (dict_get c3 k). intros v1 v2 v3.
  cbn [first_true].
  destruct (truthy v1) eqn:E1, (truthy v2) eqn:E2, (truthy v3) eqn:E3;
    repeat (progress (cbn [truthy andb negb]; rewrite ?E1, ?E2, ?E3));
    reflexivity.
Qed.

Section Merge.
Context {U : Unicode} {L : Library}.

Lemma merge_all_eq (s : soup) :
  merge_all s =
    c1 ← _from_json_ld s;
    Ret (merge_chunk (merge_chunk (merge_chunk ∅ c1) (_from_meta_tags s))
                     (_from_dom_selectors s)).
Proof.
  unfold merge_all, extractors. cbn.
  destruct (_from_json_ld s); reflexivity.
Qed.

Lemma merge_chunk_ok (data chunk : gmap string value) :
  chunk_ok data -> chunk_ok chunk -> chunk_ok (merge_chunk data chunk).
Proof.
  intros Hd Hc k v. rewrite merge_chunk_lookup.
  destruct (chunk !! k) as [x|] eqn:E.
  - destruct (_ && _); [intros [= <-]; now apply (Hc k) | apply Hd].
  - apply Hd.
Qed.

Lemma chunk_ok_empty : chunk_ok ∅.
Proof. apply map_Forall_empty. Qed.

Lemma chunk_ok_name (c : gmap string value) (x : str) :
  chunk_ok c -> chunk_ok (<["name" := VStr (normalize_name x)]> c).
Proof. intros H. apply map_Forall_insert_2; [now exists x | exact H]. Qed.

Lemma chunk_ok_price (c : gmap string value) (text : str) :
  chunk_ok c -> chunk_ok (<["price_value" := opt_float (parse_price text)]> c).
Proof.
  intros H. apply map_Forall_insert_2; [|exact H].
  destruct (parse_price text) as [f|] eqn:E; [right|now left].
  exists f. split; [reflexivity | now apply parse_price_nonneg in E].
Qed.

Lemma chunk_ok_ml (c : gmap string value) (text : str) :
  chunk_ok c -> chunk_ok (<["bottle_size_ml" := opt_int (extract_ml text)]> c).
Proof.
  intros H. apply map_Forall_insert_2; [|exact H].
  destruct (extract_ml text) as [n|] eqn:E; [right|now left].
  exists n. split; [reflexivity | now apply extract_ml_nonneg in E].
Qed.

Lemma meta_tags_ok (s : soup) : chunk_ok (_from_meta_tags s).
Proof.
  unfold _from_meta_tags.
  set (d0 := match og_title s with Some _ => _ | None => _ end).
  assert (H0 : chunk_ok d0).
  { subst d0. destruct (og_title s); [|apply chunk_ok_empty].
    destruct (negb _); [apply chunk_ok_name|]; apply chunk_ok_empty. }
  clearbody d0.
  set (d1 := fold_left _ _ d0).
  assert (H1 : chunk_ok d1).
  { subst d1. cbn.
    repeat match goal with
    | |- chunk_ok (match ?t with Some _ => _ | None => _ end) => destruct t
    | |- chunk_ok (if ?b then _ else _) => destruct b
    | |- chunk_ok (<["price_value" := _]> _) => apply chunk_ok_price
    end; exact H0. }
  clearbody d1.
  destruct (og_description s); [|exact H1].
  destruct (negb _); [now apply chunk_ok_ml | exact H1].
Qed.

Lemma dom_selectors_ok (s : soup) : chunk_ok (_from_dom_selectors s).
Proof.
  unfold _from_dom_selectors.
  repeat match goal with
  | |- chunk_ok (let x := _ in _) => cbv zeta
  | |- chunk_ok (match ?t with Some _ => _ | None => _ end) => destruct t
  | |- chunk_ok (if ?b then _ else _) => destruct b
  | |- chunk_ok (<["price_value" := _]> _) => apply chunk_ok_price
  | |- chunk_ok (<["bottle_size_ml" := _]> _) => apply chunk_ok_ml
  | |- chunk_ok (<["name" := _]> _) => apply chunk_ok_name
  | |- chunk_ok ∅ => apply chunk_ok_empty
  end.
Qed.

Lemma for_each_inv {A S} (P : S -> Prop) (body : S -> A -> result S)
    (l : list A) (st st' : S) :
  (forall st a st', P st -> body st a = Ret st' -> P st') ->
  P st -> for_each body st l = Ret st' -> P st'.
Proof.
  intros Hb. revert st. induction l as [|a l IH]; intros st Hst; cbn.
  - now intros [= <-].
  - destruct (body st a) as [st1|e] eqn:E; cbn; [|discriminate].
    apply IH. exact (Hb _ _ _ Hst E).
Qed.

Lemma normalize_name_json_ret (nm : json) (n : str) :
  normalize_name_json nm = Ret n -> exists x, n = normalize_name x.
Proof.
  unfold normalize_name_json. destruct (json_truthy nm).
  - destruct nm; try discriminate. intros [= <-]. eauto.
  - intros [= <-]. eauto.
Qed.

Lemma ld_name_ok (data data' : gmap string value) (o : list (str * json)) :
  chunk_ok data -> ld_name data o = Ret data' -> chunk_ok data'.
Proof.
  intros Hd. unfold ld_name.
  destruct (obj_lookup o (py "name")) as [nm|]; [|now intros [= <-]].
  destruct (negb _); [|now intros [= <-]].
  destruct (normalize_name_json nm) as [n|] eqn:En; [|discriminate].
  cbn. intros [= <-].
  apply normalize_name_json_ret in En as [x ->]. now apply chunk_ok_name.
Qed.

Lemma ld_price_ok (data data' : gmap string value) (o : list (str * json)) :
  chunk_ok data -> ld_price data o = Ret data' -> chunk_ok data'.
Proof.
  intros Hd. unfold ld_price.
  destruct (obj_get o (py "offers")); try (now intros [= <-]).
  destruct (offer_price _) as [price|]; [|discriminate]. cbn.
  destruct (_ && _); intros [= <-]; [now apply chunk_ok_price | exact Hd].
Qed.

Lemma ld_size_ok (data : gmap string value) (o : list (str * json)) :
  chunk_ok data -> chunk_ok (ld_size data o).
Proof.
  intros Hd. unfold ld_size. cbv zeta.
  destruct (extract_ml _) as [ml|] eqn:Em; [|exact Hd].
  destruct (_ && _); [|exact Hd].
  apply map_Forall_insert_2; [|exact Hd].
  right. exists ml. split; [reflexivity | now apply extract_ml_nonneg in Em].
Qed.

Lemma json_ld_object_ok (data data' : gmap string value) (obj : json) :
  chunk_ok data -> json_ld_object data obj = Ret data' -> chunk_ok data'.
Proof.
  intros Hd. unfold json_ld_object.
  destruct obj as [| | | | | |o]; try (intros [= <-]; exact Hd).
  destruct (is_product_type _); [|intros [= <-]; exact Hd].
  destruct (ld_name data o) as [d1|] eqn:E1; [|discriminate]. cbn.
  destruct (ld_price d1 o) as [d2|] eqn:E2; [|discriminate]. cbn.
  intros [= <-]. apply ld_size_ok.
  eapply ld_price_ok; [|exact E2]. eapply ld_name_ok; [exact Hd | exact E1].
Qed.

Lemma json_ld_ok (s : soup) (c : gmap string value) :
  _from_json_ld s = Ret c -> chunk_ok c.
Proof.
  unfold _from_json_ld.
  apply (for_each_inv chunk_ok); [|apply chunk_ok_empty].
  intros st [payload|] st' Hst; [|now intros [= <-]].
  apply (for_each_inv chunk_ok); [|exact Hst].
  intros d obj d' Hd. now apply json_ld_object_ok.
Qed.

Lemma merge_all_ok (s : soup) (data : gmap string value) :
  merge_all s = Ret data -> chunk_ok data.
Proof.
  rewrite merge_all_eq. destruct (_from_json_ld s) as [c1|] eqn:E; [|discriminate].
  cbn. intros [= <-].
  repeat apply merge_chunk_ok;
    [apply chunk_ok_empty | now apply (json_ld_ok s)
    | apply meta_tags_ok | apply dom_selectors_ok].
Qed.
End Merge.
(** *** The record *)

Section Record.
Context {U : Unicode} {L : Library}.

Lemma dict_get_name_ok (data : gmap string value) :
  chunk_ok data ->
  dict_get data "name" = VNone
  \/ exists x, dict_get data "name" = VStr (normalize_name x).
Proof.
  intros H. unfold dict_get. destruct (data !! "name") as [v|] eqn:E; [|now left].
  right. exact (H _ _ E).
Qed.

Lemma dict_get_price_ok (data : gmap string value) :
  chunk_ok data ->
  dict_get data "price_value" = VNone
  \/ exists f, dict_get data "price_value" = VFloat f /\ nonneg f = true.
Proof.
  intros H. unfold dict_get.
  destruct (data !! "price_value") as [v|] eqn:E; [|now left]. exact (H _ _ E).
Qed.

Lemma dict_get_ml_ok (data : gmap string value) :
  chunk_ok data ->
  dict_get data "bottle_size_ml" = VNone
  \/ exists n, dict_get data "bottle_size_ml" = VInt n /\ 0 <= n.
Proof.
  intros H. unfold dict_get.
  destruct (data !! "bottle_size_ml") as [v|] eqn:E; [|now left]. exact (H _ _ E).
Qed.

(** The name the record is built from. *)
Lemma build_record_some (s : soup) (html address : str) (r : product) :
  build_record s html address = Ret (Some r) ->
  exists data,
    merge_all s = Ret data
    /\ (exists n, dict_get data "name" = VStr n /\ name r = normalize_name n)
    /\ name r <> []
    /\ (dict_get data "price_value" = VFloat (price_value r)
        \/ (dict_get data "price_value" = VNone
            /\ salvage_price html = Some (price_value r)))
    /\ nonneg (price_value r) = true
    /\ (dict_get data "bottle_size_ml" = VInt (bottle_size_ml r)
        \/ (truthy (dict_get data "bottle_size_ml") = false
            /\ bottle_size_ml r = 750))
    /\ 0 < bottle_size_ml r
    /\ url r = address.
Proof.
  unfold build_record.
  destruct (merge_all s) as [data|] eqn:Em; [|discriminate].
  pose proof (merge_all_ok _ _ Em) as Hok.
  change (Ret data ≫= ?f) with (f data). cbv beta.
  intros H. exists data. split; [reflexivity|].
  assert (Hnil : normalize_name [] = []).
  { unfold normalize_name. now rewrite unescape_plain by apply not_elem_of_nil. }
  destruct (dict_get_name_ok data Hok) as [Hn | [x Hn]]; rewrite Hn in H;
    cbn [truthy] in H.
  { change (Ret ?a ≫= ?f) with (f a) in H. cbv beta in H.
    rewrite Hnil, bool_decide_eq_true_2 in H by reflexivity. discriminate. }
  destruct (bool_decide (normalize_name x = [])) eqn:Ex; cbn [negb] in H;
    change (Ret ?a ≫= ?f) with (f a) in H; cbv beta in H.
  { rewrite Hnil, bool_decide_eq_true_2 in H by reflexivity. discriminate. }
  destruct (bool_decide (normalize_name (normalize_name x) = [])) eqn:Enm;
    [discriminate|].
  apply bool_decide_eq_false_1 in Enm.
  assert (Hml : exists m,
    to_int (if negb (truthy (dict_get data "bottle_size_ml"))
            then VInt 750 else dict_get data "bottle_size_ml") = Ret m
    /\ (dict_get data "bottle_size_ml" = VInt m
        \/ (truthy (dict_get data "bottle_size_ml") = false /\ m = 750))
    /\ 0 < m).
  { destruct (dict_get_ml_ok data Hok) as [-> | (n & -> & Hpos)]; cbn.
    - exists 750. split; [reflexivity | split; [now right | lia]].
    - destruct (n =? 0) eqn:E0; cbn.
      + exists 750. split; [reflexivity | split; [now right | lia]].
      + exists n. split; [reflexivity | split; [now left | lia]]. }
  destruct Hml as (m & Hm & Hmv & Hmpos). rewrite Hm in H.
  destruct (dict_get_price_ok data Hok) as [Hp | (f & Hp & Hf)]; rewrite Hp in H.
  - destruct (salvage_price html) as [f|] eqn:Es; cbn in H; [|discriminate].
    injection H as <-. cbn [name price_value bottle_size_ml url].
    repeat split; try assumption; eauto.
    now apply salvage_price_nonneg in Es.
  - cbn in H. injection H as <-. cbn [name price_value bottle_size_ml url].
    repeat split; try assumption; eauto.
Qed.

Lemma parse_pdp_some (html address : str) (r : product) :
  parse_pdp html address = Ret (Some r) ->
  exists parser,
    BeautifulSoup = Some parser /\ html <> []
    /\ page_looks_like_product (parser html) = Ret true
    /\ build_record (parser html) html address = Ret (Some r).
Proof.
  unfold parse_pdp. destruct (bool_decide (html = [])) eqn:Eh; [discriminate|].
  apply bool_decide_eq_false_1 in Eh.
  destruct BeautifulSoup as [parser|]; [|discriminate].
  destruct (page_looks_like_product (parser html)) as [[|]|] eqn:Eg;
    cbn; try discriminate.
  intros H. exists parser. repeat split; assumption.
Qed.

(** X27.  Whenever [parse_pdp] returns a record, the page passed the gate,
    the normalised name is not empty, and the price was found by a strategy
    or, failing that, by the currency-sign salvage on the raw markup; the
    size is the one the strategies found, or 750 when they found none.  The
    record has a name that is not empty, a price that is not negative, a
    positive size, and the address it was asked for. *)
Theorem parse_pdp_record (html address : str) (r : product) :
  parse_pdp html address = Ret (Some r) ->
  exists parser data,
    BeautifulSoup = Some parser
    /\ page_looks_like_product (parser html) = Ret true
    /\ merge_all (parser html) = Ret data
    /\ (exists n, dict_get data "name" = VStr n /\ name r = normalize_name n)
    /\ name r <> []
    /\ (dict_get data "price_value" = VFloat (price_value r)
        \/ (dict_get data "price_value" = VNone
            /\ salvage_price html = Some (price_value r)))
    /\ nonneg (price_value r) = true
    /\ (dict_get data "bottle_size_ml" = VInt (bottle_size_ml r)
        \/ (truthy (dict_get data "bottle_size_ml") = false
            /\ bottle_size_ml r = 750))
    /\ 0 < bottle_size_ml r
    /\ url r = address.
Proof.
  intros H. apply parse_pdp_some in H as (parser & HB & _ & Hg & Hr).
  apply build_record_some in Hr as (data & Hr).
  exists parser, data. tauto.
Qed.

(** The only exceptions [parse_pdp] lets through are those of the
    structured-data strategy. *)
Lemma build_record_raise (s : soup) (html address : str) (e : exn) :
  build_record s html address = Raise e -> _from_json_ld s = Raise e.
Proof.
  unfold build_record.
  destruct (merge_all s) as [data|e'] eqn:Em.
  2:{ rewrite merge_all_eq in Em.
      destruct (_from_json_ld s); [discriminate|]. cbn in Em |- *. congruence. }
  pose proof (merge_all_ok _ _ Em) as Hok.
  change (Ret data ≫= ?f) with (f data). cbv beta. intros Hx. exfalso.
  destruct (dict_get_name_ok data Hok) as [Hn | [y Hn]]; rewrite Hn in Hx;
    cbn [truthy] in Hx.
  all: try destruct (negb (bool_decide (normalize_name y = [])));
    change (Ret ?a ≫= ?f) with (f a) in Hx; cbv beta in Hx.
  all: destruct (bool_decide _) in Hx; [discriminate|].
  all: destruct (dict_get_ml_ok data Hok) as [Hm | (n & Hm & _)];
    rewrite Hm in Hx; cbn [truthy negb] in Hx;
    try destruct (negb (negb (n =? 0)));
    destruct (dict_get_price_ok data Hok) as [Hp | (f & Hp & _)];
    rewrite Hp in Hx; try destruct (salvage_price html); discriminate.
Qed.

Lemma parse_pdp_raise (html address : str) (e : exn) :
  parse_pdp html address = Raise e ->
  exists parser, BeautifulSoup = Some parser
                 /\ _from_json_ld (parser html) = Raise e.
Proof.
  unfold parse_pdp. destruct (bool_decide _); [discriminate|].
  destruct BeautifulSoup as [parser|]; [|discriminate].
  intros H. exists parser. split; [reflexivity|].
  unfold page_looks_like_product in H.
  destruct (has_product_marker _).
  - now apply build_record_raise in H.
  - destruct (_from_json_ld (parser html)) as [c1|e'] eqn:Ej; [|cbn in H; congruence].
    cbn in H. destruct (truthy _); cbn in H; [|discriminate].
    apply build_record_raise in H. congruence.
Qed.
End Record.

Lemma parse_pdp_record_witness :
  @parse_pdp ascii_unicode (page_library (Some (fun _ => og_page "product")))
    some_html some_url = Ret (Some og_record)
  /\ exists parser data,
      @BeautifulSoup (page_library (Some (fun _ => og_page "product")))
        = Some parser
      /\ @page_looks_like_product ascii_unicode
           (page_library (Some (fun _ => og_page "product")))
           (parser some_html) = Ret true
      /\ @merge_all ascii_unicode
           (page_library (Some (fun _ => og_page "product")))
           (parser some_html) = Ret data
      /\ (exists n, dict_get data "name" = VStr n
                    /\ name og_record
                       = @normalize_name ascii_unicode
                           (page_library (Some (fun _ => og_page "product"))) n)
      /\ name og_record <> []
      /\ (dict_get data "price_value" = VFloat (price_value og_record)
          \/ (dict_get data "price_value" = VNone
              /\ @salvage_price ascii_unicode some_html
                 = Some (price_value og_record)))
      /\ nonneg (price_value og_record) = true
      /\ (dict_get data "bottle_size_ml" = VInt (bottle_size_ml og_record)
          \/ (truthy (dict_get data "bottle_size_ml") = false
              /\ bottle_size_ml og_record = 750))
      /\ 0 < bottle_size_ml og_record
      /\ url og_record = some_url.
Proof.
  split; [vm_compute; reflexivity|].
  apply (@parse_pdp_record ascii_unicode
           (page_library (Some (fun _ => og_page "product")))
           some_html some_url og_record).
  vm_compute. reflexivity.
Defined.
(** *** The priority of the strategies *)

Section Priority.
Context {U : Unicode} {L : Library}.

(** C2, as the code has it.  The strategies are merged in the order
    structured data, meta tags, page elements: each field of the merged
    dictionary is the first true value the three chunks hold for it, so a
    later strategy never replaces a field an earlier one has set.  The
    record takes its price and its size from the merged dictionary as they
    are.  Its name is the merged name normalised once more: the same name
    when it holds no [&], hence no character reference. *)
Theorem merge_priority
    (parser : str -> soup) (html : str) (c1 : gmap string value) :
  BeautifulSoup = Some parser ->
  _from_json_ld (parser html) = Ret c1 ->
  exists data,
    merge_all (parser html) = Ret data
    /\ (forall k,
          dict_get data k =
            first_true [dict_get c1 k;
                        dict_get (_from_meta_tags (parser html)) k;
                        dict_get (_from_dom_selectors (parser html)) k])
    /\ forall address r,
         parse_pdp html address = Ret (Some r) ->
         (exists n, dict_get data "name" = VStr n
                    /\ name r = normalize_name n
                    /\ (38 ∉ n -> name r = n))
         /\ (dict_get data "price_value" = VFloat (price_value r)
             \/ dict_get data "price_value" = VNone)
         /\ (dict_get data "bottle_size_ml" = VInt (bottle_size_ml r)
             \/ truthy (dict_get data "bottle_size_ml") = false).
Proof.
  intros HB Hj.
  exists (merge_chunk (merge_chunk (merge_chunk ∅ c1)
                         (_from_meta_tags (parser html)))
                      (_from_dom_selectors (parser html))).
  assert (Hm : merge_all (parser html) =
               Ret (merge_chunk (merge_chunk (merge_chunk ∅ c1)
                                   (_from_meta_tags (parser html)))
                                (_from_dom_selectors (parser html)))).
  { rewrite merge_all_eq, Hj. reflexivity. }
  split; [exact Hm|]. split; [intros k; apply merge_first_true|].
  intros address r Hr.
  apply parse_pdp_some in Hr as (parser' & HB' & _ & _ & Hr).
  apply build_record_some in Hr as (data & Hm' & Hn & _ & Hp & _ & Hs & _).
  assert (parser' = parser) as -> by congruence.
  rewrite Hm in Hm'. injection Hm' as <-.
  pose proof (merge_all_ok _ _ Hm) as Hok.
  split; [|split].
  - destruct Hn as (n & Hn & Hr). exists n. split; [exact Hn|]. split; [exact Hr|].
    intros Hamp. rewrite Hr.
    destruct (dict_get_name_ok _ Hok) as [Hx | (x & Hx)]; [congruence|].
    assert (n = normalize_name x) as -> by congruence.
    now apply normalize_name_plain.
  - destruct Hp as [Hp | [Hp _]]; [now left | now right].
  - destruct Hs as [Hs | [Hs _]]; [now left | now right].
Qed.
End Priority.

Lemma merge_priority_witness :
  @BeautifulSoup (page_library (Some (fun _ => ld_page (py "Yarden Merlot"))))
    = Some (fun _ => ld_page (py "Yarden Merlot"))
  /\ @_from_json_ld ascii_unicode
       (page_library (Some (fun _ => ld_page (py "Yarden Merlot"))))
       (ld_page (py "Yarden Merlot")) = Ret (ld_chunk (py "Yarden Merlot"))
  /\ exists data,
      @merge_all ascii_unicode
         (page_library (Some (fun _ => ld_page (py "Yarden Merlot"))))
         (ld_page (py "Yarden Merlot")) = Ret data
      /\ (forall k,
            dict_get data k =
              first_true
                [dict_get (ld_chunk (py "Yarden Merlot")) k;
                 dict_get (@_from_meta_tags ascii_unicode
                             (page_library
                                (Some (fun _ => ld_page (py "Yarden Merlot"))))
                             (ld_page (py "Yarden Merlot"))) k;
                 dict_get (@_from_dom_selectors ascii_unicode
                             (page_library
                                (Some (fun _ => ld_page (py "Yarden Merlot"))))
                             (ld_page (py "Yarden Merlot"))) k])
      /\ forall address r,
           @parse_pdp ascii_unicode
             (page_library (Some (fun _ => ld_page (py "Yarden Merlot"))))
             some_html address = Ret (Some r) ->
           (exists n, dict_get data "name" = VStr n
                      /\ name r
                         = @normalize_name ascii_unicode
                             (page_library
                                (Some (fun _ => ld_page (py "Yarden Merlot")))) n
                      /\ (38 ∉ n -> name r = n))
           /\ (dict_get data "price_value" = VFloat (price_value r)
               \/ dict_get data "price_value" = VNone)
           /\ (dict_get data "bottle_size_ml" = VInt (bottle_size_ml r)
               \/ truthy (dict_get data "bottle_size_ml") = false).
Proof.
  split; [reflexivity|]. split; [vm_compute; reflexivity|].
  apply (@merge_priority ascii_unicode
           (page_library (Some (fun _ => ld_page (py "Yarden Merlot"))))
           (fun _ => ld_page (py "Yarden Merlot")) some_html
           (ld_chunk (py "Yarden Merlot"))).
  - reflexivity.
  - vm_compute. reflexivity.
Defined.

(** C2, as the specification words it, fails: the structured data yields
    the name [A &amp; B] (from [A &amp;amp; B]), the title meta another
    name, and the record carries [A & B]. *)
Lemma merge_priority_name_counterexample :
  exists c1 r,
    @_from_json_ld ascii_unicode
       (page_library (Some (fun _ => ld_page (py "A &amp;amp; B"))))
       (ld_page (py "A &amp;amp; B")) = Ret c1
    /\ dict_get c1 "name" = VStr (py "A &amp; B")
    /\ dict_get (@_from_meta_tags ascii_unicode
                   (page_library (Some (fun _ => ld_page (py "A &amp;amp; B"))))
                   (ld_page (py "A &amp;amp; B"))) "name"
       = VStr (py "Red wine | The Importer")
    /\ @parse_pdp ascii_unicode
         (page_library (Some (fun _ => ld_page (py "A &amp;amp; B"))))
         some_html some_url = Ret (Some r)
    /\ name r = py "A & B"
    /\ name r <> py "A &amp; B".
Proof.
  eexists _, _. split; [vm_compute; reflexivity|].
  split; [vm_compute; reflexivity|].
  split; [vm_compute; reflexivity|].
  split; [vm_compute; reflexivity|].
  split; [vm_compute; reflexivity|].
  vm_compute. discriminate.
Qed.
(** *** The rating cache *)

Lemma cache_random (w : world) : vivino_cache (random w).2 = vivino_cache w.
Proof. reflexivity. Qed.

Lemma cache_request (u : str) (ps : list (str * str)) (w : world) :
  vivino_cache (request u ps w).2 = vivino_cache w.
Proof. reflexivity. Qed.

Lemma cache_fetch_text (u : str) (ps : list (str * str)) (lo hi : Q) (w : world) :
  vivino_cache (fetch_text u ps lo hi w).2 = vivino_cache w.
Proof.
  unfold fetch_text. cbn.
  destruct (answers w 0%nat) as [code body|]; [destruct (code =? 200)|]; reflexivity.
Qed.

Lemma cache_backoff_loop (ps : list (str * str)) (n : nat) (a : Z) (d : Q) (w : world) :
  vivino_cache (backoff_loop ps n a d w).2 = vivino_cache w.
Proof.
  revert a d w. induction n as [|n IH]; intros a d w; [reflexivity|].
  cbn. destruct (answers w 0%nat) as [code body|].
  - destruct (code =? 429); [now rewrite IH|].
    destruct (400 <=? code); [now rewrite IH | reflexivity].
  - now rewrite IH.
Qed.

Section Cache.
Context {U : Unicode} {X : LinkExtraction}.

(** The scan ends by writing its result into the cache, under the key it
    was given. *)
Lemma cache_scan_candidates (key : str) (urls : list str) (w : world) :
  vivino_cache (scan_candidates key urls w).2 =
    <[key := (scan_candidates key urls w).1]> (vivino_cache w).
Proof.
  revert w. induction urls as [|vu urls IH]; intros w; [reflexivity|].
  cbn [scan_candidates].
  pose proof (cache_fetch_text vu [] (6 # 10) (12 # 10) w) as Hc.
  destruct (fetch_text vu [] (6 # 10) (12 # 10) w) as [page w1]. cbn in Hc.
  destruct page as [[|c page]|]; try (rewrite IH, Hc; reflexivity).
  destruct (_extract_vivino_rating_from_html (c :: page)) as [rating|].
  - cbn. now rewrite Hc.
  - rewrite IH, Hc. reflexivity.
Qed.

(** A lookup that misses the cache leaves it with one more entry, its own
    result. *)
Lemma cache_lookup_miss (wine_name : str) (w : world) :
  vivino_cache w !! strip wine_name = None ->
  vivino_cache (vivino_lookup wine_name w).2 =
    <[strip wine_name := (vivino_lookup wine_name w).1]> (vivino_cache w).
Proof.
  intros Hmiss. unfold vivino_lookup. rewrite Hmiss.
  set (params := [_; _]).
  pose proof (cache_fetch_text BING_SEARCH_URL params (4 # 10) 1 w) as Hc.
  destruct (fetch_text BING_SEARCH_URL params (4 # 10) 1 w) as [html w1].
  cbn in Hc.
  set (viv := match html with Some (_ :: _ as h) => _ | _ => [] end).
  destruct viv as [|u us].
  - unfold _fetch_vivino_search_with_backoff.
    pose proof (cache_backoff_loop [(py "q", _he_to_en_query wine_name)]
                  max_tries 1 2 w1) as Hb.
    destruct (backoff_loop _ _ _ _ w1) as [vhtml w2]. cbn in Hb.
    destruct vhtml as [[|c v]|]; rewrite cache_scan_candidates; congruence.
  - rewrite cache_scan_candidates. congruence.
Qed.

Lemma cache_lookup_hit (wine_name : str) (w : world) (entry : option match_result) :
  vivino_cache w !! strip wine_name = Some entry ->
  vivino_lookup wine_name w = (entry, w).
Proof. intros Hhit. unfold vivino_lookup. now rewrite Hhit. Qed.

(** No lookup removes or changes an entry of the cache. *)
Lemma cache_lookup_keeps (wine_name k : str) (w : world) (entry : option match_result) :
  vivino_cache w !! k = Some entry ->
  vivino_cache (vivino_lookup wine_name w).2 !! k = Some entry.
Proof.
  intros Hk. destruct (vivino_cache w !! strip wine_name) as [e|] eqn:E.
  - now rewrite (cache_lookup_hit _ _ _ E).
  - rewrite (cache_lookup_miss _ _ E). rewrite lookup_insert_ne; [exact Hk|].
    congruence.
Qed.

(** Every lookup leaves its result in the cache. *)
Lemma cache_lookup_stores (wine_name : str) (w : world) :
  vivino_cache (vivino_lookup wine_name w).2 !! strip wine_name
    = Some (vivino_lookup wine_name w).1.
Proof.
  destruct (vivino_cache w !! strip wine_name) as [e|] eqn:E.
  - now rewrite (cache_lookup_hit _ _ _ E).
  - rewrite (cache_lookup_miss _ _ E). apply lookup_insert_eq.
Qed.

End Cache.

(** *** The backoff loop *)

Lemma backoff_factor (r : Q) :
  (0 <= r)%Q -> (r < 1)%Q ->
  ((17 # 10) <= (17 # 10) + r * (3 # 10))%Q /\ ((17 # 10) + r * (3 # 10) < 2)%Q.
Proof. intros H0 H1. split; lra. Qed.

Lemma backoff_growth (d r : Q) :
  (0 < d)%Q -> (0 <= r)%Q -> (r < 1)%Q ->
  ((17 # 10) * d <= d * ((17 # 10) + r * (3 # 10)))%Q
  /\ (d * ((17 # 10) + r * (3 # 10)) < 2 * d)%Q
  /\ (0 < d * ((17 # 10) + r * (3 # 10)))%Q.
Proof. intros Hd H0 H1. repeat split; nra. Qed.

(** One turn of the loop on a rate-limit answer. *)
Lemma backoff_loop_429 (ps : list (str * str)) (n : nat) (a : Z) (d : Q)
    (w : world) (body : str) :
  answers w 0%nat = Status 429 body ->
  backoff_loop ps (S n) a d w =
    backoff_loop ps n (a + 1) (d * ((17 # 10) + draws w 0%nat * (3 # 10)))%Q
      {| vivino_cache := vivino_cache w;
         trace := Get VIVINO_FALLBACK_SEARCH ps
                  :: Sleep (if 1 <? a then d else 0%Q) :: trace w;
         answers := fun k => answers w (S k);
         draws := fun k => draws w (S k) |}.
Proof. intros H. cbn. rewrite H. reflexivity. Qed.

(** The loop when every answer is a rate limit: it returns nothing. *)
Lemma backoff_loop_all_limited (ps : list (str * str)) (w : world) :
  (forall n, exists body, answers w n = Status 429 body) ->
  exists w', _fetch_vivino_search_with_backoff ps w = (None, w').
Proof.
  intros Ha.
  destruct (Ha 0%nat) as [b0 H0], (Ha 1%nat) as [b1 H1], (Ha 2%nat) as [b2 H2],
    (Ha 3%nat) as [b3 H3], (Ha 4%nat) as [b4 H4], (Ha 5%nat) as [b5 H5].
  unfold _fetch_vivino_search_with_backoff, max_tries.
  rewrite (backoff_loop_429 _ _ _ _ _ b0) by exact H0.
  rewrite (backoff_loop_429 _ _ _ _ _ b1) by exact H1.
  rewrite (backoff_loop_429 _ _ _ _ _ b2) by exact H2.
  rewrite (backoff_loop_429 _ _ _ _ _ b3) by exact H3.
  rewrite (backoff_loop_429 _ _ _ _ _ b4) by exact H4.
  rewrite (backoff_loop_429 _ _ _ _ _ b5) by exact H5.
  eexists. reflexivity.
Qed.

(** Whatever the answers, the loop makes at most six requests. *)
Lemma backoff_loop_requests (ps : list (str * str)) (n : nat) (a : Z) (d : Q)
    (w : world) :
  exists new, trace (backoff_loop ps n a d w).2 = new ++ trace w
              /\ (requests new <= n)%nat.
Proof.
  revert a d w. induction n as [|n IH]; intros a d w.
  - exists []. split; [reflexivity | cbn; lia].
  - cbn [backoff_loop request emit random fst snd vivino_cache trace answers draws].
    set (w1 := {| vivino_cache := _; trace := Get _ _ :: _; answers := _; draws := draws w |}).
    assert (Hstep : forall a' d' w2, trace w2 = trace w1 ->
              exists new, trace (backoff_loop ps n a' d' w2).2 = new ++ trace w
                          /\ (requests new <= S n)%nat).
    { intros a' d' w2 Hw. destruct (IH a' d' w2) as (new & Ht & Hn).
      exists (new ++ [Get VIVINO_FALLBACK_SEARCH ps;
                      Sleep (if 1 <? a then d else 0%Q)]).
      split.
      - rewrite Ht, Hw. subst w1. cbn. now rewrite <- app_assoc.
      - unfold requests in *. rewrite List.filter_app, length_app. cbn. lia. }
    destruct (answers w 0%nat) as [code body|].
    + destruct (code =? 429); [now apply Hstep|].
      destruct (400 <=? code); [now apply Hstep|].
      exists [Get VIVINO_FALLBACK_SEARCH ps; Sleep (if 1 <? a then d else 0%Q)].
      split; [reflexivity | cbn; lia].
    + now apply Hstep.
Qed.

Lemma backoff_at_most_six_requests (ps : list (str * str)) (w : world) :
  exists new,
    trace (_fetch_vivino_search_with_backoff ps w).2 = new ++ trace w
    /\ (requests new <= 6)%nat.
Proof. apply backoff_loop_requests. Qed.

Section Limited.
Context {U : Unicode} {X : LinkExtraction}.

(** A search that is rate-limited to the end is a failed fetch: with no
    candidate from the search engine either, the lookup finds nothing and
    caches the negative marker. *)
Lemma lookup_rate_limited (wine_name : str) (w : world) :
  vivino_cache w !! strip wine_name = None ->
  (forall body, answers w 0%nat = Status 200 body ->
                body = [] \/ _extract_all_vivino_links_from_bing body = []) ->
  (forall n, exists body, answers w (S n) = Status 429 body) ->
  (vivino_lookup wine_name w).1 = None
  /\ vivino_cache (vivino_lookup wine_name w).2
     = <[strip wine_name := None]> (vivino_cache w).
Proof.
  intros Hmiss Hbing Ha.
  assert (Hres : (vivino_lookup wine_name w).1 = None).
  2:{ split; [exact Hres|]. rewrite cache_lookup_miss by exact Hmiss.
      now rewrite Hres. }
  unfold vivino_lookup. rewrite Hmiss.
  set (params := [_; _]).
  unfold fetch_text.
  cbn [random request emit fst snd vivino_cache trace answers draws].
  set (w1 := {| vivino_cache := _; trace := Get _ _ :: _ |}).
  destruct (backoff_loop_all_limited
              [(py "q", _he_to_en_query wine_name)] w1) as (w' & Hf).
  { intros n. apply Ha. }
  destruct (answers w 0%nat) as [code body|] eqn:E0.
  - destruct (code =? 200) eqn:Ec.
    + assert (code = 200) as -> by lia.
      destruct (Hbing body eq_refl) as [-> | Hl].
      * now rewrite Hf.
      * destruct body as [|c body]; [now rewrite Hf|]. rewrite Hl.
        now rewrite Hf.
    + now rewrite Hf.
  - now rewrite Hf.
Qed.
End Limited.

(** C7.  When every request of the fallback search is answered with a rate
    limit, the loop makes six requests and no more, and returns nothing.  It
    does not sleep before the first request; before each later one it sleeps
    the current delay, which starts from 2 seconds and is multiplied after
    every rate-limit answer by 1.7 plus a random jitter below 0.3, so each
    sleep is at least 1.7 times and less than twice the one before. *)
Theorem backoff_gives_up_after_six_attempts (ps : list (str * str)) (w : world) :
  (forall n, exists body, answers w n = Status 429 body) ->
  (forall n, (0 <= draws w n)%Q /\ (draws w n < 1)%Q) ->
  exists d1 d2 d3 d4 d5 w',
    _fetch_vivino_search_with_backoff ps w = (None, w')
    /\ trace w' =
         [Get VIVINO_FALLBACK_SEARCH ps; Sleep d5;
          Get VIVINO_FALLBACK_SEARCH ps; Sleep d4;
          Get VIVINO_FALLBACK_SEARCH ps; Sleep d3;
          Get VIVINO_FALLBACK_SEARCH ps; Sleep d2;
          Get VIVINO_FALLBACK_SEARCH ps; Sleep d1;
          Get VIVINO_FALLBACK_SEARCH ps; Sleep 0%Q] ++ trace w
    /\ vivino_cache w' = vivino_cache w
    /\ ((17 # 10) * 2 <= d1 /\ d1 < 2 * 2)%Q
    /\ ((17 # 10) * d1 <= d2 /\ d2 < 2 * d1)%Q
    /\ ((17 # 10) * d2 <= d3 /\ d3 < 2 * d2)%Q
    /\ ((17 # 10) * d3 <= d4 /\ d4 < 2 * d3)%Q
    /\ ((17 # 10) * d4 <= d5 /\ d5 < 2 * d4)%Q.
Proof.
  intros Ha Hr.
  destruct (Ha 0%nat) as [b0 H0], (Ha 1%nat) as [b1 H1], (Ha 2%nat) as [b2 H2],
    (Ha 3%nat) as [b3 H3], (Ha 4%nat) as [b4 H4], (Ha 5%nat) as [b5 H5].
  destruct (Hr 0%nat) as [R0 R0'], (Hr 1%nat) as [R1 R1'], (Hr 2%nat) as [R2 R2'],
    (Hr 3%nat) as [R3 R3'], (Hr 4%nat) as [R4 R4'].
  unfold _fetch_vivino_search_with_backoff, max_tries.
  rewrite (backoff_loop_429 _ _ _ _ _ b0) by exact H0.
  rewrite (backoff_loop_429 _ _ _ _ _ b1) by exact H1.
  rewrite (backoff_loop_429 _ _ _ _ _ b2) by exact H2.
  rewrite (backoff_loop_429 _ _ _ _ _ b3) by exact H3.
  rewrite (backoff_loop_429 _ _ _ _ _ b4) by exact H4.
  rewrite (backoff_loop_429 _ _ _ _ _ b5) by exact H5.
  cbn [backoff_loop vivino_cache trace answers draws Z.add Z.ltb Z.compare
       Pos.compare Pos.add Pos.succ Pos.compare_cont].
  set (d1 := (2 * ((17 # 10) + draws w 0%nat * (3 # 10)))%Q).
  set (d2 := (d1 * ((17 # 10) + draws w 1%nat * (3 # 10)))%Q).
  set (d3 := (d2 * ((17 # 10) + draws w 2%nat * (3 # 10)))%Q).
  set (d4 := (d3 * ((17 # 10) + draws w 3%nat * (3 # 10)))%Q).
  set (d5 := (d4 * ((17 # 10) + draws w 4%nat * (3 # 10)))%Q).
  destruct (backoff_growth 2 _ eq_refl R0 R0') as (L1 & U1 & P1). fold d1 in L1, U1, P1.
  destruct (backoff_growth d1 _ P1 R1 R1') as (L2 & U2 & P2). fold d2 in L2, U2, P2.
  destruct (backoff_growth d2 _ P2 R2 R2') as (L3 & U3 & P3). fold d3 in L3, U3, P3.
  destruct (backoff_growth d3 _ P3 R3 R3') as (L4 & U4 & P4). fold d4 in L4, U4, P4.
  destruct (backoff_growth d4 _ P4 R4 R4') as (L5 & U5 & P5). fold d5 in L5, U5, P5.
  eexists d1, d2, d3, d4, d5, _.
  split; [reflexivity|]. cbn [trace vivino_cache].
  repeat split; assumption.
Qed.

Lemma backoff_gives_up_after_six_attempts_witness :
  (forall n, exists body, answers (limited_world ∅) n = Status 429 body)
  /\ (forall n, (0 <= draws (limited_world ∅) n)%Q /\ (draws (limited_world ∅) n < 1)%Q)
  /\ exists d1 d2 d3 d4 d5 w',
    _fetch_vivino_search_with_backoff [] (limited_world ∅) = (None, w')
    /\ trace w' =
         [Get VIVINO_FALLBACK_SEARCH []; Sleep d5;
          Get VIVINO_FALLBACK_SEARCH []; Sleep d4;
          Get VIVINO_FALLBACK_SEARCH []; Sleep d3;
          Get VIVINO_FALLBACK_SEARCH []; Sleep d2;
          Get VIVINO_FALLBACK_SEARCH []; Sleep d1;
          Get VIVINO_FALLBACK_SEARCH []; Sleep 0%Q] ++ trace (limited_world ∅)
    /\ vivino_cache w' = vivino_cache (limited_world ∅)
    /\ ((17 # 10) * 2 <= d1 /\ d1 < 2 * 2)%Q
    /\ ((17 # 10) * d1 <= d2 /\ d2 < 2 * d1)%Q
    /\ ((17 # 10) * d2 <= d3 /\ d3 < 2 * d2)%Q
    /\ ((17 # 10) * d3 <= d4 /\ d4 < 2 * d3)%Q
    /\ ((17 # 10) * d4 <= d5 /\ d5 < 2 * d4)%Q.
Proof.
  assert (Ha : forall n, exists body, answers (limited_world ∅) n = Status 429 body)
    by (intros n; exists []; reflexivity).
  assert (Hr : forall n, (0 <= draws (limited_world ∅) n)%Q
                         /\ (draws (limited_world ∅) n < 1)%Q)
    by (intros n; cbn; split; lra).
  split; [exact Ha|]. split; [exact Hr|].
  exact (backoff_gives_up_after_six_attempts [] (limited_world ∅) Ha Hr).
Defined.
(** *** The matcher finds the matches of a pattern *)

Lemma prev_after_cons (prev : option Z) (x : Z) (ds : str) :
  prev_after prev (x :: ds) = prev_after (Some x) ds.
Proof. reflexivity. Qed.

Lemma prev_after_app (prev : option Z) (a b : str) :
  prev_after prev (a ++ b) = prev_after (prev_after prev a) b.
Proof. unfold prev_after. apply fold_left_app. Qed.

Lemma prev_after_last (prev : option Z) (ds : str) (x : Z) :
  prev_after prev (ds ++ [x]) = Some x.
Proof. now rewrite prev_after_app. Qed.

Section MatcherFacts.
Context {U : Unicode}.

Lemma rep_sound {A} (p : Z -> bool) (s : str) :
  forall (lo : nat) (hi : option nat) (prev : option Z)
         (k : option Z -> str -> option A) (a : A),
    rep p lo hi prev s k = Some a ->
    exists ds s',
      s = ds ++ s' /\ forallb p ds = true /\ (lo <= length ds)%nat
      /\ within (length ds) hi /\ k (prev_after prev ds) s' = Some a.
Proof.
  induction s as [|x s IH]; intros lo hi prev k a; cbn [rep].
  - destruct (lo =? 0)%nat eqn:El; [|discriminate]. intros Hk.
    exists [], []. repeat split; try assumption.
    + apply Nat.eqb_eq in El. cbn. lia.
    + destruct hi; cbn; [lia | exact I].
  - assert (Hstop : (if (lo =? 0)%nat then k prev (x :: s) else None) = Some a ->
              exists ds s', x :: s = ds ++ s' /\ forallb p ds = true
                /\ (lo <= length ds)%nat /\ within (length ds) hi
                /\ k (prev_after prev ds) s' = Some a).
    { destruct (lo =? 0)%nat eqn:El; [|discriminate]. intros Hk.
      exists [], (x :: s). repeat split; try assumption.
      + apply Nat.eqb_eq in El. cbn. lia.
      + destruct hi; cbn; [lia | exact I]. }
    destruct (p x && negb (bool_decide (hi = Some 0%nat))) eqn:Ep; [|exact Hstop].
    apply andb_prop in Ep as [Hp Hh]. apply negb_true_iff in Hh.
    apply bool_decide_eq_false_1 in Hh.
    destruct (rep p (Nat.pred lo) (Nat.pred <$> hi) (Some x) s k) as [a'|] eqn:Er;
      [|exact Hstop].
    intros [= <-]. apply IH in Er as (ds & s' & -> & Hds & Hlo & Hhi & Hk).
    exists (x :: ds), s'. repeat split.
    + cbn. now rewrite Hp, Hds.
    + cbn. lia.
    + destruct hi as [[|h]|]; cbn in *; [congruence | lia | exact I].
    + exact Hk.
Qed.

Lemma rep_complete {A} (p : Z -> bool) (ds : str) :
  forall (lo : nat) (hi : option nat) (prev : option Z) (s' : str)
         (k : option Z -> str -> option A),
    forallb p ds = true -> (lo <= length ds)%nat -> within (length ds) hi ->
    is_Some (k (prev_after prev ds) s') ->
    is_Some (rep p lo hi prev (ds ++ s') k).
Proof.
  induction ds as [|x ds IH]; intros lo hi prev s' k Hds Hlo Hhi Hk.
  - cbn in Hlo. assert (lo = 0%nat) as -> by lia. cbn [app].
    destruct s' as [|y s']; cbn [rep Nat.eqb]; [exact Hk|].
    destruct (p y && _); [|exact Hk].
    destruct (rep p _ _ _ _ _); [eauto | exact Hk].
  - cbn in Hds. apply andb_prop in Hds as [Hx Hds].
    cbn [app rep]. rewrite Hx.
    assert (Hh : bool_decide (hi = Some 0%nat) = false).
    { apply bool_decide_eq_false_2. intros ->. cbn in Hhi. lia. }
    rewrite Hh. cbn [negb andb].
    destruct (IH (Nat.pred lo) (Nat.pred <$> hi) (Some x) s' k) as [a Ha];
      try assumption.
    + cbn in Hlo. lia.
    + destruct hi as [h|]; cbn in *; [lia | exact I].
    + now rewrite Ha.
Qed.

(** Greedy repetition takes the whole run when what follows then matches. *)
Lemma rep_greedy {A} (p : Z -> bool) (ds : str) :
  forall (lo : nat) (hi : option nat) (prev : option Z) (s' : str)
         (k : option Z -> str -> option A) (a : A),
    forallb p ds = true -> (lo <= length ds)%nat -> within (length ds) hi ->
    match s' with x :: _ => p x = false | [] => True end ->
    k (prev_after prev ds) s' = Some a ->
    rep p lo hi prev (ds ++ s') k = Some a.
Proof.
  induction ds as [|x ds IH]; intros lo hi prev s' k a Hds Hlo Hhi Hs' Hk.
  - cbn in Hlo. assert (lo = 0%nat) as -> by lia. cbn [app].
    destruct s' as [|y s']; cbn [rep Nat.eqb]; [exact Hk|].
    now rewrite Hs'.
  - cbn in Hds. apply andb_prop in Hds as [Hx Hds].
    cbn [app rep]. rewrite Hx.
    assert (Hh : bool_decide (hi = Some 0%nat) = false).
    { apply bool_decide_eq_false_2. intros ->. cbn in Hhi. lia. }
    rewrite Hh. cbn [negb andb].
    rewrite (IH (Nat.pred lo) (Nat.pred <$> hi) (Some x) s' k a); try assumption.
    + reflexivity.
    + cbn in Hlo. lia.
    + destruct hi as [h|]; cbn in *; [lia | exact I].
Qed.

(** A repetition that needs a character fails where none fits. *)
Lemma rep_none {A} (p : Z -> bool) (lo : nat) (hi : option nat)
    (prev : option Z) (s : str) (k : option Z -> str -> option A) :
  (0 < lo)%nat ->
  match s with x :: _ => p x = false | [] => True end ->
  rep p lo hi prev s k = None.
Proof.
  intros Hlo Hs. destruct lo; [lia|].
  destruct s as [|x s]; cbn; [reflexivity|]. now rewrite Hs.
Qed.

Lemma rmatch_sound {A} (ic : bool) (r : regex) :
  forall (prev : option Z) (s : str) (g : option str)
         (k : option Z -> str -> option str -> option A) (a : A),
    rmatch ic r prev s g k = Some a ->
    exists prev' s' g',
      matches ic r prev s g prev' s' g' /\ k prev' s' g' = Some a.
Proof.
  induction r as [c|p|r1 IH1 r2 IH2|r1 IH1 r2 IH2| |p lo hi|r1 IH1| ];
    intros prev s g k a; cbn [rmatch matches].
  - destruct s as [|x s]; [discriminate|].
    destruct (lit_eq ic c x) eqn:E; [|discriminate]. intros Hk.
    exists (Some x), s, g. split; [exists x|]; auto.
  - destruct s as [|x s]; [discriminate|].
    destruct (p x) eqn:E; [|discriminate]. intros Hk.
    exists (Some x), s, g. split; [exists x|]; auto.
  - intros H. apply IH1 in H as (p1 & s1 & g1 & H1 & H).
    apply IH2 in H as (p2 & s2 & g2 & H2 & H).
    exists p2, s2, g2. split; [exists p1, s1, g1|]; auto.
  - destruct (rmatch ic r1 prev s g k) as [a'|] eqn:E.
    + intros [= <-]. apply IH1 in E as (p1 & s1 & g1 & H1 & H).
      exists p1, s1, g1. auto.
    + intros H. apply IH2 in H as (p2 & s2 & g2 & H2 & H).
      exists p2, s2, g2. auto.
  - intros Hk. exists prev, s, g. auto.
  - intros H. apply rep_sound in H as (ds & s' & -> & Hds & Hlo & Hhi & Hk).
    exists (prev_after prev ds), s', g. split; [exists ds|]; auto 10.
  - intros H. apply IH1 in H as (p1 & s1 & g1 & H1 & H).
    exists p1, s1, (Some (take (length s - length s1) s)).
    split; [exists g1|]; auto.
  - destruct (xorb _ _) eqn:E; [|discriminate]. intros Hk.
    exists prev, s, g. auto.
Qed.

Lemma rmatch_complete {A} (ic : bool) (r : regex) :
  forall (prev : option Z) (s : str) (g : option str)
         (prev' : option Z) (s' : str) (g' : option str)
         (k : option Z -> str -> option str -> option A),
    matches ic r prev s g prev' s' g' ->
    is_Some (k prev' s' g') ->
    is_Some (rmatch ic r prev s g k).
Proof.
  induction r as [c|p|r1 IH1 r2 IH2|r1 IH1 r2 IH2| |p lo hi|r1 IH1| ];
    intros prev s g prev' s' g' k; cbn [rmatch matches].
  - intros (x & -> & E & -> & ->) Hk. now rewrite E.
  - intros (x & -> & E & -> & ->) Hk. now rewrite E.
  - intros (p1 & s1 & g1 & H1 & H2) Hk.
    eapply IH1; [exact H1|]. eapply IH2; [exact H2 | exact Hk].
  - intros [H1 | H2] Hk.
    + destruct (IH1 _ _ _ _ _ _ k H1 Hk) as [a Ha]. rewrite Ha. eauto.
    + destruct (rmatch ic r1 prev s g k); [eauto|]. eapply IH2; eauto.
  - intros (-> & -> & ->) Hk. exact Hk.
  - intros (ds & -> & Hds & Hlo & Hhi & -> & ->) Hk.
    now apply rep_complete.
  - intros (g1 & H1 & ->) Hk. eapply IH1; [exact H1 | exact Hk].
  - intros (E & -> & -> & ->) Hk. now rewrite E.
Qed.

(** The same for [search]: a result is a match at some position, and a
    match at some position gives a result. *)
Lemma search_from_sound (ic : bool) (r : regex) (s : str) :
  forall (prev : option Z) (m : rmatch_result),
    search_from ic r prev s = Some m ->
    exists pre s1 prev' g',
      s = pre ++ s1
      /\ matches ic r (prev_after prev pre) s1 None prev' (after m) g'
      /\ group1 m = default [] g'.
Proof.
  induction s as [|x s IH]; intros prev m; cbn [search_from].
  - destruct (match_here ic r prev []) as [m'|] eqn:E; [|discriminate].
    intros [= <-]. unfold match_here in E.
    apply rmatch_sound in E as (p' & s' & g' & Hm & [= <-]).
    exists [], [], p', g'. auto.
  - destruct (match_here ic r prev (x :: s)) as [m'|] eqn:E.
    + intros [= <-]. unfold match_here in E.
      apply rmatch_sound in E as (p' & s' & g' & Hm & [= <-]).
      exists [], (x :: s), p', g'. auto.
    + intros H. apply IH in H as (pre & s1 & p' & g' & -> & Hm & Hg).
      exists (x :: pre), s1, p', g'. auto.
Qed.

Lemma search_from_complete (ic : bool) (r : regex) (pre : str) :
  forall (prev : option Z) (s1 : str) (prev' : option Z) (s' : str)
         (g' : option str),
    matches ic r (prev_after prev pre) s1 None prev' s' g' ->
    is_Some (search_from ic r prev (pre ++ s1)).
Proof.
  induction pre as [|x pre IH]; intros prev s1 prev' s' g' Hm.
  - assert (Hh : is_Some (match_here ic r prev s1)).
    { unfold match_here. eapply rmatch_complete; [exact Hm | eauto]. }
    destruct Hh as [m Hh]. cbn [app].
    destruct s1; cbn [search_from]; rewrite Hh; eauto.
  - cbn [app search_from].
    destruct (match_here ic r prev (x :: pre ++ s1)); [eauto|].
    eapply IH. exact Hm.
Qed.

(** Positions at which the pattern cannot match are skipped. *)
Lemma search_from_skip (ic : bool) (r : regex) (pre : str) :
  forall (prev : option Z) (s : str),
    (forall p1 p2 q, pre = p1 ++ p2 -> p2 <> [] ->
                     match_here ic r q (p2 ++ s) = None) ->
    search_from ic r prev (pre ++ s) = search_from ic r (prev_after prev pre) s.
Proof.
  induction pre as [|x pre IH]; intros prev s Hskip; [reflexivity|].
  cbn [app search_from].
  assert (H0 := Hskip [] (x :: pre) prev eq_refl ltac:(discriminate)).
  cbn [app] in H0. rewrite H0.
  rewrite prev_after_cons. apply IH.
  intros p1 p2 q -> Hp2. apply (Hskip (x :: p1) p2 q); [reflexivity | exact Hp2].
Qed.

Lemma search_from_here (ic : bool) (r : regex) (prev : option Z) (s : str)
    (m : rmatch_result) :
  match_here ic r prev s = Some m -> search_from ic r prev s = Some m.
Proof. intros H. destruct s; cbn [search_from]; now rewrite H. Qed.
End MatcherFacts.
(** *** The two size patterns *)

Lemma ascii_lower_ascii (x c : Z) :
  is_ascii c = true -> ascii_lower x = c -> is_ascii x = true.
Proof.
  unfold ascii_lower, is_ascii. intros Hc.
  destruct ((65 <=? x) && (x <=? 90)) eqn:E; lia.
Qed.

Lemma ascii_lower_fixed (x c : Z) : 128 <= c -> ascii_lower x = c -> x = c.
Proof. unfold ascii_lower. destruct ((65 <=? x) && (x <=? 90)) eqn:E; lia. Qed.

Lemma take_app_exact (ds s : str) : take (length (ds ++ s) - length s) (ds ++ s) = ds.
Proof.
  rewrite length_app. replace (length ds + length s - length s)%nat
    with (length ds) by lia.
  now rewrite take_app_length.
Qed.

Section SizePatterns.
Context {U : Unicode}.

Lemma is_digit_true (c : Z) : is_digit c = true <-> is_Some (digit_value c).
Proof. unfold is_digit. apply bool_decide_eq_true. Qed.

Lemma is_digit_not_space (c : Z) : is_digit c = true -> isspace c = false.
Proof. intros [v Hv]%is_digit_true. now apply digit_not_space in Hv. Qed.

Lemma is_digit_word (c : Z) : is_digit c = true -> is_word c = true.
Proof.
  intros [v Hv]%is_digit_true. unfold is_word.
  now rewrite (digit_alnum _ _ Hv).
Qed.

(** The first character of a unit is neither a digit nor a space; the last
    one is a word character. *)
Lemma unit_token_shape (u : str) :
  unit_token u ->
  exists x u' y,
    u = x :: u' /\ is_digit x = false /\ isspace x = false
    /\ prev_after None u = Some y /\ is_word y = true.
Proof.
  assert (Hm : forall x, ascii_lower x = 109 ->
                 is_digit x = false /\ isspace x = false).
  { intros x Hx.
    assert (x = 77 \/ x = 109) as [-> | ->]
      by (unfold ascii_lower in Hx;
          destruct ((65 <=? x) && (x <=? 90)) eqn:E; lia).
    all: unfold is_digit; rewrite digit_value_ascii, isspace_ascii by reflexivity.
    all: split; [apply bool_decide_eq_false; now intros [? ?] | reflexivity]. }
  assert (Hl : forall y, ascii_lower y = 108 -> is_word y = true).
  { intros y Hy.
    assert (y = 76 \/ y = 108) as [-> | ->]
      by (unfold ascii_lower in Hy;
          destruct ((65 <=? y) && (y <=? 90)) eqn:E; lia).
    all: unfold is_word; now rewrite isalnum_ascii by reflexivity. }
  assert (Hmem : is_digit MEM = false /\ isspace MEM = false).
  { destruct (hebrew_letter MEM (or_introl eq_refl)) as (Hd & Hs & _).
    split; [|exact Hs]. unfold is_digit. rewrite Hd.
    apply bool_decide_eq_false. now intros [? ?]. }
  assert (Hlamed : is_word LAMED = true).
  { destruct (hebrew_letter LAMED (or_intror eq_refl)) as (_ & _ & Ha).
    unfold is_word. now rewrite Ha. }
  intros [H | [-> | ->]].
  - destruct u as [|x [|y [|z u]]]; try discriminate.
    cbn in H. injection H as Hx Hy.
    exists x, [y], y. destruct (Hm x Hx). repeat split; auto.
  - exists MEM, [GERSHAYIM; LAMED], LAMED. destruct Hmem. repeat split; auto.
  - exists MEM, [LAMED], LAMED. destruct Hmem. repeat split; auto.
Qed.

Lemma lit_eq_ci (c x : Z) : lit_eq true c x = true <-> ascii_lower x = ascii_lower c.
Proof. unfold lit_eq. apply Z.eqb_eq. Qed.

Lemma UNIT_RE_sound (prev : option Z) (s : str) (g : option str)
    (prev' : option Z) (s' : str) (g' : option str) :
  matches true UNIT_RE prev s g prev' s' g' ->
  exists u, s = u ++ s' /\ unit_token u /\ prev' = prev_after prev u /\ g' = g.
Proof.
  unfold UNIT_RE. change (py "ml") with [109; 108].
  change (py "ML") with [77; 76]. change (py "Ml") with [77; 108].
  cbn [Lits matches].
  intros [H | [H | [H | [H | H]]]].
  - destruct H as (p1 & s1 & g1 & (x & -> & Hx & -> & ->) & (y & -> & Hy & -> & ->)).
    apply lit_eq_ci in Hx, Hy. exists [x; y]. repeat split; auto.
    left. cbn in *. now rewrite Hx, Hy.
  - destruct H as (p1 & s1 & g1 & (x & -> & Hx & -> & ->)
                   & (p2 & s2 & g2 & (y & -> & Hy & -> & ->)
                   & (z & -> & Hz & -> & ->))).
    apply lit_eq_ci in Hx, Hy, Hz.
    apply ascii_lower_fixed in Hx as ->, Hy as ->, Hz as ->;
      try (cbv; discriminate).
    exists [MEM; GERSHAYIM; LAMED]. repeat split; auto. right. now left.
  - destruct H as (p1 & s1 & g1 & (x & -> & Hx & -> & ->) & (y & -> & Hy & -> & ->)).
    apply lit_eq_ci in Hx, Hy.
    apply ascii_lower_fixed in Hx as ->, Hy as ->; try (cbv; discriminate).
    exists [MEM; LAMED]. repeat split; auto. right. now right.
  - destruct H as (p1 & s1 & g1 & (x & -> & Hx & -> & ->) & (y & -> & Hy & -> & ->)).
    apply lit_eq_ci in Hx, Hy. exists [x; y]. repeat split; auto.
    left. cbn in *. now rewrite Hx, Hy.
  - destruct H as (p1 & s1 & g1 & (x & -> & Hx & -> & ->) & (y & -> & Hy & -> & ->)).
    apply lit_eq_ci in Hx, Hy. exists [x; y]. repeat split; auto.
    left. cbn in *. now rewrite Hx, Hy.
Qed.

Lemma UNIT_RE_complete (prev : option Z) (u s' : str) (g : option str) :
  unit_token u ->
  matches true UNIT_RE prev (u ++ s') g (prev_after prev u) s' g.
Proof.
  unfold UNIT_RE. change (py "ml") with [109; 108].
  change (py "ML") with [77; 76]. change (py "Ml") with [77; 108].
  cbn [Lits matches].
  intros [H | [-> | ->]].
  - destruct u as [|x [|y [|z u]]]; try discriminate.
    cbn in H. injection H as Hx Hy. left.
    exists (Some x), (y :: s'), g. split.
    + exists x. repeat split; auto. now apply lit_eq_ci.
    + exists y. repeat split; auto. now apply lit_eq_ci.
  - right. left.
    exists (Some MEM), ([GERSHAYIM; LAMED] ++ s'), g. split; [exists MEM; auto|].
    exists (Some GERSHAYIM), ([LAMED] ++ s'), g. split; [exists GERSHAYIM; auto|].
    exists LAMED. auto.
  - right. right. left.
    exists (Some MEM), ([LAMED] ++ s'), g. split; [exists MEM; auto|].
    exists LAMED. auto.
Qed.

(** What [ML_RE] matches at a position is a unit number. *)
Lemma ML_RE_sound (prev : option Z) (s : str)
    (prev' : option Z) (s' : str) (g' : option str) :
  matches true ML_RE prev s None prev' s' g' ->
  exists ds ws u,
    s = ds ++ ws ++ u ++ s'
    /\ forallb is_digit ds = true /\ (2 <= length ds <= 5)%nat
    /\ forallb isspace ws = true /\ unit_token u
    /\ word_at (head s') = false
    /\ g' = Some ds.
Proof.
  unfold ML_RE, Star. cbn [Seq matches].
  intros (p1 & s1 & g1 & (g0 & (ds & -> & Hds & Hlo & Hhi & -> & ->) & ->)
          & (p2 & s2 & g2 & (ws & -> & Hws & _ & _ & -> & ->)
          & (p3 & s3 & g3 & Hu & (Hb & E1 & E2 & E3)))).
  subst p3 s3 g3.
  apply UNIT_RE_sound in Hu as (u & -> & Hu & -> & ->).
  exists ds, ws, u. rewrite take_app_exact. repeat split; auto.
  destruct (unit_token_shape u Hu) as (x & u' & y & -> & _ & _ & Hy & Hw).
  assert (Hp : prev_after (prev_after (prev_after prev ds) ws) (x :: u') = Some y).
  { rewrite prev_after_cons in Hy |- *. exact Hy. }
  rewrite Hp in Hb. cbn [word_at] in Hb. rewrite Hw in Hb.
  now destruct (word_at (head s')).
Qed.

Lemma ML_RE_complete (prev : option Z) (ds ws u s' : str) :
  forallb is_digit ds = true -> (2 <= length ds <= 5)%nat ->
  forallb isspace ws = true -> unit_token u ->
  word_at (head s') = false ->
  exists p', matches true ML_RE prev (ds ++ ws ++ u ++ s') None p' s' (Some ds).
Proof.
  intros Hds Hlen Hws Hu Hb.
  exists (prev_after (prev_after (prev_after prev ds) ws) u).
  unfold ML_RE, Star. cbn [Seq matches].
  exists (prev_after prev ds), (ws ++ u ++ s'), (Some ds). split.
  { exists None. split; [|now rewrite take_app_exact].
    exists ds. repeat split; auto; cbn; lia. }
  exists (prev_after (prev_after prev ds) ws), (u ++ s'), (Some ds). split.
  { exists ws. repeat split; auto; cbn; lia. }
  exists (prev_after (prev_after (prev_after prev ds) ws) u), s', (Some ds). split.
  { now apply UNIT_RE_complete. }
  repeat split; auto.
  destruct (unit_token_shape u Hu) as (x & u' & y & -> & _ & _ & Hy & Hw).
  rewrite prev_after_cons in Hy |- *. rewrite Hy. cbn [word_at].
  now rewrite Hw, Hb.
Qed.

Lemma search_ML_RE_sound (cleaned : str) (m : rmatch_result) :
  search true ML_RE cleaned = Some m -> unit_number cleaned (group1 m).
Proof.
  intros H. apply search_from_sound in H as (pre & s1 & p' & g' & -> & Hm & Hg).
  apply ML_RE_sound in Hm as (ds & ws & u & -> & Hds & Hlen & Hws & Hu & Hb & ->).
  cbn in Hg. rewrite Hg. exists pre, (ds ++ ws ++ u ++ after m).
  split; [reflexivity|]. exists ws, u, (after m). repeat split; auto; lia.
Qed.

Lemma search_ML_RE_complete (cleaned ds : str) :
  unit_number cleaned ds -> is_Some (search true ML_RE cleaned).
Proof.
  intros (pre & s & -> & ws & u & post & -> & Hds & Hlen & Hws & Hu & Hb).
  destruct (ML_RE_complete (prev_after None pre) ds ws u post) as [p' Hm];
    auto.
  eapply search_from_complete. exact Hm.
Qed.

Lemma search_ML_NUMBER_RE_sound (cleaned : str) (m : rmatch_result) :
  search false ML_NUMBER_RE cleaned = Some m -> bare_number cleaned (group1 m).
Proof.
  intros H. apply search_from_sound in H as (pre & s1 & p' & g' & -> & Hm & Hg).
  unfold ML_NUMBER_RE in Hm. cbn [matches] in Hm.
  destruct Hm as (g0 & (ds & -> & Hds & Hlo & Hhi & -> & ->) & ->).
  cbn in Hg. rewrite Hg, take_app_exact. exists pre, (after m).
  cbn in Hhi. repeat split; auto.
Qed.

Lemma search_ML_NUMBER_RE_complete (cleaned ds : str) :
  bare_number cleaned ds -> is_Some (search false ML_NUMBER_RE cleaned).
Proof.
  intros (pre & post & -> & Hds & Hlen).
  eapply (search_from_complete false ML_NUMBER_RE pre None (ds ++ post)
            (prev_after (prev_after None pre) ds) post (Some ds)).
  unfold ML_NUMBER_RE. cbn [matches]. exists None.
  split; [|now rewrite take_app_exact].
  exists ds. repeat split; auto; cbn; lia.
Qed.

(** [int] reads every run of digits. *)
Lemma int_digits_some (ds : str) (acc : Z) :
  forallb is_digit ds = true -> is_Some (int_digits acc ds).
Proof.
  revert acc. induction ds as [|c ds IH]; intros acc Hds; cbn; [eauto|].
  cbn in Hds. apply andb_prop in Hds as [Hc Hds].
  apply is_digit_true in Hc as [v ->]. now apply IH.
Qed.

Lemma py_int_some (ds : str) :
  forallb is_digit ds = true -> ds <> [] -> is_Some (py_int ds).
Proof. intros Hds Hne. destruct ds; [congruence|]. now apply int_digits_some. Qed.

Lemma unit_number_bare (cleaned ds : str) :
  unit_number cleaned ds -> bare_number cleaned ds.
Proof.
  intros (pre & s & -> & ws & u & post & -> & Hds & Hlen & _).
  exists pre, (ws ++ u ++ post). auto.
Qed.

Lemma bare_number_int (cleaned ds : str) :
  bare_number cleaned ds -> is_Some (py_int ds).
Proof.
  intros (pre & post & -> & Hds & Hlen). apply py_int_some; [exact Hds|].
  destruct ds; cbn in Hlen; [lia | discriminate].
Qed.
End SizePatterns.

Section SizeRule.
Context {U : Unicode}.

Lemma extract_ml_unfold (text : str) :
  text <> [] ->
  extract_ml text =
    match search true ML_RE (remove_char COMMA text)
            ≫= (fun m => py_int (group1 m)) with
    | Some n => Some n
    | None =>
        match search false ML_NUMBER_RE (remove_char COMMA text) with
        | Some m2 =>
            match py_int (group1 m2) with
            | Some ml => if (50 <=? ml) && (ml <=? 3000) then Some ml else None
            | None => None
            end
        | None => None
        end
    end.
Proof. destruct text; [congruence | reflexivity]. Qed.

Lemma remove_char_nil_of_nil (c : Z) (text : str) :
  text = [] -> remove_char c text = [].
Proof. now intros ->. Qed.

Lemma unit_number_nonempty (cleaned ds : str) :
  unit_number cleaned ds -> cleaned <> [].
Proof.
  intros (pre & s & -> & ws & u & post & -> & _ & Hlen & _) H.
  apply (f_equal (@length Z)) in H. rewrite !length_app in H. cbn in H. lia.
Qed.

Lemma bare_number_nonempty (cleaned ds : str) :
  bare_number cleaned ds -> cleaned <> [].
Proof.
  intros (pre & post & -> & _ & Hlen) H.
  apply (f_equal (@length Z)) in H. rewrite !length_app in H. cbn in H. lia.
Qed.

End SizeRule.

(** A unit lifts the range check; a bare number outside the range, or one
    that comes after a first run of digits outside it, gives nothing. *)
Example extract_ml_unit_small : extract_ml (py "10ml") = Some 10.
Proof. reflexivity. Qed.
Example extract_ml_unit_large : extract_ml (py "Magnum 15000 ML") = Some 15000.
Proof. reflexivity. Qed.
Example extract_ml_bare_in_range : extract_ml (py "Merlot 750") = Some 750.
Proof. reflexivity. Qed.
Example extract_ml_bare_large : extract_ml (py "Merlot 5000") = None.
Proof. reflexivity. Qed.
Example extract_ml_bare_small : extract_ml (py "13% alcohol") = None.
Proof. reflexivity. Qed.
Example extract_ml_first_run_only : extract_ml (py "12 bottles of 750") = None.
Proof. reflexivity. Qed.

(** *** Thousands separators *)

Lemma remove_char_app (c : Z) (a b : str) :
  remove_char c (a ++ b) = remove_char c a ++ remove_char c b.
Proof. apply List.filter_app. Qed.

Lemma remove_char_id (c : Z) (s : str) :
  forallb (fun x => negb (x =? c)) s = true -> remove_char c s = s.
Proof.
  induction s as [|x s IH]; [reflexivity|]. cbn.
  intros [Hx Hs]%andb_prop. rewrite Hx. f_equal. now apply IH.
Qed.

Lemma remove_char_single (c : Z) : remove_char c [c] = [].
Proof. cbn. now rewrite Z.eqb_refl. Qed.

Lemma forallb_impl (p q : Z -> bool) (s : str) :
  (forall x, p x = true -> q x = true) ->
  forallb p s = true -> forallb q s = true.
Proof.
  intros H. induction s as [|x s IH]; [reflexivity|]. cbn.
  intros [Hx Hs]%andb_prop. now rewrite (H _ Hx), IH.
Qed.

Lemma forallb_remove_char (p : Z -> bool) (c : Z) (s : str) :
  forallb p s = true -> forallb p (remove_char c s) = true.
Proof.
  induction s as [|x s IH]; [reflexivity|]. cbn.
  intros [Hx Hs]%andb_prop. destruct (negb (x =? c)); cbn; rewrite ?Hx; auto.
Qed.

Section Thousands.
Context {U : Unicode}.

Lemma comma_not_digit (x : Z) : is_digit x = true -> negb (x =? COMMA) = true.
Proof.
  intros Hx. destruct (x =? COMMA) eqn:E; [|reflexivity].
  apply Z.eqb_eq in E as ->. unfold is_digit in Hx.
  rewrite digit_value_ascii in Hx by reflexivity. cbn in Hx. discriminate.
Qed.

Lemma comma_not_space (x : Z) : isspace x = true -> negb (x =? COMMA) = true.
Proof.
  intros Hx. destruct (x =? COMMA) eqn:E; [|reflexivity].
  apply Z.eqb_eq in E as ->. now rewrite isspace_ascii in Hx.
Qed.

Lemma unit_token_no_comma (u : str) :
  unit_token u -> remove_char COMMA u = u.
Proof.
  intros [H | [-> | ->]]; try reflexivity.
  destruct u as [|x [|y [|z u]]]; try discriminate.
  cbn in H. injection H as Hx Hy.
  apply remove_char_id. cbn. unfold ascii_lower, COMMA in *.
  destruct ((65 <=? x) && (x <=? 90)) eqn:Ex,
           ((65 <=? y) && (y <=? 90)) eqn:Ey; lia.
Qed.

(** The unit alternatives, tried in order, read a unit and hand over to what
    follows it; when that fails, no other alternative does better. *)
Lemma UNIT_RE_here {A} (prev : option Z) (u s' : str) (g : option str)
    (k : option Z -> str -> option str -> option A) :
  unit_token u ->
  rmatch true UNIT_RE prev (u ++ s') g k = k (prev_after prev u) s' g.
Proof.
  unfold UNIT_RE. change (py "ml") with [109; 108].
  change (py "ML") with [77; 76]. change (py "Ml") with [77; 108].
  intros [H | [-> | ->]].
  - destruct u as [|x [|y [|z u]]]; try discriminate.
    cbn in H. injection H as Hx Hy.
    cbn [Lits rmatch app lit_eq prev_after fold_left]. rewrite Hx, Hy.
    change (ascii_lower 109) with 109. change (ascii_lower 108) with 108.
    change (ascii_lower 77) with 109. change (ascii_lower 76) with 108.
    change (ascii_lower MEM) with 1502.
    cbn [Z.eqb Pos.eqb]. now destruct (k (Some y) s' g).
  - cbn. now destruct (k (Some LAMED) s' g).
  - cbn. now destruct (k (Some LAMED) s' g).
Qed.

(** At a unit number the pattern matches, and its group is the number. *)
Lemma ML_RE_here (prev : option Z) (ds ws u s' : str) :
  forallb is_digit ds = true -> (2 <= length ds <= 5)%nat ->
  forallb isspace ws = true -> unit_token u ->
  word_at (head s') = false ->
  match_here true ML_RE prev (ds ++ ws ++ u ++ s')
    = Some {| group1 := ds; after := s' |}.
Proof.
  intros Hds Hlen Hws Hu Hb.
  destruct (unit_token_shape u Hu) as (x & u' & y & Eu & Hxd & Hxs & Hy & Hw).
  unfold match_here, ML_RE, Star. cbn [Seq rmatch].
  apply rep_greedy; try assumption; try (cbn; lia).
  { destruct ws as [|c ws]; [subst u; exact Hxd|]. cbn in Hws |- *.
    apply andb_prop in Hws as [Hc _].
    destruct (is_digit c) eqn:Ec; [|reflexivity].
    apply is_digit_not_space in Ec. congruence. }
  apply rep_greedy; try assumption; try (cbn; lia).
  { subst u. exact Hxs. }
  rewrite UNIT_RE_here by exact Hu.
  assert (Hp : prev_after (prev_after (prev_after prev ds) ws) u = Some y).
  { subst u. rewrite prev_after_cons in Hy |- *. exact Hy. }
  rewrite Hp. cbn [word_at]. rewrite Hw, Hb. cbn [xorb].
  now rewrite take_app_exact.
Qed.

(** Where the text has no digit the pattern does not match. *)
Lemma ML_RE_not_here (prev : option Z) (x : Z) (s : str) :
  is_digit x = false -> match_here true ML_RE prev (x :: s) = None.
Proof.
  intros Hx. unfold match_here, ML_RE. cbn [Seq rmatch].
  apply rep_none; [lia | exact Hx].
Qed.

(** The pattern matches only at a unit number. *)
Lemma ML_RE_here_sound (prev : option Z) (s : str) (m : rmatch_result) :
  match_here true ML_RE prev s = Some m -> unit_number_here s (group1 m).
Proof.
  unfold match_here. intros H.
  apply rmatch_sound in H as (p' & s' & g' & Hm & [= <-]).
  apply ML_RE_sound in Hm as (ds & ws & u & -> & Hds & Hlen & Hws & Hu & Hb & ->).
  cbn. exists ws, u, s'. repeat split; auto; lia.
Qed.

(** The search returns the first unit number of the text. *)
Lemma search_ML_RE_first (pre ds ws u s' : str) :
  (forall p1 p2 ds', pre = p1 ++ p2 -> p2 <> [] ->
                     ~ unit_number_here (p2 ++ ds ++ ws ++ u ++ s') ds') ->
  forallb is_digit ds = true -> (2 <= length ds <= 5)%nat ->
  forallb isspace ws = true -> unit_token u ->
  word_at (head s') = false ->
  search true ML_RE (pre ++ ds ++ ws ++ u ++ s')
    = Some {| group1 := ds; after := s' |}.
Proof.
  intros Hpre Hds Hlen Hws Hu Hb. unfold search.
  rewrite search_from_skip.
  - apply search_from_here. now apply ML_RE_here.
  - intros p1 p2 q Hp Hp2.
    destruct (match_here true ML_RE q (p2 ++ ds ++ ws ++ u ++ s')) as [m|] eqn:E;
      [|reflexivity].
    exfalso. apply ML_RE_here_sound in E. exact (Hpre p1 p2 _ Hp Hp2 E).
Qed.

(** A stretch without digits holds no unit number. *)
Lemma no_digit_no_unit_number (pre rest : str) :
  forallb (fun c => negb (is_digit c)) pre = true ->
  forall p1 p2 ds', pre = p1 ++ p2 -> p2 <> [] ->
                    ~ unit_number_here (p2 ++ rest) ds'.
Proof.
  intros Hpre p1 p2 ds' -> Hp2 (ws & u & post & E & Hds & Hlen & _).
  rewrite forallb_app in Hpre. apply andb_prop in Hpre as [_ Hpre].
  destruct p2 as [|x p2]; [congruence|].
  destruct ds' as [|d ds']; [cbn in Hlen; lia|].
  cbn in E, Hpre, Hds. injection E as -> _.
  apply andb_prop in Hpre as [Hx _]. apply andb_prop in Hds as [Hd _].
  rewrite Hd in Hx. discriminate.
Qed.

(** C1, as the code has it.  A number written with a comma between its
    digits and followed, after any whitespace, by a unit is read whole when
    it has two to five digits in all, the unit ends at a word boundary once
    the commas are gone, and no number with a unit starts earlier in the
    text: [extract_ml] returns the value of the digits on both sides of the
    comma together. *)
Theorem extract_ml_thousands_separator (pre a b ws u post : str) :
  (forall p1 p2 ds', remove_char COMMA pre = p1 ++ p2 -> p2 <> [] ->
     ~ unit_number_here
         (p2 ++ (a ++ b) ++ ws ++ u ++ remove_char COMMA post) ds') ->
  forallb is_digit a = true -> forallb is_digit b = true ->
  (2 <= length (a ++ b) <= 5)%nat ->
  forallb isspace ws = true ->
  unit_token u ->
  word_at (head (remove_char COMMA post)) = false ->
  exists n,
    py_int (a ++ b) = Some n
    /\ extract_ml (pre ++ a ++ [COMMA] ++ b ++ ws ++ u ++ post) = Some n.
Proof.
  intros Hpre Ha Hb Hlen Hws Hu Hpost.
  assert (Hds : forallb is_digit (a ++ b) = true).
  { now rewrite forallb_app, Ha, Hb. }
  destruct (py_int_some (a ++ b) Hds) as [n Hn].
  { intros E. rewrite E in Hlen. cbn in Hlen. lia. }
  exists n. split; [exact Hn|].
  rewrite extract_ml_unfold.
  2:{ intros E. apply (f_equal (@length Z)) in E.
      rewrite !length_app in E. cbn in E. lia. }
  assert (Hc : remove_char COMMA (pre ++ a ++ [COMMA] ++ b ++ ws ++ u ++ post)
               = remove_char COMMA pre ++ (a ++ b) ++ ws ++ u
                 ++ remove_char COMMA post).
  { rewrite !remove_char_app, remove_char_single.
    rewrite (remove_char_id COMMA a), (remove_char_id COMMA b),
      (remove_char_id COMMA ws), (unit_token_no_comma u Hu).
    - cbn [app]. now rewrite <- app_assoc.
    - eapply forallb_impl; [apply comma_not_space | exact Hws].
    - eapply forallb_impl; [apply comma_not_digit | exact Hb].
    - eapply forallb_impl; [apply comma_not_digit | exact Ha]. }
  rewrite Hc, search_ML_RE_first; try assumption.
  cbn. now rewrite Hn.
Qed.
End Thousands.

Lemma extract_ml_thousands_separator_witness :
  (forall p1 p2 ds', remove_char COMMA (py "Magnum, ") = p1 ++ p2 -> p2 <> [] ->
     ~ unit_number_here
         (p2 ++ (py "1" ++ py "500") ++ py " " ++ py "ml"
             ++ remove_char COMMA (py ", red")) ds')
  /\ forallb is_digit (py "1") = true /\ forallb is_digit (py "500") = true
  /\ (2 <= length (py "1" ++ py "500") <= 5)%nat
  /\ forallb isspace (py " ") = true
  /\ unit_token (py "ml")
  /\ word_at (head (remove_char COMMA (py ", red"))) = false
  /\ exists n,
       py_int (py "1" ++ py "500") = Some n
       /\ extract_ml (py "Magnum, " ++ py "1" ++ [COMMA] ++ py "500" ++ py " "
                      ++ py "ml" ++ py ", red") = Some n.
Proof.
  assert (H1 : forall p1 p2 ds',
             remove_char COMMA (py "Magnum, ") = p1 ++ p2 -> p2 <> [] ->
             ~ unit_number_here
                 (p2 ++ (py "1" ++ py "500") ++ py " " ++ py "ml"
                     ++ remove_char COMMA (py ", red")) ds')
    by (apply no_digit_no_unit_number; reflexivity).
  assert (H2 : forallb is_digit (py "1") = true) by reflexivity.
  assert (H3 : forallb is_digit (py "500") = true) by reflexivity.
  assert (H4 : (2 <= length (py "1" ++ py "500") <= 5)%nat) by (cbn; lia).
  assert (H5 : forallb isspace (py " ") = true) by reflexivity.
  assert (H6 : unit_token (py "ml")) by (left; reflexivity).
  assert (H7 : word_at (head (remove_char COMMA (py ", red"))) = false)
    by reflexivity.
  repeat (split; [assumption|]).
  exact (extract_ml_thousands_separator (py "Magnum, ") (py "1") (py "500")
           (py " ") (py "ml") (py ", red") H1 H2 H3 H4 H5 H6 H7).
Defined.

(** C1, as the specification words it, fails in two ways.  A number of more
    than five digits is not read whole: of [131,500 ml] the pattern reads
    the last five digits.  And a number with a unit that comes earlier wins:
    of [750 ml or 1,500 ml] the result is 750. *)
Lemma extract_ml_thousands_separator_counterexample :
  (forallb is_digit (py "131") = true /\ forallb is_digit (py "500") = true
   /\ forallb isspace (py " ") = true /\ unit_token (py "ml")
   /\ py_int (py "131" ++ py "500") = Some 131500
   /\ extract_ml (py "131" ++ [COMMA] ++ py "500" ++ py " " ++ py "ml")
      = Some 31500)
  /\ (py_int (py "1" ++ py "500") = Some 1500
      /\ extract_ml (py "750 ml or " ++ py "1" ++ [COMMA] ++ py "500" ++ py " "
                     ++ py "ml") = Some 750).
Proof.
  repeat split; try reflexivity. left. reflexivity.
Qed.

(** *** Prices *)

Lemma span_all (p : Z -> bool) (s : str) : forallb p s = true -> span p s = (s, []).
Proof.
  induction s as [|x s IH]; [reflexivity|]. cbn.
  intros [Hx Hs]%andb_prop. now rewrite Hx, IH.
Qed.

Lemma py_float_digits (ds : str) :
  forallb ascii_digit ds = true -> ds <> [] ->
  py_float ds = Some (fl (digits_value ds) 1).
Proof.
  intros Hds Hne. unfold py_float. rewrite span_all by exact Hds.
  now rewrite bool_decide_eq_false_2.
Qed.

Lemma remove_char_idem (c : Z) (s : str) :
  remove_char c (remove_char c s) = remove_char c s.
Proof.
  unfold remove_char. induction s as [|x s IH]; [reflexivity|]. simpl.
  destruct (negb (x =? c)) eqn:E; [|exact IH]. simpl. now rewrite E, IH.
Qed.

Lemma remove_char_head (c : Z) (s : str) :
  match remove_char c s with x :: _ => x <> c | [] => True end.
Proof.
  induction s as [|x s IH]; [exact I|]. cbn.
  destruct (negb (x =? c)) eqn:E; [|exact IH]. lia.
Qed.

Section Prices.
Context {U : Unicode}.

(** The price pattern at a run of digits that is not continued reads the
    run. *)
Lemma PRICE_RE_here (prev : option Z) (ds s' : str) :
  forallb ascii_digit ds = true -> ds <> [] ->
  ends_number s' = true ->
  match s' with c :: _ => c <> COMMA | [] => True end ->
  match_here false PRICE_RE prev (ds ++ s') = Some {| group1 := ds; after := s' |}.
Proof.
  intros Hds Hne Hend Hcomma. unfold match_here, PRICE_RE, Plus, Opt.
  cbn [Seq rmatch].
  apply rep_greedy; try assumption; try exact I.
  { destruct ds; [congruence | cbn; lia]. }
  { destruct s' as [|c s']; [exact I|]. cbn in Hend.
    apply andb_prop in Hend as [Hc _]. now apply negb_true_iff. }
  destruct s' as [|c rest].
  - cbn. now rewrite take_app_exact.
  - cbn in Hend. apply andb_prop in Hend as [Hc Hd].
    apply negb_true_iff in Hd.
    destruct ((c =? DOT) || (c =? COMMA)) eqn:Edc.
    + assert (c = DOT) as -> by (unfold DOT, COMMA in *; lia).
      rewrite Z.eqb_refl in Hd. cbn [andb] in Hd.
      rewrite rep_none; [|lia|].
      * now rewrite take_app_exact.
      * destruct rest; [exact I | exact Hd].
    + now rewrite take_app_exact.
Qed.

Lemma PRICE_RE_not_here (prev : option Z) (x : Z) (s : str) :
  ascii_digit x = false -> match_here false PRICE_RE prev (x :: s) = None.
Proof.
  intros Hx. unfold match_here, PRICE_RE, Plus. cbn [Seq rmatch].
  apply rep_none; [lia | exact Hx].
Qed.

Lemma search_PRICE_RE_first (pre ds s' : str) :
  forallb (fun c => negb (ascii_digit c)) pre = true ->
  forallb ascii_digit ds = true -> ds <> [] ->
  ends_number s' = true ->
  match s' with c :: _ => c <> COMMA | [] => True end ->
  search false PRICE_RE (pre ++ ds ++ s') = Some {| group1 := ds; after := s' |}.
Proof.
  intros Hpre Hds Hne Hend Hc. unfold search. rewrite search_from_skip.
  - apply search_from_here. now apply PRICE_RE_here.
  - intros p1 p2 q -> Hp2. destruct p2 as [|x p2]; [congruence|].
    rewrite forallb_app in Hpre. apply andb_prop in Hpre as [_ Hpre].
    cbn in Hpre. apply andb_prop in Hpre as [Hx _].
    apply PRICE_RE_not_here. now apply negb_true_iff.
Qed.

(** The commas are gone before the pattern sees the text. *)
Lemma parse_price_commas (text : str) :
  parse_price text = parse_price (remove_char COMMA text).
Proof.
  unfold parse_price. rewrite remove_char_idem.
  destruct text as [|c text]; [reflexivity|].
  destruct (remove_char COMMA (c :: text)) eqn:E; reflexivity.
Qed.

Lemma comma_not_ascii_digit (x : Z) : ascii_digit x = true -> negb (x =? COMMA) = true.
Proof. unfold ascii_digit, COMMA. lia. Qed.

(** The first number of a text, written with a comma between two runs of
    digits, is the integer the two runs spell together. *)
Lemma parse_price_joins (pre a b post : str) :
  forallb (fun c => negb (ascii_digit c)) pre = true ->
  forallb ascii_digit a = true -> a <> [] ->
  forallb ascii_digit b = true -> b <> [] ->
  ends_number (remove_char COMMA post) = true ->
  parse_price (pre ++ a ++ [COMMA] ++ b ++ post)
    = Some (fl (digits_value (a ++ b)) 1).
Proof.
  intros Hpre Ha Hane Hb Hbne Hend.
  assert (Hds : forallb ascii_digit (a ++ b) = true).
  { now rewrite forallb_app, Ha, Hb. }
  assert (Hne : a ++ b <> []) by (destruct a; [congruence | discriminate]).
  unfold parse_price.
  destruct (pre ++ a ++ [COMMA] ++ b ++ post) as [|c0 text0] eqn:Et.
  { apply (f_equal (@length Z)) in Et. rewrite !length_app in Et. cbn in Et. lia. }
  rewrite <- Et. clear Et c0 text0.
  rewrite !remove_char_app, remove_char_single.
  rewrite (remove_char_id COMMA a), (remove_char_id COMMA b).
  2:{ eapply forallb_impl; [apply comma_not_ascii_digit | exact Hb]. }
  2:{ eapply forallb_impl; [apply comma_not_ascii_digit | exact Ha]. }
  cbn [app]. rewrite (app_assoc a b).
  rewrite search_PRICE_RE_first; try assumption.
  - cbn [group1]. now apply py_float_digits.
  - now apply forallb_remove_char.
  - apply remove_char_head.
Qed.

End Prices.


(** The price meta ["89,90"] gives 8990, exactly. *)
Example parse_price_89_90 :
  parse_price (py "89,90") = Some (float_of_Z 8990)
  /\ float_is (float_of_Z 8990) 8990 1.
Proof. split; vm_compute; reflexivity. Qed.

(** *** Ratings *)

Lemma pow2_pos (n : Z) : 0 < 2 ^ n \/ (n < 0 /\ 2 ^ n = 0).
Proof.
  destruct (Z.le_gt_cases 0 n) as [H | H].
  - left. now apply Z.pow_pos_nonneg.
  - right. split; [exact H | now apply Z.pow_neg_r].
Qed.

Lemma mul_pow2_le (x y c : Z) : 0 <= c -> x <= y <-> x * 2 ^ c <= y * 2 ^ c.
Proof.
  intros Hc. assert (0 < 2 ^ c) by (apply Z.pow_pos_nonneg; lia). nia.
Qed.

(** [fle] compares the values. *)
Lemma fle_finite (m1 e1 m2 e2 : Z) :
  fle (Finite m1 e1) (Finite m2 e2) = true <->
  m1 * 2 ^ Z.max 0 e1 * 2 ^ Z.max 0 (- e2)
    <= m2 * 2 ^ Z.max 0 e2 * 2 ^ Z.max 0 (- e1).
Proof.
  unfold fle. rewrite Z.leb_le.
  set (E := Z.min e1 e2).
  set (N := Z.max 0 (- e1) + Z.max 0 (- e2) + E).
  assert (HN : 0 <= N) by (subst N E; lia).
  rewrite (mul_pow2_le _ _ N HN).
  rewrite <- !Z.mul_assoc, <- !Z.pow_add_r by (subst E; lia).
  replace (e1 - E + N) with (Z.max 0 e1 + Z.max 0 (- e2)) by (subst N E; lia).
  replace (e2 - E + N) with (Z.max 0 e2 + Z.max 0 (- e1)) by (subst N E; lia).
  reflexivity.
Qed.

(** [plausible] is the interval from 2.5 to 5. *)
Lemma plausible_range (v : float) :
  plausible v = true <->
  exists m e, v = Finite m e
    /\ 5 * 2 ^ Z.max 0 (- e) <= 2 * (m * 2 ^ Z.max 0 e)
    /\ m * 2 ^ Z.max 0 e <= 5 * 2 ^ Z.max 0 (- e).
Proof.
  unfold plausible.
  change (fl 5 2) with (Finite (5 * 2 ^ 50) (-51)).
  change (fl 5 1) with (Finite (5 * 2 ^ 50) (-50)).
  destruct v as [m e|s|].
  - rewrite andb_true_iff, !fle_finite.
    change (Z.max 0 (-51)) with 0. change (Z.max 0 (-50)) with 0.
    change (Z.max 0 (- -51)) with 51. change (Z.max 0 (- -50)) with 50.
    change (2 ^ 0) with 1. change (2 ^ 51) with (2 * 2 ^ 50).
    assert (0 < 2 ^ 50) by reflexivity.
    split.
    + intros [H1 H2]. exists m, e. split; [reflexivity|]. nia.
    + intros (m' & e' & [= <- <-] & H1 & H2). nia.
  - split; [|intros (m & e & ? & _); discriminate].
    destruct s; cbn; discriminate.
  - split; [discriminate | intros (m & e & ? & _); discriminate].
Qed.

Lemma round_half_even_near (p q : Z) :
  0 < q -> Z.abs (2 * p - 2 * round_half_even p q * q) <= q.
Proof.
  intros Hq. unfold round_half_even.
  pose proof (Z.div_mod p q ltac:(lia)) as Hdm.
  pose proof (Z.mod_pos_bound p q Hq) as Hm.
  destruct (2 * (p mod q) <? q) eqn:E1; [nia|].
  destruct (q <? 2 * (p mod q)) eqn:E2; [nia|].
  destruct (Z.even (p / q)); nia.
Qed.

(** [round(x, 2)] is the float of a number of hundredths that is at most
    half a hundredth away from [x]. *)
Lemma round2_hundredths (m e : Z) :
  exists k,
    round2 (Finite m e) = fl k 100
    /\ Z.abs (2 * (m * 100 * 2 ^ Z.max 0 e) - 2 * k * 2 ^ Z.max 0 (- e))
       <= 2 ^ Z.max 0 (- e).
Proof.
  exists (round_half_even (m * 100 * 2 ^ Z.max 0 e) (2 ^ Z.max 0 (- e))).
  split; [reflexivity|]. apply round_half_even_near.
  apply Z.pow_pos_nonneg; lia.
Qed.

Section Ratings.
Context {U : Unicode}.

Lemma rating_by_some (ic : bool) (r : regex) (html : str) (v : float) :
  rating_by ic r html = Some v <->
  exists m, search ic r html = Some m /\ py_float (group1 m) = Some v
            /\ plausible v = true.
Proof.
  unfold rating_by. split.
  - destruct (search ic r html) as [m|]; [|discriminate].
    destruct (py_float (group1 m)) as [val|] eqn:Ef; [|discriminate].
    destruct (plausible val) eqn:Ep; [|discriminate].
    intros [= <-]. exists m. auto.
  - intros (m & -> & -> & ->). reflexivity.
Qed.

Lemma extract_rating_some (html : str) (v : float) :
  _extract_vivino_rating_from_html html = Some v <->
  rating_by false RATING_JSON_RE html = Some v
  \/ (rating_by false RATING_JSON_RE html = None
      /\ rating_by true RATING_TEXT_RE html = Some v).
Proof.
  unfold _extract_vivino_rating_from_html.
  destruct (rating_by false RATING_JSON_RE html) as [v1|].
  - split; [now left | intros [H | [H _]]; [exact H | discriminate]].
  - split; [now right | intros [H | [_ H]]; [discriminate | exact H]].
Qed.

Lemma extract_rating_plausible (html : str) (v : float) :
  _extract_vivino_rating_from_html html = Some v -> plausible v = true.
Proof.
  intros [H | [_ H]]%extract_rating_some;
    apply rating_by_some in H as (m & _ & _ & Hp); exact Hp.
Qed.

Context {X : LinkExtraction}.

(** A match comes from a candidate page with a plausible rating, rounded. *)
Lemma scan_candidates_some (key : str) (urls : list str) (w : world)
    (res : match_result) :
  (scan_candidates key urls w).1 = Some res ->
  exists page v,
    _extract_vivino_rating_from_html page = Some v
    /\ vivino_url res ∈ urls /\ vivino_rating res = round2 v.
Proof.
  revert w. induction urls as [|vu urls IH]; intros w; [discriminate|].
  cbn [scan_candidates].
  destruct (fetch_text vu [] (6 # 10) (12 # 10) w) as [page w1].
  assert (Hrec : (scan_candidates key urls w1).1 = Some res ->
    exists page v, _extract_vivino_rating_from_html page = Some v
                   /\ vivino_url res ∈ vu :: urls /\ vivino_rating res = round2 v).
  { intros H. apply IH in H as (pg & v & H1 & H2 & H3).
    exists pg, v. repeat split; auto. now right. }
  destruct page as [[|c page]|]; try exact Hrec.
  destruct (_extract_vivino_rating_from_html (c :: page)) as [rating|] eqn:Er;
    [|exact Hrec].
  cbn. intros [= <-]. exists (c :: page), rating. repeat split; auto. left.
Qed.

Lemma lookup_miss_is_scan (wine_name : str) (w : world) :
  vivino_cache w !! strip wine_name = None ->
  exists urls w1,
    vivino_lookup wine_name w = scan_candidates (strip wine_name) urls w1.
Proof.
  intros Hmiss. unfold vivino_lookup. rewrite Hmiss.
  destruct (fetch_text BING_SEARCH_URL _ _ _ w) as [html w1].
  match goal with
  | |- context [match ?l with [] => _ | _ :: _ => _ end] => destruct l as [|u us]
  end.
  - destruct (_fetch_vivino_search_with_backoff _ w1) as [vhtml w2].
    destruct vhtml as [[|c v]|]; eauto.
  - eauto.
Qed.

End Ratings.

(** A page whose structured rating is 1.2 gives no rating, unless its text
    also holds a plausible one; 4.3 is taken in either form. *)
Example rating_1_2_discarded :
  _extract_vivino_rating_from_html
    ([QUOTE] ++ py "rating" ++ [QUOTE] ++ py ": {" ++ [QUOTE] ++ py "average"
     ++ [QUOTE] ++ py ": 1.2}") = None.
Proof. vm_compute. reflexivity. Qed.

Example rating_4_3_structured :
  _extract_vivino_rating_from_html
    ([QUOTE] ++ py "rating" ++ [QUOTE] ++ py ": {" ++ [QUOTE] ++ py "average"
     ++ [QUOTE] ++ py ": 4.3}") = Some (fl 43 10).
Proof. vm_compute. reflexivity. Qed.

Example rating_4_3_text :
  _extract_vivino_rating_from_html (py "Rated 4.3 out of 5") = Some (fl 43 10).
Proof. vm_compute. reflexivity. Qed.

Example rating_text_after_implausible :
  _extract_vivino_rating_from_html
    ([QUOTE] ++ py "rating" ++ [QUOTE] ++ py ": {" ++ [QUOTE] ++ py "average"
     ++ [QUOTE] ++ py ": 1.2} 4.5/5") = Some (fl 45 10).
Proof. vm_compute. reflexivity. Qed.

Example rating_rounded : round2 (fl 4256 1000) = fl 426 100.
Proof. vm_compute. reflexivity. Qed.

(** ** Further properties of the program *)

(** *** Prices: when there is one, and the decimal point *)

Lemma span_stop (p : Z -> bool) (a : str) (c : Z) (b : str) :
  forallb p a = true -> p c = false -> span p (a ++ c :: b) = (a, c :: b).
Proof.
  intros Ha Hc. induction a as [|x a IH]; cbn.
  - now rewrite Hc.
  - cbn in Ha. apply andb_prop in Ha as [Hx Ha]. now rewrite Hx, IH.
Qed.

Lemma py_float_decimal (a b : str) :
  forallb ascii_digit a = true -> forallb ascii_digit b = true ->
  a <> [] \/ b <> [] ->
  py_float (a ++ [DOT] ++ b)
    = Some (fl (digits_value (a ++ b)) (10 ^ Z.of_nat (length b))).
Proof.
  intros Ha Hb Hne. unfold py_float. cbn [app].
  rewrite span_stop by (assumption || reflexivity).
  change (DOT =? 46) with true. rewrite Hb. cbn [andb].
  destruct Hne as [Hne | Hne].
  - now rewrite (bool_decide_eq_false_2 (a = [])).
  - rewrite (bool_decide_eq_false_2 (b = [])) by assumption.
    now rewrite andb_false_r.
Qed.

Lemma remove_char_not_in (c : Z) (s : str) : ~ In c (remove_char c s).
Proof.
  unfold remove_char. intros [_ H]%filter_In. rewrite Z.eqb_refl in H. discriminate.
Qed.

Lemma existsb_remove_comma (s : str) :
  existsb ascii_digit (remove_char COMMA s) = existsb ascii_digit s.
Proof.
  unfold remove_char. induction s as [|x s IH]; [reflexivity|]. cbn.
  destruct (x =? COMMA) eqn:E; cbn.
  - rewrite IH. assert (x = COMMA) as -> by lia. reflexivity.
  - now rewrite IH.
Qed.

Section PriceTotal.
Context {U : Unicode}.

(** What the price pattern matches: digits, then maybe a separator and more
    digits. *)
Lemma PRICE_RE_sound (prev : option Z) (s : str)
    (prev' : option Z) (s' : str) (g' : option str) :
  matches false PRICE_RE prev s None prev' s' g' ->
  exists ds tail,
    s = (ds ++ tail) ++ s' /\ g' = Some (ds ++ tail)
    /\ forallb ascii_digit ds = true /\ ds <> []
    /\ (tail = []
        \/ exists c ds2, tail = c :: ds2 /\ (c = DOT \/ c = COMMA)
                         /\ forallb ascii_digit ds2 = true /\ ds2 <> []).
Proof.
  unfold PRICE_RE, Plus, Opt. cbn [Seq matches].
  intros (g1 & (p1 & s1 & g2 & (ds & -> & Hds & Hlo & _ & -> & ->) & Hopt) & ->).
  assert (Hne : ds <> []) by (destruct ds; [cbn in Hlo; lia | discriminate]).
  destruct Hopt as [Hopt | (-> & -> & ->)].
  - destruct Hopt as (p2 & s2 & g3 & (c & -> & Hc & -> & ->)
                      & (ds2 & -> & Hds2 & Hlo2 & _ & -> & ->)).
    exists ds, (c :: ds2). split; [now rewrite <- !app_assoc|]. split.
    { f_equal. replace (ds ++ c :: ds2 ++ s') with ((ds ++ c :: ds2) ++ s')
        by (now rewrite <- app_assoc).
      apply take_app_exact. }
    repeat split; auto. right. exists c, ds2. repeat split; auto.
    + unfold DOT, COMMA in *. lia.
    + destruct ds2; [cbn in Hlo2; lia | discriminate].
  - exists ds, []. rewrite app_nil_r. split; [reflexivity|]. split.
    { now rewrite take_app_exact. }
    repeat split; auto.
Qed.

Lemma PRICE_RE_complete (prev : option Z) (d : Z) (s' : str) :
  ascii_digit d = true ->
  matches false PRICE_RE prev (d :: s') None (Some d) s' (Some [d]).
Proof.
  intros Hd. unfold PRICE_RE, Plus, Opt. cbn [Seq matches].
  exists None. split; [|f_equal; symmetry; apply (take_app_exact [d] s')].
  exists (Some d), s', None. split.
  - exists [d]. cbn. rewrite Hd. repeat split; auto.
  - right. auto.
Qed.

(** X1.  [parse_price] gives a price exactly when the text holds an ASCII
    digit, and the price is then a number that is not negative: a sign
    before the digits is not read, and the conversion never fails. *)
Theorem parse_price_some_iff_digit (text : str) :
  match parse_price text with
  | Some f => existsb ascii_digit text = true /\ nonneg f = true
  | None => existsb ascii_digit text = false
  end.
Proof.
  destruct (existsb ascii_digit text) eqn:Hd.
  - assert (Hf : is_Some (parse_price text)).
    2:{ destruct Hf as [f Hf]. rewrite Hf. split; [reflexivity|].
        now apply parse_price_nonneg in Hf. }
    unfold parse_price. destruct text as [|c text]; [discriminate|].
    rewrite <- existsb_remove_comma in Hd.
    apply existsb_exists in Hd as (d & Hin & Hd).
    apply in_split in Hin as (pre & post & E).
    destruct (search_from_complete false PRICE_RE pre None (d :: post)
                (Some d) post (Some [d]) (PRICE_RE_complete _ d post Hd))
      as [m Hm].
    fold (search false PRICE_RE (pre ++ d :: post)) in Hm.
    rewrite E, Hm.
    apply search_from_sound in Hm as (pre2 & s1 & p' & g' & E2 & Hmm & Hg).
    apply PRICE_RE_sound in Hmm as (ds & tail & -> & -> & Hds & Hne & Htail).
    cbn in Hg. rewrite Hg.
    destruct Htail as [-> | (c0 & ds2 & -> & Hc & Hds2 & Hne2)].
    + rewrite app_nil_r, py_float_digits by assumption. eauto.
    + destruct Hc as [-> | ->].
      * change (ds ++ DOT :: ds2) with (ds ++ [DOT] ++ ds2).
        rewrite (py_float_decimal ds ds2) by auto. eauto.
      * exfalso. apply (remove_char_not_in COMMA (c :: text)).
        rewrite E, E2. rewrite !in_app_iff. right. left. right. now left.
  - assert (Hn : parse_price text = None); [|now rewrite Hn].
    unfold parse_price. destruct text as [|c text]; [reflexivity|].
    destruct (search false PRICE_RE _) as [m|] eqn:Es; [|reflexivity].
    exfalso. apply search_from_sound in Es as (pre & s1 & p' & g' & E & Hm & _).
    apply PRICE_RE_sound in Hm as (ds & tail & -> & _ & Hds & Hne & _).
    destruct ds as [|d ds]; [congruence|]. cbn in Hds.
    apply andb_prop in Hds as [Hd' _].
    rewrite <- existsb_remove_comma, E, !existsb_app in Hd. cbn in Hd.
    rewrite Hd' in Hd. cbn in Hd. now rewrite orb_true_r in Hd.
Qed.

(** The price pattern at digits, a dot and digits reads all three. *)
Lemma PRICE_RE_here_decimal (prev : option Z) (a b s' : str) :
  forallb ascii_digit a = true -> a <> [] ->
  forallb ascii_digit b = true -> b <> [] ->
  match s' with c :: _ => ascii_digit c = false | [] => True end ->
  match_here false PRICE_RE prev (a ++ [DOT] ++ b ++ s')
    = Some {| group1 := a ++ [DOT] ++ b; after := s' |}.
Proof.
  intros Ha Hane Hb Hbne Hend. unfold match_here, PRICE_RE, Plus, Opt.
  cbn [Seq rmatch].
  apply rep_greedy; try assumption; try exact I.
  { destruct a; [congruence | cbn; lia]. }
  { reflexivity. }
  cbn [app rmatch]. change ((DOT =? DOT) || (DOT =? COMMA)) with true. cbv iota.
  rewrite (rep_greedy ascii_digit b 1 None (Some DOT) s' _
             {| group1 := a ++ [DOT] ++ b; after := s' |});
    try assumption; try exact I.
  - reflexivity.
  - destruct b; [congruence | cbn; lia].
  - cbn beta. f_equal. f_equal.
    change (a ++ DOT :: b ++ s') with (a ++ [DOT] ++ b ++ s').
    rewrite !app_assoc, take_app_exact. now rewrite <- !app_assoc.
Qed.

(** X2.  A dot between digits is a decimal point, as long as the commas
    are gone: the first number of a text, written with digits, a dot and
    digits, is the decimal number they spell. *)
Theorem parse_price_dot_is_decimal_point (pre a b post : str) :
  forallb (fun c => negb (ascii_digit c)) pre = true ->
  forallb ascii_digit a = true -> a <> [] ->
  forallb ascii_digit b = true -> b <> [] ->
  match remove_char COMMA post with
  | c :: _ => ascii_digit c = false
  | [] => True
  end ->
  parse_price (pre ++ a ++ [DOT] ++ b ++ post)
    = Some (fl (digits_value (a ++ b)) (10 ^ Z.of_nat (length b))).
Proof.
  intros Hpre Ha Hane Hb Hbne Hend. unfold parse_price.
  destruct (pre ++ a ++ [DOT] ++ b ++ post) as [|c0 text0] eqn:Et.
  { apply (f_equal (@length Z)) in Et. rewrite !length_app in Et. cbn in Et. lia. }
  rewrite <- Et. clear Et c0 text0.
  rewrite !remove_char_app.
  rewrite (remove_char_id COMMA a), (remove_char_id COMMA b),
    (remove_char_id COMMA [DOT]).
  2:{ reflexivity. }
  2:{ eapply forallb_impl; [apply comma_not_ascii_digit | exact Hb]. }
  2:{ eapply forallb_impl; [apply comma_not_ascii_digit | exact Ha]. }
  unfold search. rewrite search_from_skip.
  - rewrite (search_from_here _ _ _ _ _
               (PRICE_RE_here_decimal _ a b _ Ha Hane Hb Hbne Hend)).
    cbn [group1]. apply py_float_decimal; auto.
  - intros p1 p2 q Hp Hp2. destruct p2 as [|x p2]; [congruence|].
    apply PRICE_RE_not_here.
    assert (Hall : forallb (fun c => negb (ascii_digit c)) (remove_char COMMA pre)
                   = true) by now apply forallb_remove_char.
    rewrite Hp, forallb_app in Hall. apply andb_prop in Hall as [_ Hall].
    cbn in Hall. apply andb_prop in Hall as [Hx _]. now apply negb_true_iff.
Qed.
End PriceTotal.

Lemma parse_price_dot_is_decimal_point_witness :
  forallb (fun c => negb (ascii_digit c)) [SHEQEL; 32] = true
  /\ forallb ascii_digit (py "1299") = true /\ py "1299" <> []
  /\ forallb ascii_digit (py "90") = true /\ py "90" <> []
  /\ match remove_char COMMA (py " incl. VAT") with
     | c :: _ => ascii_digit c = false
     | [] => True
     end
  /\ parse_price ([SHEQEL; 32] ++ py "1299" ++ [DOT] ++ py "90" ++ py " incl. VAT")
     = Some (fl (digits_value (py "1299" ++ py "90"))
                (10 ^ Z.of_nat (length (py "90")))).
Proof.
  assert (H1 : forallb (fun c => negb (ascii_digit c)) [SHEQEL; 32] = true)
    by reflexivity.
  assert (H2 : forallb ascii_digit (py "1299") = true) by reflexivity.
  assert (H3 : py "1299" <> []) by discriminate.
  assert (H4 : forallb ascii_digit (py "90") = true) by reflexivity.
  assert (H5 : py "90" <> []) by discriminate.
  assert (H6 : match remove_char COMMA (py " incl. VAT") with
               | c :: _ => ascii_digit c = false
               | [] => True
               end) by reflexivity.
  repeat (split; [assumption|]).
  exact (parse_price_dot_is_decimal_point [SHEQEL; 32] (py "1299") (py "90")
           (py " incl. VAT") H1 H2 H3 H4 H5 H6).
Defined.

(** *** Sizes: how large, and which number is read *)

Section SizeBounds.
Context {U : Unicode}.

Lemma int_digits_bound (s : str) :
  forall acc n, 0 <= acc -> int_digits acc s = Some n ->
                n < (acc + 1) * 10 ^ Z.of_nat (length s).
Proof.
  induction s as [|c s IH]; intros acc n Hacc; cbn [int_digits length].
  - intros [= <-]. cbn. lia.
  - destruct (digit_value c) as [v|] eqn:Ev; [|discriminate]. intros H.
    apply digit_value_range in Ev.
    apply IH in H; [|lia].
    rewrite Nat2Z.inj_succ, Z.pow_succ_r by lia.
    assert (0 < 10 ^ Z.of_nat (length s)) by (apply Z.pow_pos_nonneg; lia).
    nia.
Qed.

Lemma py_int_bound (ds : str) (n : Z) :
  (length ds <= 5)%nat -> py_int ds = Some n -> 0 <= n < 100000.
Proof.
  intros Hlen H. split; [now apply py_int_nonneg in H|].
  unfold py_int in H. destruct ds as [|c ds]; [discriminate|].
  apply int_digits_bound in H; [|lia].
  assert (10 ^ Z.of_nat (length (c :: ds)) <= 10 ^ 5)
    by (apply Z.pow_le_mono_r; lia).
  lia.
Qed.

(** X3.  A size has at most five digits: whatever the text, a result of
    [extract_ml] lies between 0 and 99999; and a result above 3000 or below
    50 is a number that carries a unit. *)
Theorem extract_ml_at_most_five_digits (text : str) :
  match extract_ml text with
  | Some n =>
      0 <= n < 100000
      /\ (50 <= n <= 3000
          \/ exists ds, unit_number (remove_char COMMA text) ds
                        /\ py_int ds = Some n)
  | None => True
  end.
Proof.
  destruct text as [|c text]; [exact I|].
  rewrite extract_ml_unfold by discriminate.
  destruct (search true ML_RE _) as [m|] eqn:Em; cbn [mbind option_bind].
  - apply search_ML_RE_sound in Em.
    destruct (py_int (group1 m)) as [n|] eqn:En.
    + split; [|right; eauto].
      destruct Em as (pre & s & _ & ws & u & post & _ & _ & Hlen & _).
      eapply py_int_bound; [|exact En]. lia.
    + destruct (search false ML_NUMBER_RE _) as [m2|]; [|exact I].
      destruct (py_int (group1 m2)) as [ml|]; [|exact I].
      destruct ((50 <=? ml) && (ml <=? 3000)) eqn:Er; [|exact I]. lia.
  - destruct (search false ML_NUMBER_RE _) as [m2|]; [|exact I].
    destruct (py_int (group1 m2)) as [ml|]; [|exact I].
    destruct ((50 <=? ml) && (ml <=? 3000)) eqn:Er; [|exact I]. lia.
Qed.

(** A repetition with an upper bound takes the bound's worth of characters
    when what follows then matches, whatever comes next. *)
Lemma rep_full {A} (p : Z -> bool) (ds : str) :
  forall (lo : nat) (prev : option Z) (s' : str)
         (k : option Z -> str -> option A) (a : A),
    forallb p ds = true -> (lo <= length ds)%nat ->
    k (prev_after prev ds) s' = Some a ->
    rep p lo (Some (length ds)) prev (ds ++ s') k = Some a.
Proof.
  induction ds as [|x ds IH]; intros lo prev s' k a Hds Hlo Hk.
  - cbn in Hlo. assert (lo = 0%nat) as -> by lia. cbn [app length].
    destruct s' as [|y s']; cbn [rep Nat.eqb]; [exact Hk|].
    rewrite bool_decide_eq_true_2 by reflexivity.
    now rewrite andb_false_r.
  - cbn in Hds. apply andb_prop in Hds as [Hx Hds].
    cbn [app rep length]. rewrite Hx.
    rewrite bool_decide_eq_false_2 by discriminate. cbn [negb andb fmap option_fmap option_map Nat.pred].
    rewrite (IH (Nat.pred lo) (Some x) s' k a); try assumption.
    + reflexivity.
    + cbn in Hlo. lia.
Qed.

Lemma ML_NUMBER_RE_here (prev : option Z) (ds post : str) :
  forallb is_digit ds = true -> (2 <= length ds <= 5)%nat ->
  (length ds = 5%nat
   \/ match post with c :: _ => is_digit c = false | [] => True end) ->
  match_here false ML_NUMBER_RE prev (ds ++ post)
    = Some {| group1 := ds; after := post |}.
Proof.
  intros Hds Hlen Hend. unfold match_here, ML_NUMBER_RE. cbn [rmatch].
  destruct Hend as [H5 | Hend].
  - rewrite <- H5. apply rep_full; [assumption | lia |].
    now rewrite take_app_exact.
  - apply rep_greedy; try assumption; try (cbn; lia).
    now rewrite take_app_exact.
Qed.

Lemma ML_NUMBER_RE_not_here (prev : option Z) (x : Z) (s : str) :
  is_digit x = false -> match_here false ML_NUMBER_RE prev (x :: s) = None.
Proof.
  intros Hx. unfold match_here, ML_NUMBER_RE. cbn [rmatch].
  apply rep_none; [lia | exact Hx].
Qed.

(** X4.  Without a unit, the first run of digits decides alone.  When the
    text, its commas removed, holds no number with a unit, and its first
    digits are a run [ds] of two to five (the first five of a longer run),
    the result is the value of [ds] when it lies between 50 and 3000 and
    nothing otherwise: no later number is tried. *)
Theorem extract_ml_first_run_decides (text pre ds post : str) (n : Z) :
  remove_char COMMA text = pre ++ ds ++ post ->
  forallb (fun c => negb (is_digit c)) pre = true ->
  forallb is_digit ds = true -> (2 <= length ds <= 5)%nat ->
  (length ds = 5%nat
   \/ match post with c :: _ => is_digit c = false | [] => True end) ->
  (forall ds', ~ unit_number (remove_char COMMA text) ds') ->
  py_int ds = Some n ->
  extract_ml text = if (50 <=? n) && (n <=? 3000) then Some n else None.
Proof.
  intros Et Hpre Hds Hlen Hend Hno Hn.
  rewrite extract_ml_unfold.
  2:{ intros ->. cbn in Et. apply (f_equal (@length Z)) in Et.
      rewrite !length_app in Et. cbn in Et. lia. }
  destruct (search true ML_RE _) as [m|] eqn:Em.
  { exfalso. apply search_ML_RE_sound in Em. exact (Hno _ Em). }
  cbn [mbind option_bind]. rewrite Et. unfold search.
  rewrite search_from_skip.
  - rewrite (search_from_here _ _ _ _ _ (ML_NUMBER_RE_here _ ds post Hds Hlen Hend)).
    cbn [group1]. now rewrite Hn.
  - intros p1 p2 q -> Hp2. destruct p2 as [|x p2]; [congruence|].
    rewrite forallb_app in Hpre. apply andb_prop in Hpre as [_ Hpre].
    cbn in Hpre. apply andb_prop in Hpre as [Hx _].
    apply ML_NUMBER_RE_not_here. now apply negb_true_iff.
Qed.
End SizeBounds.

Lemma extract_ml_first_run_decides_witness :
  remove_char COMMA (py "Merlot 2019, 13%") = py "Merlot " ++ py "2019" ++ py " 13%"
  /\ forallb (fun c => negb (is_digit c)) (py "Merlot ") = true
  /\ forallb is_digit (py "2019") = true /\ (2 <= length (py "2019") <= 5)%nat
  /\ (length (py "2019") = 5%nat
      \/ match py " 13%" with c :: _ => is_digit c = false | [] => True end)
  /\ (forall ds', ~ unit_number (remove_char COMMA (py "Merlot 2019, 13%")) ds')
  /\ py_int (py "2019") = Some 2019
  /\ extract_ml (py "Merlot 2019, 13%")
     = if (50 <=? 2019) && (2019 <=? 3000) then Some 2019 else None.
Proof.
  assert (H1 : remove_char COMMA (py "Merlot 2019, 13%")
               = py "Merlot " ++ py "2019" ++ py " 13%") by reflexivity.
  assert (H2 : forallb (fun c => negb (is_digit c)) (py "Merlot ") = true)
    by reflexivity.
  assert (H3 : forallb is_digit (py "2019") = true) by reflexivity.
  assert (H4 : (2 <= length (py "2019") <= 5)%nat) by (cbn; lia).
  assert (H5 : length (py "2019") = 5%nat
               \/ match py " 13%" with c :: _ => is_digit c = false | [] => True end)
    by (right; reflexivity).
  assert (H6 : forall ds',
             ~ unit_number (remove_char COMMA (py "Merlot 2019, 13%")) ds').
  { intros ds' Hu.
    destruct (search_ML_RE_complete _ _ Hu) as [m Hm].
    vm_compute in Hm. discriminate. }
  assert (H7 : py_int (py "2019") = Some 2019) by reflexivity.
  repeat (split; [assumption|]).
  exact (extract_ml_first_run_decides (py "Merlot 2019, 13%") (py "Merlot ")
           (py "2019") (py " 13%") 2019 H1 H2 H3 H4 H5 H6 H7).
Defined.

(** *** Names *)

Section Tidy.
Context {U : Unicode}.

Lemma rstrip_last (s : str) :
  match last (rstrip s) with Some x => isspace x = false | None => True end.
Proof.
  induction s as [|x s IH]; [exact I|]. cbn [rstrip].
  destruct (isspace x && bool_decide (rstrip s = [])) eqn:E; [exact I|].
  destruct (rstrip s) as [|y r] eqn:Er.
  - cbn. rewrite bool_decide_eq_true_2 in E by reflexivity.
    now rewrite andb_true_r in E.
  - rewrite last_cons. destruct (last (y :: r)) eqn:El; [exact IH|].
    apply last_None in El. discriminate.
Qed.

Context {L : Library}.

(** X5.  A normalised name is tidy: it neither starts nor ends with
    whitespace, and the only whitespace in it is a single space between two
    other characters; trimming it or collapsing its whitespace again changes
    nothing. *)
Theorem normalize_name_is_tidy (name : str) :
  match head (normalize_name name) with
  | Some x => isspace x = false
  | None => True
  end
  /\ match last (normalize_name name) with
     | Some x => isspace x = false
     | None => True
     end
  /\ spaced false (normalize_name name) = true
  /\ strip (normalize_name name) = normalize_name name
  /\ sub_spaces false (normalize_name name) = normalize_name name.
Proof.
  assert (Hs : spaced false (normalize_name name) = true).
  { unfold normalize_name. eapply strip_spaced, sub_spaces_spaced. }
  repeat split.
  - unfold normalize_name, strip.
    pose proof (rstrip_head _ (lstrip_head (sub_spaces false (unescape name)))) as H.
    destruct (rstrip _); [exact I | exact H].
  - unfold normalize_name, strip. apply rstrip_last.
  - exact Hs.
  - apply strip_normalize_name.
  - now apply sub_spaces_id.
Qed.
End Tidy.

(** *** Structured data: what is read, what is kept, what raises *)

Lemma for_each_app {A S} (body : S -> A -> result S) (l1 l2 : list A) :
  forall st, for_each body st (l1 ++ l2)
             = (st' ← for_each body st l1; for_each body st' l2).
Proof.
  induction l1 as [|a l1 IH]; intros st; cbn; [reflexivity|].
  destruct (body st a) as [st1|e]; cbn; [apply IH | reflexivity].
Qed.

Lemma for_each_skip {A S} (body : S -> A -> result S) (keep : A -> bool)
    (l : list A) :
  (forall st a, keep a = false -> body st a = Ret st) ->
  forall st, for_each body st l = for_each body st (List.filter keep l).
Proof.
  intros Hskip. induction l as [|a l IH]; intros st; cbn; [reflexivity|].
  destruct (keep a) eqn:E; cbn.
  - destruct (body st a) as [st1|e]; cbn; [apply IH | reflexivity].
  - rewrite (Hskip st a E). cbn. apply IH.
Qed.

Section StructuredData.
Context {U : Unicode} {L : Library}.

Lemma json_ld_object_untyped (data : gmap string value) (obj : json) :
  typed_product obj = false -> json_ld_object data obj = Ret data.
Proof.
  unfold typed_product, json_ld_object.
  destruct obj as [| | | | | |o]; try reflexivity. now intros ->.
Qed.

Lemma from_json_ld_products (s : soup) :
  _from_json_ld s
    = for_each json_ld_object ∅ (List.filter typed_product (ld_objects s)).
Proof.
  rewrite <- (for_each_skip json_ld_object typed_product)
    by (intros; now apply json_ld_object_untyped).
  unfold _from_json_ld, ld_objects.
  generalize (∅ : gmap string value).
  induction (ld_json s) as [|script l IH]; intros st; [reflexivity|].
  cbn [for_each flat_map]. rewrite for_each_app.
  destruct script as [payload|]; cbn [from_option].
  - fold (ld_candidates payload).
    destruct (for_each json_ld_object st (ld_candidates payload)) as [st1|e];
      cbn; [apply IH | reflexivity].
  - cbn. apply IH.
Qed.

(** X6.  [_from_json_ld] reads the objects typed as a product and nothing
    else: a script that does not parse, a payload that is no object, an
    object of another type are passed over, and the result is that of the
    inner loop run over the products of all scripts in page order. *)
Theorem from_json_ld_reads_products_only (s : soup) :
  _from_json_ld s
    = for_each json_ld_object ∅ (List.filter typed_product (ld_objects s)).
Proof. apply from_json_ld_products. Qed.

Lemma ld_name_keeps (data data' : gmap string value) (o : list (str * json))
    (k : string) :
  ld_name data o = Ret data' -> truthy (dict_get data k) = true ->
  dict_get data' k = dict_get data k.
Proof.
  unfold ld_name. destruct (obj_lookup o (py "name")) as [nm|]; [|now intros [= <-]].
  destruct (truthy (dict_get data "name")) eqn:En; cbn [negb];
    [now intros [= <-]|].
  destruct (normalize_name_json nm) as [n|]; [|discriminate]. cbn.
  intros [= <-] Hk. unfold dict_get.
  rewrite lookup_insert_ne; [reflexivity|]. intros <-. congruence.
Qed.

Lemma ld_price_keeps (data data' : gmap string value) (o : list (str * json))
    (k : string) :
  ld_price data o = Ret data' -> truthy (dict_get data k) = true ->
  dict_get data' k = dict_get data k.
Proof.
  unfold ld_price. destruct (obj_get o (py "offers")); try (now intros [= <-]).
  destruct (offer_price fields) as [price|]; [|discriminate]. cbn.
  destruct (truthy (dict_get data "price_value")) eqn:Ep.
  - rewrite andb_false_r. now intros [= <-].
  - destruct (json_truthy price); cbn [andb negb]; [|now intros [= <-]].
    intros [= <-] Hk. unfold dict_get.
    rewrite lookup_insert_ne; [reflexivity|]. intros <-. congruence.
Qed.

Lemma ld_size_keeps (data : gmap string value) (o : list (str * json))
    (k : string) :
  truthy (dict_get data k) = true ->
  dict_get (ld_size data o) k = dict_get data k.
Proof.
  unfold ld_size. cbv zeta. destruct (extract_ml _) as [ml|]; [|reflexivity].
  destruct (truthy (dict_get data "bottle_size_ml")) eqn:Es.
  - now rewrite andb_false_r.
  - destruct (negb (ml =? 0)); cbn [andb negb]; [|reflexivity].
    intros Hk. unfold dict_get.
    rewrite lookup_insert_ne; [reflexivity|]. intros <-. congruence.
Qed.

Lemma json_ld_object_keeps (data data' : gmap string value) (obj : json)
    (k : string) :
  json_ld_object data obj = Ret data' -> truthy (dict_get data k) = true ->
  dict_get data' k = dict_get data k.
Proof.
  unfold json_ld_object.
  destruct obj as [| | | | | |o]; try (now intros [= <-]).
  destruct (is_product_type _); [|now intros [= <-]].
  destruct (ld_name data o) as [d1|] eqn:E1; [|discriminate]. cbn.
  destruct (ld_price d1 o) as [d2|] eqn:E2; [|discriminate]. cbn.
  intros [= <-] Hk.
  pose proof (ld_name_keeps _ _ _ k E1 Hk) as H1.
  assert (Hk1 : truthy (dict_get d1 k) = true) by now rewrite H1.
  pose proof (ld_price_keeps _ _ _ k E2 Hk1) as H2.
  assert (Hk2 : truthy (dict_get d2 k) = true) by now rewrite H2.
  rewrite ld_size_keeps by exact Hk2. congruence.
Qed.

(** X7.  Among the products of a page the first one wins, field by field:
    once a field holds a true value, no later object of the structured data
    changes it. *)
Theorem json_ld_first_product_wins
    (objs : list json) (data data' : gmap string value) (k : string) :
  for_each json_ld_object data objs = Ret data' ->
  truthy (dict_get data k) = true ->
  dict_get data' k = dict_get data k.
Proof.
  revert data. induction objs as [|obj objs IH]; intros data; cbn.
  - now intros [= <-].
  - destruct (json_ld_object data obj) as [d1|] eqn:E; [|discriminate]. cbn.
    intros H Hk. pose proof (json_ld_object_keeps _ _ _ k E Hk) as H1.
    rewrite (IH d1 H); [exact H1 | now rewrite H1].
Qed.

(** A product whose name is a true value and no string raises, as long as
    no name has been found before it. *)
Lemma json_ld_object_bad_name (data : gmap string value)
    (o : list (str * json)) (nm : json) :
  is_product_type (obj_get o (py "@type")) = true ->
  obj_lookup o (py "name") = Some nm ->
  json_truthy nm = true -> (forall x, nm <> JStr x) ->
  truthy (dict_get data "name") = false ->
  json_ld_object data (JObj o) = Raise TypeError.
Proof.
  intros Ht Hn Htrue Hstr Hd. unfold json_ld_object, ld_name.
  rewrite Ht, Hn, Hd. cbn [negb]. unfold normalize_name_json. rewrite Htrue.
  destruct nm; try reflexivity. now destruct (Hstr s).
Qed.

Lemma page_raises (parser : str -> soup) (html address : str) (e : exn) :
  BeautifulSoup = Some parser -> html <> [] ->
  _from_json_ld (parser html) = Raise e ->
  parse_pdp html address = Raise e.
Proof.
  intros HB Hh Hj. unfold parse_pdp. rewrite HB.
  rewrite bool_decide_eq_false_2 by exact Hh.
  unfold page_looks_like_product.
  destruct (has_product_marker (parser html)).
  - change (build_record (parser html) html address = Raise e).
    unfold build_record. rewrite merge_all_eq, Hj. reflexivity.
  - now rewrite Hj.
Qed.

(** X8.  [parse_pdp] raises exactly when the structured-data strategy
    does: on a page that was fetched and parsed, an exception of
    [_from_json_ld] is not caught, with or without a product marker, and
    nothing else in [parse_pdp] raises. *)
Theorem parse_pdp_raises_iff (html address : str) (e : exn) :
  parse_pdp html address = Raise e
  <-> html <> []
      /\ exists parser, BeautifulSoup = Some parser
                        /\ _from_json_ld (parser html) = Raise e.
Proof.
  split.
  - intros H. split.
    + intros ->. unfold parse_pdp in H. cbn in H. discriminate.
    + now apply parse_pdp_raise in H.
  - intros (Hh & parser & HB & Hj). now apply (page_raises parser).
Qed.

(** X9.  A product whose name is a number, a list or an object, and not a
    string, stops the page: when the first object of the structured data is
    such a product, [parse_pdp] raises [TypeError], whatever else the page
    holds. *)
Theorem parse_pdp_name_must_be_text
    (parser : str -> soup) (html address : str)
    (o : list (str * json)) (nm : json) (rest : list json) :
  BeautifulSoup = Some parser -> html <> [] ->
  ld_objects (parser html) = JObj o :: rest ->
  is_product_type (obj_get o (py "@type")) = true ->
  obj_lookup o (py "name") = Some nm ->
  json_truthy nm = true -> (forall x, nm <> JStr x) ->
  parse_pdp html address = Raise TypeError.
Proof.
  intros HB Hh Hobjs Ht Hn Htrue Hstr.
  apply (page_raises parser); try assumption.
  rewrite from_json_ld_products, Hobjs. cbn [List.filter typed_product].
  rewrite Ht. cbn [for_each].
  rewrite (json_ld_object_bad_name ∅ o nm); auto.
Qed.

(** X10.  The price of the meta tags is the first price that is not zero
    among [itemprop=price], [product:price:amount] and [twitter:data1], in
    this order: a tag without a readable price, or with the price 0, leaves
    the field to the next tag. *)
Theorem meta_price_priority (s : soup) :
  let prices := [meta_price (itemprop_price s);
                 meta_price (product_price_amount s);
                 meta_price (twitter_data1 s)] in
  let found := dict_get (_from_meta_tags s) "price_value" in
  if truthy (first_true prices) then found = first_true prices
  else truthy found = false.
Proof.
  cbv zeta. unfold _from_meta_tags. cbv zeta.
  match goal with
  | |- context [fold_left ?f ?l ?d] =>
      set (step := f); set (d0 := d); set (d3 := fold_left step l d0)
  end.
  assert (H0 : dict_get d0 "price_value" = VNone).
  { subst d0. destruct (og_title s); reflexivity. }
  assert (Hstep : forall data tag,
            dict_get (step data tag) "price_value"
            = if truthy (dict_get data "price_value")
              then dict_get data "price_value"
              else match tag with
                   | Some _ => meta_price tag
                   | None => dict_get data "price_value"
                   end).
  { intros data tag. subst step. cbv beta.
    destruct tag as [t|]; cbv iota beta;
      [|now destruct (truthy (dict_get data "price_value"))].
    destruct (truthy (dict_get data "price_value")); cbn [negb]; [reflexivity|].
    unfold dict_get. now rewrite lookup_insert_eq. }
  assert (H3 : forall d : gmap string value,
            dict_get (match og_description s with
                      | Some md =>
                          if negb (truthy (dict_get d "bottle_size_ml"))
                          then <["bottle_size_ml" :=
                                   opt_int (extract_ml (content_of md))]> d
                          else d
                      | None => d
                      end) "price_value" = dict_get d "price_value").
  { intros d. destruct (og_description s); [|reflexivity].
    destruct (negb (truthy (dict_get d "bottle_size_ml"))); [|reflexivity].
    unfold dict_get. now rewrite lookup_insert_ne. }
  rewrite H3. subst d3. cbn [fold_left]. rewrite !Hstep, H0.
  cbn [truthy first_true].
  destruct (itemprop_price s) as [t1|], (product_price_amount s) as [t2|],
    (twitter_data1 s) as [t3|].
  all: change (meta_price None) with VNone; cbn [truthy].
  all: repeat match goal with
         | |- context [meta_price (Some ?t)] =>
             let v := fresh "v" in
             let E := fresh "E" in
             generalize (meta_price (Some t)); intros v;
             destruct (truthy v) eqn:E
         end.
  all: cbn [truthy]; rewrite ?E, ?E0, ?E1; cbn [truthy];
    try reflexivity; try assumption.
Qed.
End StructuredData.

Lemma json_ld_first_product_wins_witness :
  for_each (@json_ld_object ascii_unicode (page_library None))
    (ld_chunk (py "Yarden Merlot")) [ld_product (py "Gamla Merlot")]
    = Ret (ld_chunk (py "Yarden Merlot"))
  /\ truthy (dict_get (ld_chunk (py "Yarden Merlot")) "name") = true
  /\ dict_get (ld_chunk (py "Yarden Merlot")) "name"
     = dict_get (ld_chunk (py "Yarden Merlot")) "name".
Proof.
  assert (H1 : for_each (@json_ld_object ascii_unicode (page_library None))
                 (ld_chunk (py "Yarden Merlot")) [ld_product (py "Gamla Merlot")]
               = Ret (ld_chunk (py "Yarden Merlot"))) by reflexivity.
  assert (H2 : truthy (dict_get (ld_chunk (py "Yarden Merlot")) "name") = true)
    by reflexivity.
  repeat (split; [assumption|]).
  exact (@json_ld_first_product_wins ascii_unicode (page_library None)
           [ld_product (py "Gamla Merlot")] _ _ "name" H1 H2).
Defined.

Lemma parse_pdp_name_must_be_text_witness :
  @BeautifulSoup (page_library (Some (fun _ => ld_numbered)))
    = Some (fun _ => ld_numbered)
  /\ some_html <> []
  /\ ld_objects ld_numbered
     = [JObj [(py "@type", JStr (py "Product")); (py "name", JInt 1848)]]
  /\ is_product_type
       (obj_get [(py "@type", JStr (py "Product")); (py "name", JInt 1848)]
          (py "@type")) = true
  /\ obj_lookup [(py "@type", JStr (py "Product")); (py "name", JInt 1848)]
       (py "name") = Some (JInt 1848)
  /\ json_truthy (JInt 1848) = true
  /\ (forall x, JInt 1848 <> JStr x)
  /\ @parse_pdp ascii_unicode (page_library (Some (fun _ => ld_numbered)))
       some_html some_url = Raise TypeError.
Proof.
  assert (H1 : @BeautifulSoup (page_library (Some (fun _ => ld_numbered)))
               = Some (fun _ => ld_numbered)) by reflexivity.
  assert (H2 : some_html <> []) by discriminate.
  assert (H3 : ld_objects ld_numbered
               = [JObj [(py "@type", JStr (py "Product")); (py "name", JInt 1848)]])
    by reflexivity.
  assert (H4 : is_product_type
                 (obj_get [(py "@type", JStr (py "Product")); (py "name", JInt 1848)]
                    (py "@type")) = true) by reflexivity.
  assert (H5 : obj_lookup [(py "@type", JStr (py "Product")); (py "name", JInt 1848)]
                 (py "name") = Some (JInt 1848)) by reflexivity.
  assert (H6 : json_truthy (JInt 1848) = true) by reflexivity.
  assert (H7 : forall x, JInt 1848 <> JStr x) by discriminate.
  repeat (split; [assumption|]).
  exact (@parse_pdp_name_must_be_text ascii_unicode
           (page_library (Some (fun _ => ld_numbered)))
           (fun _ => ld_numbered) some_html some_url _ _ [] H1 H2 H3 H4 H5 H6 H7).
Defined.

(** *** Requests: pacing, retries and how many *)

Lemma requests_app (a b : list event) :
  requests (a ++ b) = (requests a + requests b)%nat.
Proof. unfold requests. now rewrite List.filter_app, length_app. Qed.

(** X11.  [fetch_text] sleeps, then makes one request: the sleep lies
    between the two delays, the request is the only one, and the text of the
    answer is returned when its status is 200 and nothing otherwise. *)
Theorem fetch_text_one_paced_request
    (address : str) (ps : list (str * str)) (lo hi : Q) (w : world) :
  (lo < hi)%Q -> (0 <= draws w 0%nat)%Q -> (draws w 0%nat < 1)%Q ->
  exists d,
    (lo <= d)%Q /\ (d < hi)%Q
    /\ trace (fetch_text address ps lo hi w).2
       = [Get address ps; Sleep d] ++ trace w
    /\ (fetch_text address ps lo hi w).1 = body_of (answers w 0%nat)
    /\ (forall n, answers (fetch_text address ps lo hi w).2 n = answers w (S n))
    /\ vivino_cache (fetch_text address ps lo hi w).2 = vivino_cache w.
Proof.
  intros Hlt H0 H1.
  exists (lo + (hi - lo) * draws w 0%nat)%Q.
  split; [nra|]. split; [nra|].
  unfold fetch_text, body_of. cbn.
  destruct (answers w 0%nat) as [code body|]; [destruct (code =? 200)|];
    repeat split; reflexivity.
Qed.

Lemma fetch_text_trace (address : str) (ps : list (str * str)) (lo hi : Q)
    (w : world) :
  fetch_text address ps lo hi w
  = (body_of (answers w 0%nat),
     {| vivino_cache := vivino_cache w;
        trace := Get address ps
                 :: Sleep (lo + (hi - lo) * draws w 0%nat)%Q :: trace w;
        answers := fun n => answers w (S n);
        draws := fun n => draws w (S n) |}).
Proof.
  unfold fetch_text, body_of. cbn.
  destruct (answers w 0%nat) as [code body|]; [destruct (code =? 200)|];
    reflexivity.
Qed.

Section Retry.
Context {U : Unicode} {L : Library}.

(** X12.  [fetch_pdp] asks for a page at most twice.  When the first
    answer parses to a record, or makes the parser raise, that is the result
    after one request; only when it parses to nothing is the page asked for
    again, after a sleep of 1 to 1.8 seconds, and the second parse is the
    result whatever it is. *)
Theorem fetch_pdp_second_attempt (address : str) (w : world) :
  (0 <= draws w 0%nat)%Q -> (draws w 0%nat < 1)%Q ->
  (0 <= draws w 1%nat)%Q -> (draws w 1%nat < 1)%Q ->
  exists d1 d2,
    ((3 # 10) <= d1)%Q /\ (d1 < (8 # 10))%Q /\ (1 <= d2)%Q /\ (d2 < (18 # 10))%Q
    /\ match parse_pdp (or_empty (body_of (answers w 0%nat))) address with
       | Ret None =>
           (fetch_pdp address w).1
             = parse_pdp (or_empty (body_of (answers w 1%nat))) address
           /\ trace (fetch_pdp address w).2
              = [Get address []; Sleep d2; Get address []; Sleep d1] ++ trace w
       | first =>
           (fetch_pdp address w).1 = first
           /\ trace (fetch_pdp address w).2
              = [Get address []; Sleep d1] ++ trace w
       end.
Proof.
  intros H0 H0' H1 H1'.
  exists ((3 # 10) + ((8 # 10) - (3 # 10)) * draws w 0%nat)%Q,
         (1 + ((18 # 10) - 1) * draws w 1%nat)%Q.
  split; [nra|]. split; [nra|]. split; [nra|]. split; [nra|].
  unfold fetch_pdp. rewrite fetch_text_trace.
  destruct (parse_pdp (or_empty (body_of (answers w 0%nat))) address)
    as [[r|]|e]; [split; reflexivity | | split; reflexivity].
  rewrite fetch_text_trace. split; reflexivity.
Qed.
End Retry.

Lemma fetch_text_one_paced_request_witness :
  ((4 # 10) < 1)%Q /\ (0 <= draws (limited_world ∅) 0%nat)%Q
  /\ (draws (limited_world ∅) 0%nat < 1)%Q
  /\ exists d,
       ((4 # 10) <= d)%Q /\ (d < 1)%Q
       /\ trace (fetch_text BING_SEARCH_URL [] (4 # 10) 1 (limited_world ∅)).2
          = [Get BING_SEARCH_URL []; Sleep d] ++ trace (limited_world ∅)
       /\ (fetch_text BING_SEARCH_URL [] (4 # 10) 1 (limited_world ∅)).1
          = body_of (answers (limited_world ∅) 0%nat)
       /\ (forall n,
             answers (fetch_text BING_SEARCH_URL [] (4 # 10) 1 (limited_world ∅)).2 n
             = answers (limited_world ∅) (S n))
       /\ vivino_cache (fetch_text BING_SEARCH_URL [] (4 # 10) 1 (limited_world ∅)).2
          = vivino_cache (limited_world ∅).
Proof.
  assert (H1 : ((4 # 10) < 1)%Q) by reflexivity.
  assert (H2 : (0 <= draws (limited_world ∅) 0%nat)%Q) by (cbn; lra).
  assert (H3 : (draws (limited_world ∅) 0%nat < 1)%Q) by reflexivity.
  repeat (split; [assumption|]).
  exact (fetch_text_one_paced_request BING_SEARCH_URL [] (4 # 10) 1
           (limited_world ∅) H1 H2 H3).
Defined.

Lemma fetch_pdp_second_attempt_witness :
  (0 <= draws flaky_world 0%nat)%Q /\ (draws flaky_world 0%nat < 1)%Q
  /\ (0 <= draws flaky_world 1%nat)%Q /\ (draws flaky_world 1%nat < 1)%Q
  /\ exists d1 d2,
    ((3 # 10) <= d1)%Q /\ (d1 < (8 # 10))%Q /\ (1 <= d2)%Q /\ (d2 < (18 # 10))%Q
    /\ match @parse_pdp ascii_unicode
               (page_library (Some (fun _ => og_page "product")))
               (or_empty (body_of (answers flaky_world 0%nat))) some_url with
       | Ret None =>
           (@fetch_pdp ascii_unicode
              (page_library (Some (fun _ => og_page "product")))
              some_url flaky_world).1
             = @parse_pdp ascii_unicode
                 (page_library (Some (fun _ => og_page "product")))
                 (or_empty (body_of (answers flaky_world 1%nat))) some_url
           /\ trace (@fetch_pdp ascii_unicode
                       (page_library (Some (fun _ => og_page "product")))
                       some_url flaky_world).2
              = [Get some_url []; Sleep d2; Get some_url []; Sleep d1]
                ++ trace flaky_world
       | first =>
           (@fetch_pdp ascii_unicode
              (page_library (Some (fun _ => og_page "product")))
              some_url flaky_world).1 = first
           /\ trace (@fetch_pdp ascii_unicode
                       (page_library (Some (fun _ => og_page "product")))
                       some_url flaky_world).2
              = [Get some_url []; Sleep d1] ++ trace flaky_world
       end.
Proof.
  assert (H1 : (0 <= draws flaky_world 0%nat)%Q) by (cbn; lra).
  assert (H2 : (draws flaky_world 0%nat < 1)%Q) by reflexivity.
  assert (H3 : (0 <= draws flaky_world 1%nat)%Q) by (cbn; lra).
  assert (H4 : (draws flaky_world 1%nat < 1)%Q) by reflexivity.
  repeat (split; [assumption|]).
  exact (@fetch_pdp_second_attempt ascii_unicode
           (page_library (Some (fun _ => og_page "product")))
           some_url flaky_world H1 H2 H3 H4).
Defined.

Lemma requests_get (u : str) (ps : list (str * str)) (d : Q) (t : list event) :
  requests (Get u ps :: Sleep d :: t) = S (requests t).
Proof. reflexivity. Qed.

Lemma backoff_loop_result (ps : list (str * str)) (n : nat) :
  forall (a : Z) (d : Q) (w : world),
    match (backoff_loop ps n a d w).1 with
    | Some body =>
        exists k code,
          (k < n)%nat
          /\ (forall i, (i < k)%nat -> retryable (answers w i) = true)
          /\ answers w k = Status code body
          /\ code <> 429 /\ code < 400
          /\ requests (trace (backoff_loop ps n a d w).2)
             = (requests (trace w) + S k)%nat
    | None =>
        (forall i, (i < n)%nat -> retryable (answers w i) = true)
        /\ requests (trace (backoff_loop ps n a d w).2)
           = (requests (trace w) + n)%nat
    end.
Proof.
  induction n as [|n IH]; intros a d w.
  - cbn. split; [intros i Hi; lia | lia].
  - cbn [backoff_loop request emit random fst snd vivino_cache trace answers draws].
    assert (Hstep : forall a' d' (w1 : world),
              (forall i, answers w1 i = answers w (S i)) ->
              requests (trace w1) = S (requests (trace w)) ->
              retryable (answers w 0%nat) = true ->
              match (backoff_loop ps n a' d' w1).1 with
              | Some body =>
                  exists k code,
                    (k < S n)%nat
                    /\ (forall i, (i < k)%nat -> retryable (answers w i) = true)
                    /\ answers w k = Status code body
                    /\ code <> 429 /\ code < 400
                    /\ requests (trace (backoff_loop ps n a' d' w1).2)
                       = (requests (trace w) + S k)%nat
              | None =>
                  (forall i, (i < S n)%nat -> retryable (answers w i) = true)
                  /\ requests (trace (backoff_loop ps n a' d' w1).2)
                     = (requests (trace w) + S n)%nat
              end).
    { intros a' d' w1 Hans Hreq H0. specialize (IH a' d' w1).
      destruct (backoff_loop ps n a' d' w1) as [[body|] w2]; cbn [fst snd] in *.
      - destruct IH as (k & code & Hk & Hall & Hk' & H429 & H400 & Hr).
        exists (S k), code. rewrite <- Hans. repeat split; auto; try lia.
        intros [|i] Hi; [exact H0|]. rewrite <- Hans. apply Hall. lia.
      - destruct IH as (Hall & Hr). split; [|lia].
        intros [|i] Hi; [exact H0|]. rewrite <- Hans. apply Hall. lia. }
    destruct (answers w 0%nat) as [code body|] eqn:E0.
    + destruct (code =? 429) eqn:E429.
      { apply Hstep; [reflexivity | reflexivity | cbn; now rewrite E429]. }
      destruct (400 <=? code) eqn:E400.
      { apply Hstep; [reflexivity | reflexivity |].
        cbn. now rewrite E400, orb_true_r. }
      cbn [fst snd trace]. exists 0%nat, code. rewrite requests_get.
      repeat split; auto; try lia.
    + apply Hstep; reflexivity.
Qed.

(** X13.  The fallback search returns the first answer that is neither a
    rate limit, nor an error status, nor a transport error, among the first
    six; it makes one request per answer it had to look at, and returns
    nothing exactly when the first six answers are all of those kinds. *)
Theorem backoff_returns_first_good_answer (ps : list (str * str)) (w : world) :
  match (_fetch_vivino_search_with_backoff ps w).1 with
  | Some body =>
      exists k code,
        (k < 6)%nat
        /\ (forall i, (i < k)%nat -> retryable (answers w i) = true)
        /\ answers w k = Status code body
        /\ code <> 429 /\ code < 400
        /\ requests (trace (_fetch_vivino_search_with_backoff ps w).2)
           = (requests (trace w) + S k)%nat
  | None =>
      (forall i, (i < 6)%nat -> retryable (answers w i) = true)
      /\ requests (trace (_fetch_vivino_search_with_backoff ps w).2)
         = (requests (trace w) + 6)%nat
  end.
Proof. apply backoff_loop_result. Qed.

Lemma requested_get (u : str) (ps : list (str * str)) (t : list event) :
  requested (Get u ps :: t) = requested t ++ [u].
Proof. unfold requested. cbn [rev]. now rewrite omap_app. Qed.

Lemma requested_sleep (d : Q) (t : list event) :
  requested (Sleep d :: t) = requested t.
Proof.
  unfold requested. cbn [rev]. rewrite omap_app. cbn. apply app_nil_r.
Qed.

Lemma requested_length (t : list event) : length (requested t) = requests t.
Proof.
  induction t as [|[d|u ps] t IH]; [reflexivity| |].
  - now rewrite requested_sleep.
  - rewrite requested_get, length_app, IH. unfold requests. cbn. lia.
Qed.

Section Candidates.
Context {U : Unicode} {X : LinkExtraction}.

(** The candidates are requested in order, up to the first that shows a
    rating. *)
Lemma scan_candidates_requested (key : str) (urls : list str) :
  forall w,
    exists k,
      (k <= length urls)%nat
      /\ requested (trace (scan_candidates key urls w).2)
         = requested (trace w) ++ take k urls
      /\ match (scan_candidates key urls w).1 with
         | Some res => (0 < k)%nat /\ urls !! Nat.pred k = Some (vivino_url res)
         | None => k = length urls
         end.
Proof.
  induction urls as [|vu urls IH]; intros w.
  - exists 0%nat. cbn. rewrite app_nil_r. auto.
  - cbn [scan_candidates]. rewrite fetch_text_trace.
    set (w1 := {| vivino_cache := vivino_cache w; trace := Get vu [] :: _ |}).
    assert (Hw1 : requested (trace w1) = requested (trace w) ++ [vu]).
    { subst w1. cbn [trace]. now rewrite requested_get, requested_sleep. }
    assert (Hrec : exists k,
              (k <= length (vu :: urls))%nat
              /\ requested (trace (scan_candidates key urls w1).2)
                 = requested (trace w) ++ take k (vu :: urls)
              /\ match (scan_candidates key urls w1).1 with
                 | Some res =>
                     (0 < k)%nat
                     /\ (vu :: urls) !! Nat.pred k = Some (vivino_url res)
                 | None => k = length (vu :: urls)
                 end).
    { destruct (IH w1) as (k & Hk & Hreq & Hres). exists (S k).
      split; [cbn; lia|]. split.
      - rewrite Hreq, Hw1. cbn [take]. now rewrite <- app_assoc.
      - destruct (scan_candidates key urls w1).1 as [res|]; [|cbn; lia].
        destruct Hres as [Hpos Hl]. split; [lia|].
        destruct k; [lia|]. exact Hl. }
    destruct (body_of (answers w 0%nat)) as [[|c page]|]; try exact Hrec.
    destruct (_extract_vivino_rating_from_html (c :: page)) as [rating|];
      [|exact Hrec].
    exists 1%nat. cbn [fst snd set_cache trace]. split; [cbn; lia|].
    split; [exact Hw1|]. split; [lia | reflexivity].
Qed.

Lemma scan_candidates_count (key : str) (urls : list str) (w : world) :
  (requests (trace (scan_candidates key urls w).2)
   <= requests (trace w) + length urls)%nat.
Proof.
  destruct (scan_candidates_requested key urls w) as (k & Hk & Hreq & _).
  apply (f_equal (@length str)) in Hreq.
  rewrite length_app, !requested_length, length_take in Hreq. lia.
Qed.

(** X14.  A lookup that is not answered from the cache makes at least one
    request and at most ten: one to the search engine, at most six to the
    fallback search, at most three for candidate pages.  A lookup answered
    from the cache makes none. *)
Theorem vivino_lookup_at_most_ten_requests (wine_name : str) (w : world) :
  match vivino_cache w !! strip wine_name with
  | Some _ =>
      requests (trace (vivino_lookup wine_name w).2) = requests (trace w)
  | None =>
      (requests (trace w) + 1
       <= requests (trace (vivino_lookup wine_name w).2)
       <= requests (trace w) + 10)%nat
  end.
Proof.
  destruct (vivino_cache w !! strip wine_name) as [e|] eqn:E.
  { now rewrite (cache_lookup_hit _ _ _ E). }
  unfold vivino_lookup. rewrite E. rewrite fetch_text_trace.
  set (w1 := {| vivino_cache := vivino_cache w; trace := Get _ _ :: _ |}).
  assert (Hw1 : requests (trace w1) = S (requests (trace w))) by reflexivity.
  assert (Hscan : forall urls w2,
            (requests (trace w1) <= requests (trace w2)
             <= requests (trace w1) + 6)%nat ->
            (requests (trace w) + 1
             <= requests (trace (scan_candidates (strip wine_name)
                                   (take 3 urls) w2).2)
             <= requests (trace w) + 10)%nat).
  { intros urls w2 Hw2.
    pose proof (scan_candidates_count (strip wine_name) (take 3 urls) w2) as Hc.
    destruct (scan_candidates_requested (strip wine_name) (take 3 urls) w2)
      as (k & _ & Hreq & _).
    apply (f_equal (@length str)) in Hreq.
    rewrite length_app, !requested_length in Hreq.
    rewrite length_take in Hc. lia. }
  assert (Hfall : forall q,
            (requests (trace w1)
             <= requests (trace (_fetch_vivino_search_with_backoff q w1).2)
             <= requests (trace w1) + 6)%nat).
  { intros q. destruct (backoff_at_most_six_requests q w1) as (new & Ht & Hn).
    rewrite Ht, requests_app. lia. }
  match goal with
  | |- context [match ?l with [] => _ | _ :: _ => _ end] => destruct l as [|u us]
  end.
  - specialize (Hfall [(py "q", _he_to_en_query wine_name)]).
    destruct (_fetch_vivino_search_with_backoff _ w1) as [vhtml w2].
    cbn [snd] in Hfall.
    destruct vhtml as [[|c v]|]; apply Hscan; exact Hfall.
  - apply Hscan. lia.
Qed.

(** X15.  When the search engine finds links, they decide: the fallback
    search is not asked, the first three links at most are requested, in
    order and up to the first page that shows a rating, and a match carries
    the address of the last page requested. *)
Theorem bing_links_decide (wine_name html : str) (w : world) :
  vivino_cache w !! strip wine_name = None ->
  body_of (answers w 0%nat) = Some html -> html <> [] ->
  _extract_all_vivino_links_from_bing html <> [] ->
  exists k,
    (1 <= k <= 3)%nat
    /\ requested (trace (vivino_lookup wine_name w).2)
       = requested (trace w)
         ++ BING_SEARCH_URL :: take k (_extract_all_vivino_links_from_bing html)
    /\ match (vivino_lookup wine_name w).1 with
       | Some res =>
           _extract_all_vivino_links_from_bing html !! Nat.pred k
             = Some (vivino_url res)
       | None =>
           k = Nat.min 3 (length (_extract_all_vivino_links_from_bing html))
       end.
Proof.
  intros Hmiss Hbody Hne Hlinks.
  unfold vivino_lookup. rewrite Hmiss, fetch_text_trace, Hbody.
  set (w1 := {| vivino_cache := vivino_cache w; trace := Get _ _ :: _ |}).
  assert (Hw1 : requested (trace w1) = requested (trace w) ++ [BING_SEARCH_URL]).
  { subst w1. cbn [trace]. now rewrite requested_get, requested_sleep. }
  destruct html as [|c html]; [congruence|].
  destruct (_extract_all_vivino_links_from_bing (c :: html)) as [|u us] eqn:El;
    [congruence|].
  destruct (scan_candidates_requested (strip wine_name) (take 3 (u :: us)) w1)
    as (k & Hk & Hreq & Hres).
  rewrite length_take in Hk.
  assert (Hpos : (1 <= k)%nat).
  { destruct (scan_candidates _ _ w1).1; [lia|]. rewrite Hres, length_take.
    cbn. lia. }
  exists k. split; [lia|]. split.
  - rewrite Hreq, Hw1, <- app_assoc. cbn [app]. do 2 f_equal.
    rewrite take_take. f_equal. lia.
  - destruct (scan_candidates _ _ w1).1 as [res|].
    + destruct Hres as [_ Hl]. rewrite lookup_take_lt in Hl by lia. exact Hl.
    + rewrite Hres, length_take. reflexivity.
Qed.
End Candidates.

Lemma bing_links_decide_witness :
  vivino_cache rated_world !! @strip ascii_unicode (py "Yarden Merlot") = None
  /\ body_of (answers rated_world 0%nat) = Some (py "Rated 4.3 out of 5")
  /\ py "Rated 4.3 out of 5" <> []
  /\ @_extract_all_vivino_links_from_bing one_link (py "Rated 4.3 out of 5") <> []
  /\ exists k,
    (1 <= k <= 3)%nat
    /\ requested (trace (@vivino_lookup ascii_unicode one_link
                           (py "Yarden Merlot") rated_world).2)
       = requested (trace rated_world)
         ++ BING_SEARCH_URL
            :: take k (@_extract_all_vivino_links_from_bing one_link
                         (py "Rated 4.3 out of 5"))
    /\ match (@vivino_lookup ascii_unicode one_link
                (py "Yarden Merlot") rated_world).1 with
       | Some res =>
           @_extract_all_vivino_links_from_bing one_link
             (py "Rated 4.3 out of 5") !! Nat.pred k
             = Some (vivino_url res)
       | None =>
           k = Nat.min 3
                 (length (@_extract_all_vivino_links_from_bing one_link
                            (py "Rated 4.3 out of 5")))
       end.
Proof.
  assert (H1 : vivino_cache rated_world
                 !! @strip ascii_unicode (py "Yarden Merlot") = None)
    by reflexivity.
  assert (H2 : body_of (answers rated_world 0%nat)
               = Some (py "Rated 4.3 out of 5")) by reflexivity.
  assert (H3 : py "Rated 4.3 out of 5" <> []) by discriminate.
  assert (H4 : @_extract_all_vivino_links_from_bing one_link
                 (py "Rated 4.3 out of 5") <> []) by discriminate.
  repeat (split; [assumption|]).
  exact (@bing_links_decide ascii_unicode one_link (py "Yarden Merlot")
           (py "Rated 4.3 out of 5") rated_world H1 H2 H3 H4).
Defined.

(** *** Lists of addresses: no repetition, nothing lost *)

Lemma fromkeys_fold (l : list str) : fromkeys l = fold_left add_key l [].
Proof. reflexivity. Qed.

Lemma add_keys_elem (l : list str) :
  forall keys x, x ∈ fold_left add_key l keys <-> x ∈ keys \/ x ∈ l.
Proof.
  induction l as [|y l IH]; intros keys x; cbn [fold_left].
  - rewrite elem_of_nil. tauto.
  - rewrite IH, elem_of_cons. unfold add_key.
    destruct (bool_decide (y ∈ keys)) eqn:E.
    + apply bool_decide_eq_true_1 in E. split; [tauto|].
      intros [H | [-> | H]]; auto.
    + rewrite elem_of_app, list_elem_of_singleton. tauto.
Qed.

Lemma add_keys_NoDup (l : list str) :
  forall keys, NoDup keys -> NoDup (fold_left add_key l keys).
Proof.
  induction l as [|y l IH]; intros keys Hk; [exact Hk|]. cbn [fold_left].
  apply IH. unfold add_key. destruct (bool_decide (y ∈ keys)) eqn:E; [exact Hk|].
  apply bool_decide_eq_false_1 in E. apply NoDup_app. split; [exact Hk|].
  split; [|apply NoDup_singleton].
  intros x Hx ->%list_elem_of_singleton. contradiction.
Qed.

Lemma add_keys_filter (p : str -> bool) (l : list str) :
  forall keys,
    fold_left add_key (List.filter p l) (List.filter p keys)
    = List.filter p (fold_left add_key l keys).
Proof.
  induction l as [|y l IH]; intros keys; [reflexivity|].
  cbn [fold_left List.filter].
  assert (Hin : forall x, p x = true ->
            bool_decide (x ∈ List.filter p keys) = bool_decide (x ∈ keys)).
  { intros x Hx. apply bool_decide_ext.
    rewrite !list_elem_of_In, filter_In. tauto. }
  destruct (p y) eqn:Ey; cbn [fold_left].
  - rewrite <- IH. f_equal. unfold add_key. rewrite (Hin y Ey).
    destruct (bool_decide (y ∈ keys)); [reflexivity|].
    rewrite List.filter_app. cbn. now rewrite Ey.
  - rewrite <- IH. f_equal. unfold add_key.
    destruct (bool_decide (y ∈ keys)); [reflexivity|].
    rewrite List.filter_app. cbn. now rewrite Ey, app_nil_r.
Qed.

Lemma add_keys_fresh (l : list str) :
  forall keys, NoDup (keys ++ l) -> fold_left add_key l keys = keys ++ l.
Proof.
  induction l as [|y l IH]; intros keys Hn; cbn [fold_left].
  - now rewrite app_nil_r.
  - assert (Hy : y ∉ keys).
    { apply NoDup_app in Hn as (_ & Hn & _). intros Hy.
      apply (Hn y Hy). left. }
    unfold add_key. rewrite bool_decide_eq_false_2 by exact Hy.
    rewrite IH; rewrite <- app_assoc; [reflexivity | exact Hn].
Qed.

Lemma add_key_old (keys : list str) (y : str) :
  y ∈ keys -> add_key keys y = keys.
Proof. intros H. unfold add_key. now rewrite bool_decide_eq_true_2. Qed.

Lemma add_key_new (keys : list str) (y : str) :
  y ∉ keys -> add_key keys y = keys ++ [y].
Proof. intros H. unfold add_key. now rewrite bool_decide_eq_false_2. Qed.

Lemma add_keys_from (l : list str) :
  forall keys,
    fold_left add_key l keys
    = keys ++ List.filter (fun x => bool_decide (x ∉ keys)) (fold_left add_key l []).
Proof.
  induction l as [|y l IH] using rev_ind; intros keys.
  - cbn. now rewrite app_nil_r.
  - rewrite !fold_left_app. cbn [fold_left]. rewrite (IH keys).
    set (F := List.filter _ (fold_left add_key l [])).
    assert (HF : forall x, x ∈ F <-> (x ∉ keys) /\ x ∈ fold_left add_key l []).
    { intros x. subst F. rewrite list_elem_of_In, filter_In, <- list_elem_of_In.
      rewrite bool_decide_eq_true. tauto. }
    destruct (decide (y ∈ fold_left add_key l [])) as [E1 | E1].
    + rewrite (add_key_old (fold_left add_key l [])) by exact E1. fold F.
      apply add_key_old. apply elem_of_app.
      destruct (decide (y ∈ keys)) as [Hk | Hk]; [now left|].
      right. apply HF. auto.
    + rewrite (add_key_new (fold_left add_key l [])) by exact E1.
      rewrite List.filter_app. fold F. cbn [List.filter].
      destruct (decide (y ∈ keys)) as [Hk | Hk].
      * rewrite (bool_decide_eq_false_2 (y ∉ keys)) by tauto.
        rewrite app_nil_r. apply add_key_old, elem_of_app. now left.
      * rewrite (bool_decide_eq_true_2 (y ∉ keys)) by exact Hk.
        rewrite add_key_new; [now rewrite <- app_assoc|].
        rewrite elem_of_app, HF. tauto.
Qed.

Lemma fromkeys_elem (l : list str) (x : str) : x ∈ fromkeys l <-> x ∈ l.
Proof.
  rewrite fromkeys_fold, add_keys_elem, elem_of_nil. tauto.
Qed.

Lemma fromkeys_NoDup (l : list str) : NoDup (fromkeys l).
Proof. apply add_keys_NoDup, NoDup_nil_2. Qed.

Lemma fromkeys_filter (p : str -> bool) (l : list str) :
  fromkeys (List.filter p l) = List.filter p (fromkeys l).
Proof. apply (add_keys_filter p l []). Qed.

Lemma fromkeys_fresh (l : list str) : NoDup l -> fromkeys l = l.
Proof. intros H. now apply (add_keys_fresh l []). Qed.

Lemma fromkeys_app (a b : list str) :
  fromkeys (a ++ b)
  = fromkeys a ++ fromkeys (List.filter (fun x => bool_decide (x ∉ a)) b).
Proof.
  rewrite (fromkeys_fold (a ++ b)), fold_left_app, <- fromkeys_fold.
  rewrite add_keys_from, <- fromkeys_fold, fromkeys_filter.
  f_equal. apply filter_ext. intros x. apply bool_decide_ext.
  now rewrite fromkeys_elem.
Qed.

Lemma fromkeys_cons (x : str) (l : list str) :
  fromkeys (x :: l)
  = x :: List.filter (fun y => bool_decide (y <> x)) (fromkeys l).
Proof.
  change (x :: l) with ([x] ++ l). rewrite fromkeys_app.
  change (fromkeys [x]) with [x]. cbn [app]. f_equal.
  rewrite fromkeys_filter. apply filter_ext. intros y. apply bool_decide_ext.
  now rewrite list_elem_of_singleton.
Qed.

(** X16.  Removing repetitions keeps the first occurrence of every address
    and the order of these: the result has no repetition and the same
    addresses, its head is the head of the list, and what follows is the
    result for the tail without that address.  A list without repetitions is
    left as it is. *)
Theorem dedupe_keeps_first_occurrences (l : list str) :
  NoDup (fromkeys l)
  /\ (forall x, x ∈ fromkeys l <-> x ∈ l)
  /\ match l with
     | [] => fromkeys l = []
     | x :: l' =>
         fromkeys l = x :: List.filter (fun y => bool_decide (y <> x)) (fromkeys l')
     end
  /\ fromkeys (fromkeys l) = fromkeys l.
Proof.
  split; [apply fromkeys_NoDup|]. split; [apply fromkeys_elem|]. split.
  - destruct l; [reflexivity | apply fromkeys_cons].
  - apply fromkeys_fresh, fromkeys_NoDup.
Qed.

Lemma extend_concat (results : list (Z * list str)) (acc : list str) :
  fold_left (fun acc r => acc ++ r.2) results acc
  = acc ++ concat (map snd results).
Proof.
  revert acc. induction results as [|r results IH]; intros acc; cbn.
  - now rewrite app_nil_r.
  - now rewrite IH, <- app_assoc.
Qed.

Lemma fromkeys_concat (raws : list (list str)) :
  fromkeys (concat (map fromkeys raws)) = fromkeys (concat raws).
Proof.
  induction raws as [|r raws IH]; [reflexivity|]. cbn [map concat].
  rewrite !fromkeys_app, (fromkeys_fresh (fromkeys r)) by apply fromkeys_NoDup.
  f_equal. rewrite !fromkeys_filter, IH.
  apply filter_ext. intros x. apply bool_decide_ext. now rewrite fromkeys_elem.
Qed.

(** X17.  The work list of [main] holds every address of every category
    page once, in the order of first appearance over the pages; that each
    page was rid of its own repetitions before makes no difference. *)
Theorem all_urls_is_one_dedupe (pages : list (Z * list str)) :
  all_urls (map (fun r => (r.1, fromkeys r.2)) pages)
    = fromkeys (concat (map snd pages))
  /\ NoDup (all_urls pages)
  /\ (forall x, x ∈ all_urls pages <-> exists r, r ∈ pages /\ x ∈ r.2).
Proof.
  unfold all_urls. rewrite !extend_concat. cbn [app].
  split; [|split].
  - rewrite map_map. cbn [snd].
    rewrite <- (map_map snd fromkeys). apply fromkeys_concat.
  - apply fromkeys_NoDup.
  - intros x. rewrite fromkeys_elem, list_elem_of_In, in_concat. split.
    + intros (l & Hl & Hx). apply in_map_iff in Hl as (r & <- & Hr).
      exists r. now rewrite !list_elem_of_In.
    + intros (r & Hr & Hx). exists r.2. rewrite <- !list_elem_of_In.
      split; [|exact Hx]. apply list_elem_of_fmap. now exists r.
Qed.

Lemma chunks_take {A} (l : list A) (k : nat) :
  concat (map (fun i => slice l (i * 6) (i * 6 + 6)) (seq 0 k)) = take (k * 6) l.
Proof.
  induction k as [|k IH]; [reflexivity|].
  rewrite seq_S, map_app, concat_app, IH. cbn [map concat Nat.add].
  rewrite app_nil_r. unfold slice.
  replace (k * 6 + 6 - k * 6)%nat with 6%nat by lia.
  rewrite take_take_drop. f_equal. lia.
Qed.

(** X18.  The chunks [main] fetches one after the other are the work list
    cut into pieces of six: put end to end they give the list back, so every
    address is fetched once and none is left out, and no chunk is empty or
    longer than six. *)
Theorem pdp_chunks_partition (urls : list str) :
  concat (pdp_chunks urls) = urls
  /\ Forall (fun chunk => (1 <= length chunk <= 6)%nat) (pdp_chunks urls).
Proof.
  unfold pdp_chunks, range_step, MAX_CONCURRENT_PDP. rewrite map_map.
  set (k := Nat.div (length urls + 6 - 1) 6).
  assert (Hk : (length urls <= k * 6 /\ k * 6 < length urls + 6)%nat).
  { subst k. pose proof (Nat.div_mod_eq (length urls + 6 - 1) 6) as H.
    pose proof (Nat.mod_upper_bound (length urls + 6 - 1) 6) as H'. lia. }
  split.
  - rewrite chunks_take. apply take_ge. lia.
  - apply Forall_forall. intros chunk Hin.
    apply list_elem_of_In, in_map_iff in Hin as (i & <- & Hi).
    apply in_seq in Hi. unfold slice.
    rewrite length_take, length_drop. nia.
Qed.


(** *** Links in markup *)

Section FinditerFacts.
Context {U : Unicode}.

Lemma finditer_from_sound (fuel : nat) (ic : bool) (r : regex) :
  forall (prev : option Z) (s x : str),
    x ∈ finditer_from fuel ic r prev s ->
    exists prev0 s1 prev' s' g',
      matches ic r prev0 s1 None prev' s' g' /\ x = default [] g'.
Proof.
  induction fuel as [|fuel IH]; intros prev s x; cbn [finditer_from].
  - intros H. now apply elem_of_nil in H.
  - destruct (search_from ic r prev s) as [m|] eqn:E.
    + intros [-> | H]%elem_of_cons; [|eapply IH; exact H].
      apply search_from_sound in E as (pre & s1 & p' & g' & _ & Hm & Hg).
      eauto 10.
    + intros H. now apply elem_of_nil in H.
Qed.

Lemma matches_length (ic : bool) (r : regex) :
  forall prev s g prev' s' g',
    matches ic r prev s g prev' s' g' -> (length s' <= length s)%nat.
Proof.
  induction r as [c|p|r1 IH1 r2 IH2|r1 IH1 r2 IH2| |p lo hi|r1 IH1| ];
    intros prev s g prev' s' g'; cbn [matches].
  - intros (x & -> & _). cbn. lia.
  - intros (x & -> & _). cbn. lia.
  - intros (p1 & s1 & g1 & H1 & H2). apply IH1 in H1. apply IH2 in H2. lia.
  - intros [H | H]; [now apply IH1 in H | now apply IH2 in H].
  - intros (_ & -> & _). lia.
  - intros (ds & -> & _). rewrite length_app. lia.
  - intros (g1 & H & _). now apply IH1 in H.
  - intros (_ & _ & -> & _). lia.
Qed.

Lemma consuming_lit (ic : bool) (c : Z) : consuming ic (Lit c).
Proof. intros prev s g prev' s' g' (x & -> & _). cbn. lia. Qed.

Lemma consuming_cat (ic : bool) (r1 r2 : regex) :
  consuming ic r1 -> consuming ic (Cat r1 r2).
Proof.
  intros H prev s g prev' s' g' (p1 & s1 & g1 & H1 & H2).
  apply H in H1. apply matches_length in H2. lia.
Qed.

Lemma consuming_group (ic : bool) (r : regex) :
  consuming ic r -> consuming ic (Group r).
Proof. intros H prev s g prev' s' g' (g1 & H1 & _). now apply H in H1. Qed.

Lemma search_from_shorter (ic : bool) (r : regex) (prev : option Z) (s : str)
    (m : rmatch_result) :
  consuming ic r -> search_from ic r prev s = Some m ->
  (length (after m) < length s)%nat.
Proof.
  intros Hc E. apply search_from_sound in E as (pre & s1 & p' & g' & -> & Hm & _).
  apply Hc in Hm. rewrite length_app. lia.
Qed.

(** The length of the text is fuel enough: more changes nothing. *)
Lemma finditer_from_fuel (ic : bool) (r : regex) :
  consuming ic r ->
  forall fuel fuel' prev s,
    (length s <= fuel)%nat -> (length s <= fuel')%nat ->
    finditer_from fuel ic r prev s = finditer_from fuel' ic r prev s.
Proof.
  intros Hc. induction fuel as [|fuel IH]; intros fuel' prev s Hf Hf'.
  - destruct s; [|cbn in Hf; lia].
    destruct fuel'; [reflexivity|]. cbn [finditer_from].
    destruct (search_from ic r prev []) as [m|] eqn:E; [|reflexivity].
    apply (search_from_shorter _ _ _ _ _ Hc) in E. cbn in E. lia.
  - destruct fuel' as [|fuel'].
    + destruct s; [|cbn in Hf'; lia]. cbn [finditer_from].
      destruct (search_from ic r prev []) as [m|] eqn:E; [|reflexivity].
      apply (search_from_shorter _ _ _ _ _ Hc) in E. cbn in E. lia.
    + cbn [finditer_from].
      destruct (search_from ic r prev s) as [m|] eqn:E; [|reflexivity].
      pose proof (search_from_shorter _ _ _ _ _ Hc E) as Hlt.
      f_equal. apply IH; lia.
Qed.

Lemma consuming_A_HREF_RE : consuming false A_HREF_RE.
Proof. repeat apply consuming_cat. apply consuming_lit. Qed.

Lemma consuming_BING_LINK_RE : consuming false BING_LINK_RE.
Proof. repeat apply consuming_cat. apply consuming_lit. Qed.

Lemma consuming_WINES_HREF_RE : consuming false WINES_HREF_RE.
Proof. repeat apply consuming_cat. apply consuming_lit. Qed.

(** [finditer] gives the first match and then the matches in what the
    match left over. *)
Lemma finditer_unfold (r : regex) (s : str) :
  consuming false r ->
  finditer false r s
  = match search false r s with
    | None => []
    | Some m =>
        group1 m
        :: finditer_from (length (after m)) false r
             (prev_after None (take (length s - length (after m)) s)) (after m)
    end.
Proof.
  intros Hc. unfold finditer, search. destruct s as [|c s].
  - cbn [length finditer_from].
    destruct (search_from false r None []) as [m|] eqn:E; [|reflexivity].
    apply (search_from_shorter _ _ _ _ _ Hc) in E. cbn in E. lia.
  - cbn [length finditer_from].
    destruct (search_from false r None (c :: s)) as [m|] eqn:E; [|reflexivity].
    pose proof (search_from_shorter _ _ _ _ _ Hc E) as Hlt. cbn in Hlt.
    f_equal. apply (finditer_from_fuel false r Hc); lia.
Qed.

Lemma A_HREF_RE_sound (prev : option Z) (s : str)
    (prev' : option Z) (s' : str) (g' : option str) :
  matches false A_HREF_RE prev s None prev' s' g' ->
  exists h, g' = Some h /\ h <> [] /\ forallb not_quote h = true.
Proof.
  unfold A_HREF_RE, Plus. code_points. cbn [Seq Lits matches app].
  intros H. open_match. subst.
  match goal with
  | H : forallb not_quote ?ds = true |- _ =>
      exists ds; rewrite take_app_exact; repeat split; [|exact H];
      destruct ds; [cbn in *; lia | discriminate]
  end.
Qed.

Lemma A_HREF_nonempty (html href : str) :
  href ∈ finditer false A_HREF_RE html -> href <> [].
Proof.
  intros H. apply finditer_from_sound in H as (p0 & s1 & p' & s' & g' & Hm & ->).
  apply A_HREF_RE_sound in Hm as (h & -> & Hne & _). exact Hne.
Qed.

Lemma WINES_HREF_RE_sound (prev : option Z) (s : str)
    (prev' : option Z) (s' : str) (g' : option str) :
  matches false WINES_HREF_RE prev s None prev' s' g' ->
  exists p, g' = Some p /\ wine_path p.
Proof.
  unfold WINES_HREF_RE, Plus, wine_path. code_points.
  cbn [Seq Lits matches app].
  intros H. open_match. subst. literals.
  match goal with
  | H : forallb _ ?ds = true |- _ =>
      exists ([47; 119; 105; 110; 101; 115; 47] ++ ds); split;
      [ f_equal; apply (take_app_exact ([47; 119; 105; 110; 101; 115; 47] ++ ds))
      | exists ds; repeat split; [|exact H];
        destruct ds; [cbn in *; lia | discriminate] ]
  end.
Qed.

Lemma BING_LINK_RE_sound (prev : option Z) (s : str)
    (prev' : option Z) (s' : str) (g' : option str) :
  matches false BING_LINK_RE prev s None prev' s' g' ->
  exists h, g' = Some h /\ vivino_link h.
Proof.
  unfold BING_LINK_RE, Plus, Opt, vivino_link. code_points.
  cbn [Seq Lits matches app].
  intros H. open_match. subst. literals.
  match goal with
  | Hb : forallb not_quote ?b = true, Ha : forallb not_quote ?a = true,
    Hs : _ \/ _ |- _ =>
      assert (Hane : a <> []) by (destruct a; [cbn in *; lia | discriminate]);
      assert (Hbne : b <> []) by (destruct b; [cbn in *; lia | discriminate]);
      destruct Hs as [Hs | Hs]; open_match; subst; literals;
      [ exists ([104; 116; 116; 112] ++ [115] ++ [58; 47; 47] ++ a
                ++ [118; 105; 118; 105; 110; 111] ++ b)
      | exists ([104; 116; 116; 112] ++ [] ++ [58; 47; 47] ++ a
                ++ [118; 105; 118; 105; 110; 111] ++ b) ];
      (split;
       [ f_equal;
         match goal with
         | |- take (length ?l - length ?r) ?l = ?h =>
             replace l with (h ++ r)
               by (cbn [app]; now rewrite <- !app_assoc);
             apply take_app_exact
         end
       | eexists _, a, b; split; [reflexivity|]; auto 10 ])
  end.
Qed.
End FinditerFacts.
(** *** Category pages *)

Section CategoryLinks.
Context {U : Unicode} {L : Library} {P : Urllib}.

Lemma product_route_test (href : str) :
  contains BASE href = true ->
  existsb (fun x => contains x href) NON_PRODUCT_ROUTES = false ->
  product_route href.
Proof.
  intros Hb He. split; [exact Hb|]. apply Forall_forall. intros x Hx.
  destruct (contains x href) eqn:E; [|reflexivity].
  assert (existsb (fun x => contains x href) NON_PRODUCT_ROUTES = true);
    [|congruence].
  apply existsb_exists. exists x. split; [now apply list_elem_of_In | exact E].
Qed.

Lemma fold_invariant {A B} (Q : B -> Prop) (f : B -> A -> B) (l : list A) (b : B) :
  Q b -> (forall b a, Q b -> a ∈ l -> Q (f b a)) -> Q (fold_left f l b).
Proof.
  revert b. induction l as [|a l IH]; intros b Hb Hf; [exact Hb|]. cbn.
  apply IH; [apply Hf; [exact Hb | left]|].
  intros b' a' Hb' Ha'. apply Hf; [exact Hb' | now right].
Qed.

Lemma category_urls (html : str) :
  NoDup (extract_product_urls_from_category html)
  /\ forall u, u ∈ extract_product_urls_from_category html ->
       product_route u
       /\ exists href,
            u = absolute href /\ href <> []
            /\ match BeautifulSoup with
               | Some parser => Some href ∈ select_links (parser html)
               | None => href ∈ finditer false A_HREF_RE html
               end.
Proof.
  unfold extract_product_urls_from_category. cbv zeta.
  split; [apply fromkeys_NoDup|]. intros u. rewrite fromkeys_elem. revert u.
  destruct BeautifulSoup as [parser|].
  - apply (fold_invariant
             (fun urls : list str => forall u, u ∈ urls ->
                product_route u
                /\ exists href, u = absolute href /\ href <> []
                                /\ Some href ∈ select_links (parser html))).
    { intros u Hu. now apply elem_of_nil in Hu. }
    intros urls a IH Ha. destruct a as [[|c href]|]; try exact IH.
    destruct (contains BASE (absolute (c :: href))) eqn:Eb; cbn [negb];
      [|exact IH].
    destruct (existsb _ NON_PRODUCT_ROUTES) eqn:Ee; [exact IH|].
    intros u [Hu | ->%list_elem_of_singleton]%elem_of_app; [now apply IH|].
    split; [now apply product_route_test|].
    exists (c :: href). repeat split; [discriminate | exact Ha].
  - apply (fold_invariant
             (fun urls : list str => forall u, u ∈ urls ->
                product_route u
                /\ exists href, u = absolute href /\ href <> []
                                /\ href ∈ finditer false A_HREF_RE html)).
    { intros u Hu. now apply elem_of_nil in Hu. }
    intros urls a IH Ha.
    destruct (contains BASE (absolute a)) eqn:Eb; cbn [andb]; [|exact IH].
    destruct (existsb _ NON_PRODUCT_ROUTES) eqn:Ee; cbn [negb]; [exact IH|].
    intros u [Hu | ->%list_elem_of_singleton]%elem_of_app; [now apply IH|].
    split; [now apply product_route_test|].
    exists a. repeat split; [|exact Ha].
    now apply (A_HREF_nonempty html).
Qed.

(** X19.  Every address [extract_product_urls_from_category] returns is on
    the site and is none of the routes that are no product pages; it comes
    from a link of the page, resolved against the site when it starts with a
    slash; and no address is returned twice.  This holds with the parser and
    with the pattern that replaces it. *)
Theorem category_urls_are_product_routes (html : str) :
  NoDup (extract_product_urls_from_category html)
  /\ forall u, u ∈ extract_product_urls_from_category html ->
       product_route u
       /\ exists href,
            u = absolute href /\ href <> []
            /\ match BeautifulSoup with
               | Some parser => Some href ∈ select_links (parser html)
               | None => href ∈ finditer false A_HREF_RE html
               end.
Proof. apply category_urls. Qed.
End CategoryLinks.

Section SearchVivino.
Context {U : Unicode} {P : Urllib}.

Lemma wine_links (html : str) :
  NoDup (Vivino._extract_all_vivino_links_from_bing html)
  /\ forall u, u ∈ Vivino._extract_all_vivino_links_from_bing html ->
       exists h,
         u = default h (without_query h)
         /\ h ∈ finditer false BING_LINK_RE html
         /\ vivino_link h
         /\ contains (py "/wines/") h = true.
Proof.
  unfold Vivino._extract_all_vivino_links_from_bing. cbv zeta.
  split; [apply fromkeys_NoDup|]. intros u.
  rewrite fromkeys_elem, list_elem_of_In, in_map_iff.
  intros (h & <- & [Hin Hw]%filter_In). exists h.
  apply list_elem_of_In in Hin. repeat split; try assumption.
  apply finditer_from_sound in Hin as (p0 & s1 & p' & s' & g' & Hm & ->).
  now apply BING_LINK_RE_sound in Hm as (h' & -> & Hl).
Qed.

(** X20.  The candidates read off a page of the search engine are links
    to the rating site that hold [/wines/]: each is a quoted address after
    [<a href=], with scheme http or https and the word vivino in it, cut
    down to scheme, host and path where [urllib] can split it; none comes
    twice. *)
Theorem bing_candidates_are_wine_links (html : str) :
  NoDup (Vivino._extract_all_vivino_links_from_bing html)
  /\ forall u, u ∈ Vivino._extract_all_vivino_links_from_bing html ->
       exists h,
         u = default h (without_query h)
         /\ h ∈ finditer false BING_LINK_RE html
         /\ vivino_link h
         /\ contains (py "/wines/") h = true.
Proof. apply wine_links. Qed.

Lemma wine_paths (vhtml : str) :
  NoDup (Vivino.vivino_search_links vhtml)
  /\ forall u, u ∈ Vivino.vivino_search_links vhtml ->
       exists p,
         u = urljoin (py "https://www.vivino.com") p
         /\ p ∈ finditer false WINES_HREF_RE vhtml
         /\ wine_path p.
Proof.
  unfold Vivino.vivino_search_links.
  split; [apply fromkeys_NoDup|]. intros u.
  rewrite fromkeys_elem, list_elem_of_In, in_map_iff.
  intros (p & <- & Hin). exists p.
  apply list_elem_of_In in Hin. repeat split; try assumption.
  apply finditer_from_sound in Hin as (p0 & s1 & p' & s' & g' & Hm & ->).
  now apply WINES_HREF_RE_sound in Hm as (h' & -> & Hl).
Qed.

(** X21.  The candidates read off a page of the site's own search are
    the paths under [/wines/] that follow [href=], without query and
    fragment, joined to the address of the site; none comes twice. *)
Theorem search_candidates_are_wine_paths (vhtml : str) :
  NoDup (Vivino.vivino_search_links vhtml)
  /\ forall u, u ∈ Vivino.vivino_search_links vhtml ->
       exists p,
         u = urljoin (py "https://www.vivino.com") p
         /\ p ∈ finditer false WINES_HREF_RE vhtml
         /\ wine_path p.
Proof. apply wine_paths. Qed.
End SearchVivino.

(** The patterns on some markup. *)
Example bing_links_found :
  @Vivino._extract_all_vivino_links_from_bing ascii_unicode (plain_urllib [])
    (py "<li><a href=" ++ [QUOTE] ++ py "https://www.vivino.com/wines/1"
     ++ [QUOTE] ++ py ">Merlot</a> <a href=" ++ [QUOTE]
     ++ py "https://www.vivino.com/users/2" ++ [QUOTE] ++ py "> <a href="
     ++ [QUOTE] ++ py "https://www.vivino.com/wines/1" ++ [QUOTE] ++ py ">")
  = [py "https://www.vivino.com/wines/1"].
Proof. vm_compute. reflexivity. Qed.

Example search_links_found :
  @Vivino.vivino_search_links ascii_unicode (plain_urllib [])
    (py "<a href=" ++ [QUOTE] ++ py "/wines/17" ++ [QUOTE] ++ py "> <a href="
     ++ [QUOTE] ++ py "/wines/18?year=2019" ++ [QUOTE] ++ py "> <a href="
     ++ [QUOTE] ++ py "/wines/17" ++ [QUOTE] ++ py ">")
  = [py "https://www.vivino.com/wines/17"].
Proof. vm_compute. reflexivity. Qed.

Example category_links_found :
  @extract_product_urls_from_category ascii_unicode (page_library None)
    (plain_urllib [])
    (py "<a class=x href=" ++ [QUOTE] ++ py "/merlot-2019" ++ [QUOTE]
     ++ py "> <a  href=" ++ [QUOTE] ++ py "/checkout/cart" ++ [QUOTE]
     ++ py "> <a id=y href=" ++ [QUOTE] ++ py "https://example.com/a-b"
     ++ [QUOTE] ++ py "> <a  href=" ++ [QUOTE] ++ py "/merlot-2019" ++ [QUOTE]
     ++ py ">")
  = [py "https://www.the-importer.co.il/merlot-2019"].
Proof. vm_compute. reflexivity. Qed.

(** *** The query *)

Lemma starts_with_split (p s : str) :
  starts_with p s = true -> exists rest, s = p ++ rest.
Proof.
  revert s. induction p as [|a p IH]; intros s; [now exists s|].
  destruct s as [|b s]; [discriminate|]. cbn.
  intros [Hab Hp]%andb_prop. apply Z.eqb_eq in Hab as ->.
  destruct (IH s Hp) as [rest ->]. now exists rest.
Qed.

Lemma contains_split (needle hay : str) :
  contains needle hay = true -> exists x y, hay = x ++ needle ++ y.
Proof.
  induction hay as [|c hay IH]; cbn.
  - rewrite orb_false_r. intros [rest E]%starts_with_split. now exists [], rest.
  - intros [H | H]%orb_prop.
    + apply starts_with_split in H as [rest E]. now exists [], rest.
    + destruct (IH H) as (x & y & ->). now exists (c :: x), y.
Qed.

(** A text that does not hold a word holds no phrase with the word in it. *)
Lemma contains_longer (k a b s : str) :
  contains k s = false -> contains (a ++ k ++ b) s = false.
Proof.
  intros H. destruct (contains (a ++ k ++ b) s) eqn:E; [|reflexivity].
  apply contains_split in E as (x & y & ->).
  rewrite <- H. symmetry.
  replace (x ++ (a ++ k ++ b) ++ y) with ((x ++ a) ++ k ++ (b ++ y))
    by (now rewrite <- !app_assoc).
  apply contains_app.
Qed.

Lemma contains_nil (p : str) : p <> [] -> contains p [] = false.
Proof. destruct p; [congruence | reflexivity]. Qed.

Lemma starts_with_cons_inv (p : str) (c : Z) (s : str) :
  p <> [] -> starts_with p (c :: s) = true ->
  exists p', p = c :: p' /\ starts_with p' s = true.
Proof.
  destruct p as [|x p]; [congruence|]. cbn. intros _ [Hx Hp]%andb_prop.
  apply Z.eqb_eq in Hx as ->. now exists p.
Qed.

Section Replace.
Variables old new : str.

Lemma replace_from_skip (s : str) :
  forall k, replace_from old new k s = replace_from old new 0 (drop k s).
Proof.
  induction s as [|c s IH]; intros [|k]; try reflexivity.
  cbn [replace_from drop]. apply IH.
Qed.

(** Where [old] does not occur nothing is replaced. *)
Lemma replace_from_absent (s : str) :
  contains old s = false -> replace_from old new 0 s = s.
Proof.
  induction s as [|c s IH]; [reflexivity|]. cbn [contains replace_from].
  intros [H1 H2]%orb_false_elim. rewrite H1. f_equal. now apply IH.
Qed.

Hypothesis new_nonempty : new <> [].
Hypothesis disjoint : forall c, c ∈ old -> c ∉ new.

Lemma replace_from_prefix (s : str) :
  forall p, (forall c, c ∈ p -> c ∉ new) ->
            starts_with p (replace_from old new 0 s) = true ->
            starts_with p s = true.
Proof.
  induction s as [|c s IH]; intros p Hp; [auto|]. cbn [replace_from].
  destruct p as [|x p]; [reflexivity|].
  destruct (starts_with old (c :: s)) eqn:E.
  - destruct new as [|n new'] eqn:En; [congruence|]. cbn.
    intros [Hx _]%andb_prop. apply Z.eqb_eq in Hx as ->.
    exfalso. apply (Hp n); left.
  - cbn. intros [Hx Hrest]%andb_prop. rewrite Hx. cbn.
    apply IH; [|exact Hrest]. intros c' Hc'. apply Hp. now right.
Qed.

Lemma contains_after_new (x : str) :
  old <> [] -> contains old (new ++ x) = contains old x.
Proof.
  intros Hold. destruct old as [|o old'] eqn:Eo; [congruence|].
  assert (Ho : o ∉ new) by (apply disjoint; left).
  clear new_nonempty. induction new as [|n new' IH]; [reflexivity|].
  cbn [app contains starts_with].
  replace (o =? n) with false.
  2:{ symmetry. apply Z.eqb_neq. intros ->. apply Ho. left. }
  cbn [andb orb]. apply IH.
  - intros c Hc Hin. apply (disjoint c Hc). now right.
  - intros Hin. apply Ho. now right.
Qed.

(** Once replaced, [old] occurs no more. *)
Lemma replace_from_kills (n : nat) :
  old <> [] ->
  forall s, (length s <= n)%nat ->
            contains old (replace_from old new 0 s) = false.
Proof.
  intros Hold. induction n as [|n IH]; intros s Hlen.
  - destruct s; [|cbn in Hlen; lia]. now apply contains_nil.
  - destruct s as [|c s]; [now apply contains_nil|].
    cbn [replace_from]. destruct (starts_with old (c :: s)) eqn:E.
    + rewrite contains_after_new by exact Hold.
      rewrite replace_from_skip. apply IH.
      rewrite length_drop. cbn in Hlen. lia.
    + cbn [contains]. rewrite (IH s) by (cbn in Hlen; lia).
      rewrite orb_false_r.
      destruct (starts_with old (c :: replace_from old new 0 s)) eqn:E';
        [|reflexivity].
      apply starts_with_cons_inv in E' as (p' & Hp & Hrest); [|exact Hold].
      apply replace_from_prefix in Hrest.
      * rewrite Hp in E. cbn in E. rewrite Z.eqb_refl, Hrest in E. discriminate.
      * intros c' Hc'. apply disjoint. rewrite Hp. now right.
Qed.
End Replace.

Lemma replace_nonempty (old new s : str) :
  old <> [] -> replace old new s = replace_from old new 0 s.
Proof. destruct old; [congruence | reflexivity]. Qed.

(** A phrase of the table that holds an earlier word of the table is never
    found: the word has been replaced before the phrase is looked for. *)
Lemma phrase_after_word (word en phrase en' a b s : str) :
  word <> [] -> en <> [] -> (forall c, c ∈ word -> c ∉ en) ->
  phrase = a ++ word ++ b ->
  replace phrase en' (replace word en s) = replace word en s.
Proof.
  intros Hw He Hd ->.
  assert (Hp : a ++ word ++ b <> []).
  { destruct a; [destruct word; [congruence | discriminate] | discriminate]. }
  rewrite (replace_nonempty (a ++ word ++ b)) by exact Hp.
  apply replace_from_absent, contains_longer.
  rewrite replace_nonempty by exact Hw.
  now apply (replace_from_kills word en He Hd (length s)).
Qed.

Section Query.
Context {U : Unicode}.

Lemma translate_app (t1 t2 : list (str * str)) (name : str) :
  Vivino.translate (t1 ++ t2) name = Vivino.translate t2 (Vivino.translate t1 name).
Proof. apply fold_left_app. Qed.

Lemma chars_apart (a b : str) :
  forallb (fun c => negb (existsb (Z.eqb c) b)) a = true ->
  forall c, c ∈ a -> c ∉ b.
Proof.
  intros H c Hc Hb. rewrite forallb_forall in H.
  apply list_elem_of_In in Hc. specialize (H c Hc).
  apply negb_true_iff in H.
  assert (existsb (Z.eqb c) b = true); [|congruence].
  apply existsb_exists. exists c. split; [now apply list_elem_of_In|].
  apply Z.eqb_refl.
Qed.

Lemma translate_live (name : str) :
  Vivino.translate HEB_TOKEN_MAP name = Vivino.translate live_entries name.
Proof.
  set (syrah := ([1505; 1497; 1512; 1492], py "Syrah")).
  set (petite := ([1508; 1496; 1497; 1496; 32; 1505; 1497; 1512; 1492],
                  py "Petite Sirah")).
  set (reserva := ([1512; 1494; 1512; 1489; 1492], py "Reserva")).
  set (gran := ([1490; 1512; 1488; 1503; 32; 1512; 1494; 1512; 1489; 1492],
                py "Gran Reserva")).
  set (A := take 23 HEB_TOKEN_MAP).
  set (B := take 7 (drop 25 HEB_TOKEN_MAP)).
  set (C := drop 34 HEB_TOKEN_MAP).
  assert (E1 : HEB_TOKEN_MAP = A ++ [syrah; petite] ++ B ++ [reserva; gran] ++ C)
    by reflexivity.
  assert (E2 : live_entries = A ++ [syrah] ++ B ++ [reserva] ++ C)
    by reflexivity.
  assert (H1 : forall s, Vivino.translate [syrah; petite] s
                         = Vivino.translate [syrah] s).
  { intros s. cbn [Vivino.translate fold_left].
    apply (phrase_after_word _ _ _ _ [1508; 1496; 1497; 1496; 32] []);
      [discriminate | discriminate | | reflexivity].
    apply chars_apart. reflexivity. }
  assert (H2 : forall s, Vivino.translate [reserva; gran] s
                         = Vivino.translate [reserva] s).
  { intros s. cbn [Vivino.translate fold_left].
    apply (phrase_after_word _ _ _ _ [1490; 1512; 1488; 1503; 32] []);
      [discriminate | discriminate | | reflexivity].
    apply chars_apart. reflexivity. }
  etransitivity;
    [exact (f_equal (fun t => Vivino.translate t name) E1)|].
  etransitivity;
    [|exact (f_equal (fun t => Vivino.translate t name) (eq_sym E2))].
  rewrite !translate_app. now rewrite H1, H2.
Qed.

(** X22.  Two entries of the translation table never take effect.  The
    phrases for [Petite Sirah] and [Gran Reserva] come in the table after
    the words for [Syrah] and [Reserva], which they end with; the word is
    replaced first, so the phrase is never found: for every name the query
    is the one the table without the two entries gives. *)
Theorem phrases_after_their_word_are_dead (name : str) :
  Vivino.translate HEB_TOKEN_MAP name = Vivino.translate live_entries name
  /\ length live_entries = 34%nat
  /\ (exists pre,
        fst <$> HEB_TOKEN_MAP !! 23%nat = Some [1505; 1497; 1512; 1492]
        /\ fst <$> HEB_TOKEN_MAP !! 24%nat = Some (pre ++ [1505; 1497; 1512; 1492])
        /\ snd <$> HEB_TOKEN_MAP !! 24%nat = Some (py "Petite Sirah"))
  /\ (exists pre,
        fst <$> HEB_TOKEN_MAP !! 32%nat = Some [1512; 1494; 1512; 1489; 1492]
        /\ fst <$> HEB_TOKEN_MAP !! 33%nat
           = Some (pre ++ [1512; 1494; 1512; 1489; 1492])
        /\ snd <$> HEB_TOKEN_MAP !! 33%nat = Some (py "Gran Reserva"))
  /\ Vivino._he_to_en_query name
     = strip (sub_spaces false
                (map (fun c => if is_quote c then 32 else c)
                   (Vivino.translate live_entries name))).
Proof.
  split; [apply translate_live|]. split; [reflexivity|].
  split; [exists [1508; 1496; 1497; 1496; 32]; repeat split|].
  split; [exists [1490; 1512; 1488; 1503; 32]; repeat split|].
  unfold Vivino._he_to_en_query. cbv zeta. now rewrite translate_live.
Qed.

Lemma Forall_sub_spaces (Q : Z -> Prop) (b : bool) (s : str) :
  Q 32 -> Forall Q s -> Forall Q (sub_spaces b s).
Proof.
  intros H32 Hs. revert b. induction Hs as [|x s Hx Hs IH]; intros b; cbn.
  - constructor.
  - destruct (isspace x); [destruct b|]; auto.
Qed.

Lemma Forall_lstrip (Q : Z -> Prop) (s : str) : Forall Q s -> Forall Q (lstrip s).
Proof.
  intros Hs. induction Hs as [|x s Hx Hs IH]; cbn; [constructor|].
  destruct (isspace x); auto.
Qed.

Lemma Forall_rstrip (Q : Z -> Prop) (s : str) : Forall Q s -> Forall Q (rstrip s).
Proof.
  intros Hs. induction Hs as [|x s Hx Hs IH]; cbn; [constructor|].
  destruct (isspace x && bool_decide (rstrip s = [])); auto.
Qed.

(** X23.  The query holds no quote, so the phrase the search engine is
    given between double quotes cannot be closed early; and it is tidy: no
    whitespace at either end, single spaces inside. *)
Theorem query_has_no_quotes (name : str) :
  Forall (fun c => is_quote c = false) (Vivino._he_to_en_query name)
  /\ spaced false (Vivino._he_to_en_query name) = true
  /\ match head (Vivino._he_to_en_query name) with
     | Some x => isspace x = false
     | None => True
     end
  /\ match last (Vivino._he_to_en_query name) with
     | Some x => isspace x = false
     | None => True
     end.
Proof.
  unfold Vivino._he_to_en_query. cbv zeta.
  set (q := map _ (Vivino.translate HEB_TOKEN_MAP name)).
  split; [|split; [|split]].
  - unfold strip. apply Forall_rstrip, Forall_lstrip, Forall_sub_spaces;
      [reflexivity|].
    subst q. apply Forall_forall. intros c Hc.
    apply list_elem_of_In, in_map_iff in Hc as [x [<- _]].
    destruct (is_quote x) eqn:E; [reflexivity | exact E].
  - eapply strip_spaced, sub_spaces_spaced.
  - unfold strip.
    pose proof (rstrip_head _ (lstrip_head (sub_spaces false q))) as H.
    destruct (rstrip _); [exact I | exact H].
  - unfold strip. apply rstrip_last.
Qed.

Lemma translate_absent (table : list (str * str)) (name : str) :
  Forall (fun entry => entry.1 <> [] /\ contains entry.1 name = false) table ->
  Vivino.translate table name = name.
Proof.
  intros H. induction H as [|[he en] table [Hne Hc] _ IH]; [reflexivity|].
  cbn [Vivino.translate fold_left fst snd] in *.
  rewrite replace_nonempty by exact Hne.
  rewrite replace_from_absent by exact Hc. exact IH.
Qed.

(** X24.  A name that holds no word of the table is not translated: its
    query is the name with its quotes turned into spaces and its whitespace
    tidied. *)
Theorem query_of_untranslated_name (name : str) :
  Forall (fun entry => contains entry.1 name = false) HEB_TOKEN_MAP ->
  Vivino._he_to_en_query name
  = strip (sub_spaces false (map (fun c => if is_quote c then 32 else c) name)).
Proof.
  intros H. unfold Vivino._he_to_en_query. cbv zeta.
  rewrite translate_absent; [reflexivity|].
  assert (Hne : Forall (fun entry : str * str => entry.1 <> []) HEB_TOKEN_MAP).
  { repeat constructor; discriminate. }
  apply Forall_forall. intros entry Hin. split.
  - exact (proj1 (Forall_forall _ _) Hne entry Hin).
  - exact (proj1 (Forall_forall _ _) H entry Hin).
Qed.
End Query.

Lemma query_of_untranslated_name_witness :
  Forall (fun entry => contains entry.1 (py "Chateau d'Yquem  2015") = false)
    HEB_TOKEN_MAP
  /\ Vivino._he_to_en_query (py "Chateau d'Yquem  2015")
     = strip (sub_spaces false
                (map (fun c => if is_quote c then 32 else c)
                   (py "Chateau d'Yquem  2015"))).
Proof.
  assert (H1 : Forall (fun entry => contains entry.1 (py "Chateau d'Yquem  2015")
                                    = false) HEB_TOKEN_MAP)
    by (repeat constructor).
  split; [exact H1|].
  exact (query_of_untranslated_name (py "Chateau d'Yquem  2015") H1).
Defined.

(** The translation on some names. *)
Example query_translated :
  Vivino._he_to_en_query
    ([1497; 1512; 1491; 1503; 32; 1502; 1512; 1500; 1493; 32] ++ py "2019")
  = py "Yarden Merlot 2019".
Proof. vm_compute. reflexivity. Qed.

Example query_gran_reserva :
  Vivino._he_to_en_query [1490; 1512; 1488; 1503; 32; 1512; 1494; 1512; 1489; 1492]
  = [1490; 1512; 1488; 1503; 32] ++ py "Reserva".
Proof. vm_compute. reflexivity. Qed.

(** *** The crawl of a category page and the pages a match comes from *)

Section CategoryPage.
Context {U : Unicode} {L : Library} {P : Urllib}.

(** X25.  [fetch_category_page] makes one request, to the address of the
    category for page 1 and to that address with the page number as query
    for any other page.  It hands the page number back; the addresses it
    returns are product routes of the site, each once; and it returns none
    when the request fails or the page is empty. *)
Theorem fetch_category_page_one_request (page : Z) (w : world) :
  (fetch_category_page page w).1.1 = page
  /\ requested (trace (fetch_category_page page w).2)
     = requested (trace w)
       ++ [if page =? 1 then CATEGORY_URL
           else CATEGORY_URL ++ py "?p=" ++ decimal page]
  /\ (fetch_category_page page w).1.2
     = match body_of (answers w 0%nat) with
       | None | Some [] => []
       | Some html => extract_product_urls_from_category html
       end
  /\ NoDup (fetch_category_page page w).1.2
  /\ forall u, u ∈ (fetch_category_page page w).1.2 -> product_route u.
Proof.
  unfold fetch_category_page. cbv zeta. rewrite fetch_text_trace.
  cbn [fst snd trace]. rewrite requested_get, requested_sleep.
  split; [reflexivity|]. split; [reflexivity|]. split; [reflexivity|]. split.
  - destruct (body_of (answers w 0%nat)) as [[|c html]|];
      [apply NoDup_nil_2 | | apply NoDup_nil_2].
    apply category_urls.
  - intros u. destruct (body_of (answers w 0%nat)) as [[|c html]|];
      try (intros H; now apply elem_of_nil in H).
    intros H. now apply category_urls in H.
Qed.
End CategoryPage.

Section MatchAddress.
Context {U : Unicode} {P : Urllib}.

Lemma lookup_candidates (wine_name : str) (w : world) :
  vivino_cache w !! strip wine_name = None ->
  exists urls w1,
    vivino_lookup (X := Vivino.helpers) wine_name w
      = scan_candidates (strip wine_name) (take 3 urls) w1
    /\ (urls = []
        \/ (exists html, urls = Vivino._extract_all_vivino_links_from_bing html)
        \/ (exists vhtml, urls = Vivino.vivino_search_links vhtml)).
Proof.
  intros Hmiss. unfold vivino_lookup. rewrite Hmiss.
  destruct (fetch_text BING_SEARCH_URL _ _ _ w) as [html w1].
  cbn [_extract_all_vivino_links_from_bing vivino_search_links Vivino.helpers].
  match goal with
  | |- context [match ?l with [] => _ | _ :: _ => _ end] =>
      destruct l as [|link links] eqn:El
  end.
  - destruct (_fetch_vivino_search_with_backoff _ w1) as [vhtml w2].
    destruct vhtml as [[|c v]|]; eauto 10.
  - exists (link :: links), w1. split; [reflexivity|]. right. left.
    destruct html as [[|c html]|]; try discriminate. eauto.
Qed.

(** X26.  With the helpers of the program, the address of a match comes
    from a link to a wine page: it is what [urllib] leaves of a link [h] of
    the search engine's page, where [h] has scheme http or https, the word
    vivino and [/wines/] in it; or it is a path under [/wines/] of the
    site's own search, joined to the address of the site.  The form is that
    of the link as the page has it, not of the address after [urllib]. *)
Theorem match_address_comes_from_wine_link
    (wine_name : str) (w : world) (res : match_result) :
  vivino_cache w !! strip wine_name = None ->
  (vivino_lookup (X := Vivino.helpers) wine_name w).1 = Some res ->
  (exists h, vivino_url res = default h (without_query h)
             /\ vivino_link h /\ contains (py "/wines/") h = true)
  \/ (exists p, vivino_url res = urljoin (py "https://www.vivino.com") p
                /\ wine_path p).
Proof.
  intros Hmiss Hres.
  destruct (lookup_candidates wine_name w Hmiss) as (urls & w1 & Hl & Hurls).
  rewrite Hl in Hres.
  apply scan_candidates_some in Hres as (_ & _ & _ & Hin & _).
  apply (subseteq_take 3 urls) in Hin.
  destruct Hurls as [-> | [[html ->] | [vhtml ->]]].
  - now apply elem_of_nil in Hin.
  - left. apply wine_links in Hin as (h & Hu & _ & Hl' & Hw). eauto.
  - right. apply wine_paths in Hin as (p & Hu & _ & Hp). eauto.
Qed.
End MatchAddress.

Lemma match_address_comes_from_wine_link_witness :
  vivino_cache linked_world !! @strip ascii_unicode (py "Yarden Merlot") = None
  /\ (@vivino_lookup ascii_unicode
        (@Vivino.helpers ascii_unicode (plain_urllib []))
        (py "Yarden Merlot") linked_world).1 = Some merlot_match
  /\ ((exists h, vivino_url merlot_match
                 = default h (@without_query (plain_urllib []) h)
                 /\ vivino_link h /\ contains (py "/wines/") h = true)
      \/ (exists p, vivino_url merlot_match
                    = @urljoin (plain_urllib []) (py "https://www.vivino.com") p
                    /\ wine_path p)).
Proof.
  assert (H1 : vivino_cache linked_world
                 !! @strip ascii_unicode (py "Yarden Merlot") = None)
    by reflexivity.
  assert (H2 : (@vivino_lookup ascii_unicode
                  (@Vivino.helpers ascii_unicode (plain_urllib []))
                  (py "Yarden Merlot") linked_world).1 = Some merlot_match)
    by (vm_compute; reflexivity).
  repeat (split; [assumption|]).
  exact (@match_address_comes_from_wine_link ascii_unicode (plain_urllib [])
           (py "Yarden Merlot") linked_world merlot_match H1 H2).
Defined.

(** ** The size rule, the rating rule and the cache in full *)

(** *** The two steps of the size rule, said in full *)

Lemma span_snd_head (p : Z -> bool) (s : str) :
  match (span p s).2 with c :: _ => p c = false | [] => True end.
Proof.
  induction s as [|x s IH]; [exact I|]. cbn.
  destruct (p x) eqn:E; [|exact E].
  destruct (span p s) as [a b]. exact IH.
Qed.

Lemma span_parts (p : Z -> bool) (s : str) : s = (span p s).1 ++ (span p s).2.
Proof.
  induction s as [|x s IH]; [reflexivity|]. cbn.
  destruct (p x); [|reflexivity].
  destruct (span p s) as [a b]. cbn in *. now rewrite IH at 1.
Qed.

Lemma span_fst_all (p : Z -> bool) (s : str) : forallb p (span p s).1 = true.
Proof.
  induction s as [|x s IH]; [reflexivity|]. cbn.
  destruct (p x) eqn:E; [|reflexivity].
  destruct (span p s) as [a b]. cbn in *. now rewrite E, IH.
Qed.

Section FirstNumber.
Context {U : Unicode}.

Lemma ML_NUMBER_RE_needs_two (prev : option Z) (s : str) :
  two_digits s = false -> match_here false ML_NUMBER_RE prev s = None.
Proof.
  unfold match_here, ML_NUMBER_RE. cbn [rmatch].
  destruct s as [|x [|y s]]; cbn.
  - reflexivity.
  - intros _. now destruct (is_digit x).
  - intros H. destruct (is_digit x); [|reflexivity]. cbn in H. rewrite H.
    reflexivity.
Qed.

(** The search finds the first bare number. *)
Lemma search_first_bare_number (cleaned ds : str) :
  first_bare_number cleaned ds ->
  exists post, search false ML_NUMBER_RE cleaned
               = Some {| group1 := ds; after := post |}.
Proof.
  intros (pre & post & -> & Hpre & Hds & Hlen & Hend). exists post.
  unfold search. rewrite search_from_skip.
  - apply search_from_here. now apply ML_NUMBER_RE_here.
  - intros p1 p2 q Hp Hp2. apply ML_NUMBER_RE_needs_two. now apply (Hpre p1 p2).
Qed.

(** Where two digits stand together a bare number starts. *)
Lemma two_digits_run (s : str) :
  two_digits s = true ->
  exists ds post,
    s = ds ++ post
    /\ forallb is_digit ds = true /\ (2 <= length ds <= 5)%nat
    /\ (length ds = 5%nat
        \/ match post with c :: _ => is_digit c = false | [] => True end).
Proof.
  intros H2.
  pose proof (span_parts is_digit s) as Hs.
  pose proof (span_fst_all is_digit s) as Hrun.
  pose proof (span_snd_head is_digit s) as Hrest.
  assert (Hlen : (2 <= length (span is_digit s).1)%nat).
  { destruct s as [|x [|y s]]; try discriminate. cbn in H2.
    apply andb_prop in H2 as [Hx Hy]. cbn [span]. rewrite Hx, Hy.
    destruct (span is_digit s) as [a b]. cbn. lia. }
  destruct (span is_digit s) as [run rest]. cbn [fst snd] in *.
  exists (take 5 run), (drop 5 run ++ rest).
  split; [now rewrite app_assoc, take_drop|].
  split.
  { rewrite <- (take_drop 5 run), forallb_app in Hrun.
    now apply andb_prop in Hrun as [Hrun _]. }
  split; [rewrite length_take; lia|].
  destruct (decide (5 <= length run)%nat) as [H5 | H5].
  - left. rewrite length_take. lia.
  - right. rewrite drop_ge by lia. exact Hrest.
Qed.

(** A text that holds a bare number has a first one. *)
Lemma bare_number_first (cleaned ds : str) :
  bare_number cleaned ds -> exists ds', first_bare_number cleaned ds'.
Proof.
  intros (pre & post & -> & Hds & Hlen).
  induction pre as [|x pre IH].
  - cbn [app].
    assert (H2 : two_digits (ds ++ post) = true).
    { destruct ds as [|a [|b ds]]; cbn in Hlen; try lia. cbn in Hds |- *.
      apply andb_prop in Hds as [Ha Hds]. apply andb_prop in Hds as [Hb _].
      now rewrite Ha, Hb. }
    destruct (two_digits_run _ H2) as (ds' & post' & E & Hds' & Hlen' & Hend').
    exists ds', [], post'. split; [exact E|]. split; [|auto].
    intros p1 p2 Hp Hp2. destruct p1; destruct p2; try discriminate. congruence.
  - destruct (two_digits ((x :: pre) ++ ds ++ post)) eqn:H2.
    + destruct (two_digits_run _ H2) as (ds' & post' & E & Hds' & Hlen' & Hend').
      exists ds', [], post'. split; [exact E|]. split; [|auto].
      intros p1 p2 Hp Hp2. destruct p1; destruct p2; try discriminate. congruence.
    + destruct IH as (ds' & pre' & post' & E & Hpre' & Hrest).
      exists ds', (x :: pre'), post'. split; [cbn [app]; now rewrite E|].
      split; [|exact Hrest].
      intros p1 p2 Hp Hp2. destruct p1 as [|y p1].
      * cbn in Hp. subst p2. cbn [app] in H2 |- *. now rewrite <- E.
      * injection Hp as -> Hp. now apply (Hpre' p1 p2).
Qed.

End FirstNumber.

(** The first bare number decides even when a later one would do. *)
Example first_bare_number_12 :
  first_bare_number (py "12 bottles of 750") (py "12").
Proof.
  exists [], (py " bottles of 750"). split; [reflexivity|].
  split; [|split; [reflexivity | split; [cbn; lia | right; reflexivity]]].
  intros p1 p2 Hp Hp2. destruct p1; destruct p2; try discriminate. congruence.
Qed.

(** *** What the two rating patterns find *)

Lemma starts_with_stop (l a : str) (c : Z) (b : str) :
  c ∉ l -> starts_with l (a ++ c :: b) = true -> starts_with l a = true.
Proof.
  revert a. induction l as [|x l IH]; intros a Hc; [reflexivity|].
  destruct a as [|y a]; cbn.
  - intros [Hx _]%andb_prop. apply Z.eqb_eq in Hx as ->.
    exfalso. apply Hc. left.
  - intros [Hx Hl]%andb_prop. rewrite Hx. cbn. apply IH; [|exact Hl].
    intros Hin. apply Hc. now right.
Qed.

Lemma contains_suffix (l p s : str) :
  starts_with l s = true -> contains l (p ++ s) = true.
Proof.
  intros H. induction p as [|x p IH]; [now apply contains_prefix|].
  cbn. rewrite IH. apply orb_true_r.
Qed.

Section RatingPatterns.
Context {U : Unicode}.

Lemma Lits_here {A} (l : str) :
  forall (prev : option Z) (s : str) (g : option str)
         (k : option Z -> str -> option str -> option A),
    l <> [] ->
    rmatch false (Lits l) prev (l ++ s) g k = k (prev_after prev l) s g.
Proof.
  induction l as [|c l IH]; intros prev s g k Hne; [congruence|].
  destruct l as [|c' l].
  - cbn. now rewrite Z.eqb_refl.
  - cbn [Lits rmatch app lit_eq]. rewrite Z.eqb_refl.
    apply (IH (Some c) s g k). discriminate.
Qed.

Lemma Lits_fail {A} (l : str) :
  forall (prev : option Z) (s : str) (g : option str)
         (k : option Z -> str -> option str -> option A),
    l <> [] -> starts_with l s = false ->
    rmatch false (Lits l) prev s g k = None.
Proof.
  induction l as [|c l IH]; intros prev s g k Hne Hs; [congruence|].
  destruct s as [|x s]; [now destruct l|].
  cbn in Hs. destruct l as [|c' l].
  - cbn. rewrite andb_true_r in Hs. rewrite Z.eqb_sym. now rewrite Hs.
  - cbn [Lits rmatch lit_eq]. rewrite Z.eqb_sym.
    destruct (c =? x); [|reflexivity]. cbn in Hs.
    apply IH; [discriminate | exact Hs].
Qed.

(** A greedy repetition gives characters back until what follows matches:
    when it fails after every longer stretch, the first stretch after which
    it matches is taken. *)
Lemma rep_fails_inside {A} (p : Z -> bool) (b : str) :
  forall (lo : nat) (prev : option Z) (s' : str)
         (k : option Z -> str -> option A),
    forallb p b = true ->
    match s' with x :: _ => p x = false | [] => True end ->
    (forall b1 b2, b = b1 ++ b2 -> b1 <> [] ->
                   k (prev_after prev b1) (b2 ++ s') = None) ->
    rep p lo None prev (b ++ s') k
    = if (lo =? 0)%nat then k prev (b ++ s') else None.
Proof.
  induction b as [|x b IH]; intros lo prev s' k Hb Hs' Hfail.
  - cbn [app]. destruct s' as [|y s']; cbn [rep]; [reflexivity|].
    now rewrite Hs'.
  - cbn in Hb. apply andb_prop in Hb as [Hx Hb].
    cbn [app rep]. rewrite Hx. cbn [andb negb fmap option_fmap option_map].
    rewrite (bool_decide_eq_false_2 (None = Some 0%nat)) by discriminate.
    cbn [negb]. rewrite (IH (Nat.pred lo) (Some x) s' k Hb Hs').
    + pose proof (Hfail [x] b eq_refl ltac:(discriminate)) as H0.
      cbn in H0. rewrite H0. now destruct (Nat.pred lo =? 0)%nat.
    + intros b1 b2 -> Hb1. apply (Hfail (x :: b1) b2 eq_refl). discriminate.
Qed.

Lemma rep_backtrack {A} (p : Z -> bool) (a b : str) :
  forall (lo : nat) (prev : option Z) (s' : str)
         (k : option Z -> str -> option A) (r : A),
    forallb p a = true -> forallb p b = true -> (lo <= length a)%nat ->
    match s' with x :: _ => p x = false | [] => True end ->
    (forall b1 b2, b = b1 ++ b2 -> b1 <> [] ->
                   k (prev_after prev (a ++ b1)) (b2 ++ s') = None) ->
    k (prev_after prev a) (b ++ s') = Some r ->
    rep p lo None prev (a ++ b ++ s') k = Some r.
Proof.
  induction a as [|x a IH]; intros lo prev s' k r Ha Hb Hlo Hs' Hfail Hk.
  - cbn in Hlo. assert (lo = 0%nat) as -> by lia. cbn [app].
    rewrite rep_fails_inside; [exact Hk | exact Hb | exact Hs' | exact Hfail].
  - cbn in Ha. apply andb_prop in Ha as [Hx Ha].
    cbn [app rep]. rewrite Hx. cbn [andb negb fmap option_fmap option_map].
    rewrite (bool_decide_eq_false_2 (None = Some 0%nat)) by discriminate.
    cbn [negb].
    rewrite (IH (Nat.pred lo) (Some x) s' k r); try assumption.
    + reflexivity.
    + cbn in Hlo. lia.
Qed.

Lemma rating_char_not_space (c : Z) : rating_char c = true -> isspace c = false.
Proof.
  unfold rating_char, ascii_digit, DOT. intros H.
  rewrite isspace_ascii by (unfold is_ascii; lia). unfold ascii_space. lia.
Qed.

Lemma space_not_brace (ws : str) :
  forallb isspace ws = true -> forallb not_brace ws = true.
Proof.
  apply forallb_impl. intros x Hx. unfold not_brace.
  destruct (x =? 125) eqn:E; [|reflexivity].
  apply Z.eqb_eq in E as ->. now rewrite isspace_ascii in Hx.
Qed.

Lemma rating_char_not_brace (num : str) :
  forallb rating_char num = true -> forallb not_brace num = true.
Proof.
  apply forallb_impl. intros x. unfold rating_char, not_brace, ascii_digit, DOT. lia.
Qed.

Lemma average_tail_here (prev : option Z) (ws3 ws4 num rest : str)
    (g : option str) :
  forallb isspace ws3 = true -> forallb isspace ws4 = true ->
  forallb rating_char num = true -> num <> [] ->
  match rest with c :: _ => rating_char c = false | [] => True end ->
  rmatch false average_tail prev
    (AVERAGE_KEY ++ ws3 ++ [58] ++ ws4 ++ num ++ rest) g
    (fun _ s' g' => Some {| group1 := default [] g'; after := s' |})
  = Some {| group1 := num; after := rest |}.
Proof.
  intros H3 H4 Hnum Hne Hrest. unfold average_tail, Star, Plus.
  cbn [Seq rmatch]. rewrite Lits_here by discriminate.
  apply rep_greedy; try assumption; try (cbn; lia).
  { cbn. now rewrite isspace_ascii. }
  cbn [app rmatch lit_eq]. rewrite Z.eqb_refl.
  apply rep_greedy; try assumption; try (cbn; lia).
  { destruct num as [|c num]; [congruence|]. cbn in Hnum |- *.
    apply andb_prop in Hnum as [Hc _]. now apply rating_char_not_space. }
  apply rep_greedy; try assumption; try (cbn; lia).
  { destruct num; [congruence | cbn; lia]. }
  cbn [default]. now rewrite take_app_exact.
Qed.

Lemma starts_with_nil (l : str) : l <> [] -> starts_with l [] = false.
Proof. destruct l; [congruence | reflexivity]. Qed.

Lemma starts_with_other (q : Z) (l : str) (c : Z) (s : str) :
  c <> q -> starts_with (q :: l) (c :: s) = false.
Proof. intros H. cbn. replace (q =? c) with false by lia. reflexivity. Qed.

Lemma suffix_head (Q : Z -> Prop) (t b1 b2 : str) (c : Z) (s : str) :
  Forall Q t -> t = b1 ++ b2 -> b2 = c :: s -> Q c.
Proof.
  intros Ht -> ->. apply Forall_app in Ht as [_ Ht]. now inversion Ht.
Qed.

(** Inside the key the key does not start again. *)
Lemma average_interior (b1 k0 : str) (c : Z) (rest0 : str) :
  AVERAGE_KEY = b1 ++ k0 -> b1 <> [] -> c <> QUOTE -> c <> 97 ->
  starts_with AVERAGE_KEY (k0 ++ c :: rest0) = false.
Proof.
  intros E Hb1 Hq Ha.
  assert (Hk : k0 = drop (length b1) AVERAGE_KEY).
  { rewrite E. now rewrite drop_app_length. }
  assert (Hlen : (1 <= length b1 <= 9)%nat).
  { apply (f_equal (@length Z)) in E. rewrite length_app in E. cbn in E.
    destruct b1; [congruence | cbn in *; lia]. }
  unfold QUOTE in Hq. rewrite Hk.
  change AVERAGE_KEY with [34; 97; 118; 101; 114; 97; 103; 101; 34].
  destruct (length b1) as [|[|[|[|[|[|[|[|[|[|n]]]]]]]]]]; try lia;
    cbn [drop app starts_with]; try reflexivity.
  - replace (97 =? c) with false by lia. reflexivity.
  - replace (34 =? c) with false by lia. reflexivity.
Qed.

(** Between the key and the closing brace the key starts once. *)
Lemma average_starts_once (ws3 ws4 num r1 r2 : str) :
  forallb isspace ws3 = true -> forallb isspace ws4 = true ->
  forallb rating_char num = true ->
  match r2 with c :: _ => c = 125 | [] => True end ->
  (forall p1 p2, r1 = p1 ++ p2 -> p2 <> [] ->
                 starts_with AVERAGE_KEY (p2 ++ r2) = false) ->
  forall b1 b2,
    AVERAGE_KEY ++ ws3 ++ [58] ++ ws4 ++ num ++ r1 = b1 ++ b2 -> b1 <> [] ->
    starts_with AVERAGE_KEY (b2 ++ r2) = false.
Proof.
  intros H3 H4 Hnum Hr2 Hr1.
  set (X := ws3 ++ [58] ++ ws4 ++ num).
  assert (HX : Forall (fun c => c <> QUOTE /\ c <> 97) X).
  { assert (Hsp : forall ws, forallb isspace ws = true ->
                             Forall (fun c => c <> QUOTE /\ c <> 97) ws).
    { intros ws Hws. apply Forall_forall. intros c Hc.
      rewrite forallb_forall in Hws. apply list_elem_of_In in Hc.
      specialize (Hws c Hc).
      split; intros ->; now rewrite isspace_ascii in Hws. }
    subst X. apply Forall_app_2; [now apply Hsp|].
    apply Forall_app_2; [repeat constructor; unfold QUOTE; lia|].
    apply Forall_app_2; [now apply Hsp|].
    apply Forall_forall. intros c Hc. rewrite forallb_forall in Hnum.
    apply list_elem_of_In in Hc. specialize (Hnum c Hc).
    unfold rating_char, ascii_digit, DOT, QUOTE in *. lia. }
  assert (Hend : starts_with AVERAGE_KEY r2 = false).
  { destruct r2 as [|c r2]; [reflexivity|]. subst c. reflexivity. }
  assert (Hin_r1 : forall p1 p2, r1 = p1 ++ p2 ->
                                 starts_with AVERAGE_KEY (p2 ++ r2) = false).
  { intros p1 p2 E. destruct p2 as [|c p2]; [exact Hend|].
    apply (Hr1 p1); [exact E | discriminate]. }
  assert (Hin_X : forall k k', X = k ++ k' -> k' <> [] ->
                               starts_with AVERAGE_KEY (k' ++ r1 ++ r2) = false).
  { intros k k' E Hk'. destruct k' as [|c k']; [congruence|].
    apply starts_with_other.
    exact (proj1 (suffix_head _ _ _ _ _ _ HX E eq_refl)). }
  assert (Hafter : forall b2 k, X ++ r1 = k ++ b2 ->
                                starts_with AVERAGE_KEY (b2 ++ r2) = false).
  { intros b2 k E. apply app_eq_inv in E as [(k0 & E1 & E2) | (k0 & E1 & E2)].
    - subst b2. destruct k0 as [|c k0]; [now apply (Hin_r1 [])|].
      rewrite <- app_assoc. apply (Hin_X k); [exact E1 | discriminate].
    - now apply (Hin_r1 k0). }
  intros b1 b2 E Hb1. fold X in E.
  replace (ws3 ++ [58] ++ ws4 ++ num ++ r1) with (X ++ r1) in E
    by (subst X; now rewrite <- !app_assoc).
  apply app_eq_inv in E as [(k0 & E1 & E2) | (k0 & E1 & E2)];
    [|now apply (Hafter b2 k0)].
  subst b2. rewrite <- !app_assoc.
  assert (Hhead : match X ++ r1 ++ r2 with
                  | c :: _ => c <> QUOTE /\ c <> 97
                  | [] => True
                  end).
  { subst X. destruct ws3 as [|w ws3].
    - cbn. unfold QUOTE. lia.
    - cbn. inversion HX. assumption. }
  destruct (X ++ r1 ++ r2) as [|c rest0] eqn:Erest.
  { subst X. destruct ws3; discriminate. }
  destruct Hhead as [Hq Ha].
  now apply (average_interior b1 k0).
Qed.

Lemma RATING_JSON_RE_here (prev : option Z)
    (ws1 ws2 mid ws3 ws4 num r1 r2 : str) :
  forallb isspace ws1 = true -> forallb isspace ws2 = true ->
  forallb not_brace mid = true ->
  forallb isspace ws3 = true -> forallb isspace ws4 = true ->
  forallb rating_char num = true -> num <> [] ->
  forallb not_brace r1 = true ->
  match r2 with c :: _ => c = 125 | [] => True end ->
  match r1 ++ r2 with c :: _ => rating_char c = false | [] => True end ->
  (forall p1 p2, r1 = p1 ++ p2 -> p2 <> [] ->
                 starts_with AVERAGE_KEY (p2 ++ r2) = false) ->
  match_here false RATING_JSON_RE prev
    (RATING_KEY ++ ws1 ++ [58] ++ ws2 ++ [123] ++ mid
     ++ AVERAGE_KEY ++ ws3 ++ [58] ++ ws4 ++ num ++ r1 ++ r2)
  = Some {| group1 := num; after := r1 ++ r2 |}.
Proof.
  intros H1 H2 Hmid H3 H4 Hnum Hne Hr1 Hr2 Hend Honce.
  unfold match_here, RATING_JSON_RE, Star, Plus.
  change ([QUOTE] ++ py "rating" ++ [QUOTE]) with RATING_KEY.
  change ([QUOTE] ++ py "average" ++ [QUOTE]) with AVERAGE_KEY.
  cbn [Seq rmatch]. rewrite Lits_here by discriminate.
  apply rep_greedy;
    [assumption | cbn; lia | exact I | cbn; now rewrite isspace_ascii |].
  cbn [app rmatch lit_eq]. rewrite Z.eqb_refl.
  apply rep_greedy;
    [assumption | cbn; lia | exact I | cbn; now rewrite isspace_ascii |].
  cbn [app rmatch lit_eq]. rewrite Z.eqb_refl.
  replace (mid ++ AVERAGE_KEY ++ ws3 ++ 58 :: ws4 ++ num ++ r1 ++ r2)
    with (mid ++ (AVERAGE_KEY ++ ws3 ++ [58] ++ ws4 ++ num ++ r1) ++ r2)
    by (rewrite <- !app_assoc; reflexivity).
  apply (rep_backtrack not_brace).
  - exact Hmid.
  - rewrite !forallb_app. cbn [forallb].
    rewrite (space_not_brace _ H3), (space_not_brace _ H4),
      (rating_char_not_brace _ Hnum). exact Hr1.
  - cbn. lia.
  - destruct r2 as [|c r2]; [exact I|]. now subst c.
  - intros b1 b2 E Hb1. apply Lits_fail; [discriminate|].
    now apply (average_starts_once ws3 ws4 num r1 r2 H3 H4 Hnum Hr2 Honce b1 b2).
  - rewrite <- !app_assoc.
    exact (average_tail_here (prev_after (Some 123) mid) ws3 ws4 num
             (r1 ++ r2) None H3 H4 Hnum Hne Hend).
Qed.

Lemma RATING_JSON_RE_not_here (prev : option Z) (s : str) :
  starts_with RATING_KEY s = false ->
  match_here false RATING_JSON_RE prev s = None.
Proof.
  intros H. unfold match_here, RATING_JSON_RE.
  change ([QUOTE] ++ py "rating" ++ [QUOTE]) with RATING_KEY.
  cbn [Seq rmatch]. apply Lits_fail; [discriminate | exact H].
Qed.
End RatingPatterns.

(** *** What the text pattern finds *)

Lemma lit_ci_other (c x : Z) :
  ascii_lower c = c -> (c < 97 \/ 122 < c) -> lit_eq true c x = true -> x = c.
Proof.
  unfold lit_eq. intros Hc Hr H. apply Z.eqb_eq in H. rewrite Hc in H.
  revert H. unfold ascii_lower. destruct ((65 <=? x) && (x <=? 90)) eqn:E; lia.
Qed.

Section RatingText.
Context {U : Unicode}.

(** A rating in words starts with three characters, which are its text. *)
Lemma rating_text_here_unique (s t t' : str) :
  rating_text_here s t -> rating_text_here s t' -> t = t'.
Proof.
  intros (d1 & d2 & ws & sep & ws' & rest & -> & E & _)
         (e1 & e2 & vs & sep' & vs' & rest' & -> & E' & _).
  rewrite E in E'. cbn in E'. now injection E' as -> ->.
Qed.

Lemma RATING_TEXT_RE_sound (prev : option Z) (s : str)
    (prev' : option Z) (s' : str) (g' : option str) :
  matches true RATING_TEXT_RE prev s None prev' s' g' ->
  exists t, rating_text_here s t /\ g' = Some t.
Proof.
  unfold RATING_TEXT_RE, Star, Opt.
  change (py "out of") with [111; 117; 116; 32; 111; 102].
  cbn [Seq Lits matches].
  intros (p1 & s1 & g1
          & (g0 & (q1 & t1 & h1 & (d1 & -> & Hd1 & -> & ->)
                   & (q2 & t2 & h2 & (dot & -> & Hdot & -> & ->)
                      & (d2 & -> & Hd2 & -> & ->))) & ->)
          & (p2 & s2 & g2 & (ws & -> & Hws & _ & _ & -> & ->)
             & (p3 & s3 & g3 & Hsep
                & (p4 & s4 & g4 & (ws' & -> & Hws' & _ & _ & -> & ->)
                   & (five & -> & Hfive & -> & ->))))).
  apply lit_ci_other in Hdot as ->; [|reflexivity | unfold DOT; lia].
  apply lit_ci_other in Hfive as ->; [|reflexivity | lia].
  assert (Hg : forall X, take (length (d1 :: DOT :: d2 :: X) - length X)
                              (d1 :: DOT :: d2 :: X) = [d1; DOT; d2])
    by (intros X; exact (take_app_exact [d1; DOT; d2] X)).
  rewrite Hg in Hsep. clear Hg.
  assert (Hsep' : exists sep, s2 = sep ++ ws' ++ 53 :: s'
                    /\ (sep = [] \/ sep = [47]
                        \/ map ascii_lower sep = [111; 117; 116; 32; 111; 102])
                    /\ g3 = Some [d1; DOT; d2]).
  { destruct Hsep as [[Hs | Hs] | Hs].
    - destruct Hs as (x & -> & Hx & _ & ->).
      apply lit_ci_other in Hx as ->; [|reflexivity | lia].
      exists [47]. auto.
    - destruct Hs as (a1 & b1 & c1 & (x1 & -> & H1 & -> & ->)
                      & (a2 & b2 & c2 & (x2 & -> & H2 & -> & ->)
                      & (a3 & b3 & c3 & (x3 & -> & H3 & -> & ->)
                      & (a4 & b4 & c4 & (x4 & -> & H4 & -> & ->)
                      & (a5 & b5 & c5 & (x5 & -> & H5 & -> & ->)
                      & (x6 & -> & H6 & _ & ->)))))).
      apply lit_eq_ci in H1, H2, H3, H4, H5, H6.
      exists [x1; x2; x3; x4; x5; x6]. split; [reflexivity|].
      split; [|reflexivity].
      right. right. cbn [map]. now rewrite H1, H2, H3, H4, H5, H6.
    - destruct Hs as (_ & -> & ->). exists []. auto. }
  destruct Hsep' as (sep & -> & Hsp & ->).
  exists [d1; DOT; d2]. split; [|reflexivity].
  exists d1, d2, ws, sep, ws', s'. repeat split; auto.
Qed.

Lemma RATING_TEXT_RE_complete (prev : option Z) (s t : str) :
  rating_text_here s t ->
  exists p' s', matches true RATING_TEXT_RE prev s None p' s' (Some t).
Proof.
  intros (d1 & d2 & ws & sep & ws' & rest & -> & -> & Hd1 & Hd2 & Hws & Hws'
          & Hsep).
  exists (Some 53), rest.
  unfold RATING_TEXT_RE, Star, Opt.
  change (py "out of") with [111; 117; 116; 32; 111; 102] in *.
  cbn [Seq Lits matches].
  exists (Some d2), (ws ++ sep ++ ws' ++ [53] ++ rest), (Some [d1; DOT; d2]).
  split.
  { exists None. split.
    - exists (Some d1), (DOT :: d2 :: ws ++ sep ++ ws' ++ [53] ++ rest), None.
      split; [exists d1; auto|].
      exists (Some DOT), (d2 :: ws ++ sep ++ ws' ++ [53] ++ rest), None.
      split; [exists DOT; auto | exists d2; auto].
    - f_equal. symmetry. exact (take_app_exact [d1; DOT; d2] _). }
  exists (prev_after (Some d2) ws), (sep ++ ws' ++ [53] ++ rest),
    (Some [d1; DOT; d2]).
  split; [exists ws; repeat split; auto; cbn; lia|].
  exists (prev_after (prev_after (Some d2) ws) sep), (ws' ++ [53] ++ rest),
    (Some [d1; DOT; d2]).
  split.
  { destruct Hsep as [-> | [-> | Hsep]].
    - right. auto.
    - left. left. exists 47. repeat split; reflexivity.
    - left. right.
      destruct sep as [|x1 [|x2 [|x3 [|x4 [|x5 [|x6 [|x7 sep]]]]]]];
        try discriminate.
      cbn in Hsep. injection Hsep as H1 H2 H3 H4 H5 H6.
      do 3 eexists. split.
      { exists x1. split; [reflexivity|]. split; [apply lit_eq_ci; exact H1|].
        split; reflexivity. }
      do 3 eexists. split.
      { exists x2. split; [reflexivity|]. split; [apply lit_eq_ci; exact H2|].
        split; reflexivity. }
      do 3 eexists. split.
      { exists x3. split; [reflexivity|]. split; [apply lit_eq_ci; exact H3|].
        split; reflexivity. }
      do 3 eexists. split.
      { exists x4. split; [reflexivity|]. split; [apply lit_eq_ci; exact H4|].
        split; reflexivity. }
      do 3 eexists. split.
      { exists x5. split; [reflexivity|]. split; [apply lit_eq_ci; exact H5|].
        split; reflexivity. }
      exists x6. split; [reflexivity|]. split; [apply lit_eq_ci; exact H6|].
      split; reflexivity. }
  exists (prev_after (prev_after (prev_after (Some d2) ws) sep) ws'),
    ([53] ++ rest), (Some [d1; DOT; d2]).
  split; [exists ws'; repeat split; auto; cbn; lia|].
  exists 53. repeat split; reflexivity.
Qed.

Lemma RATING_TEXT_RE_here (prev : option Z) (s t : str) :
  rating_text_here s t ->
  exists m, match_here true RATING_TEXT_RE prev s = Some m /\ group1 m = t.
Proof.
  intros Ht.
  destruct (RATING_TEXT_RE_complete prev s t Ht) as (p' & s' & Hm).
  assert (Hs : is_Some (match_here true RATING_TEXT_RE prev s)).
  { unfold match_here. eapply rmatch_complete; [exact Hm | eauto]. }
  destruct Hs as [m Hs]. exists m. split; [exact Hs|].
  unfold match_here in Hs.
  apply rmatch_sound in Hs as (p1 & s1 & g1 & Hm1 & [= <-]).
  apply RATING_TEXT_RE_sound in Hm1 as (t' & Ht' & ->). cbn.
  exact (rating_text_here_unique s t' t Ht' Ht).
Qed.

Lemma RATING_TEXT_RE_not_here (prev : option Z) (s : str) :
  (forall t, ~ rating_text_here s t) ->
  match_here true RATING_TEXT_RE prev s = None.
Proof.
  intros Hno. destruct (match_here true RATING_TEXT_RE prev s) as [m|] eqn:E;
    [|reflexivity].
  unfold match_here in E.
  apply rmatch_sound in E as (p1 & s1 & g1 & Hm1 & _).
  apply RATING_TEXT_RE_sound in Hm1 as (t & Ht & _). now destruct (Hno t).
Qed.
End RatingText.

(** *** The first match of each rating pattern *)

Section RatingSearch.
Context {U : Unicode}.

Lemma search_from_none (ic : bool) (r : regex) (s : str) :
  forall prev,
    (forall p1 p2 q, s = p1 ++ p2 -> match_here ic r q p2 = None) ->
    search_from ic r prev s = None.
Proof.
  induction s as [|x s IH]; intros prev Hno; cbn [search_from].
  - now rewrite (Hno [] [] prev eq_refl).
  - rewrite (Hno [] (x :: s) prev eq_refl). apply IH.
    intros p1 p2 q ->. now apply (Hno (x :: p1) p2 q).
Qed.

Lemma RATING_JSON_RE_sound (prev : option Z) (s : str) (m : rmatch_result) :
  match_here false RATING_JSON_RE prev s = Some m ->
  rating_json_here s (group1 m).
Proof.
  unfold match_here. intros H.
  apply rmatch_sound in H as (p' & s' & g' & Hm & [= <-]).
  revert Hm. unfold RATING_JSON_RE, Star, Plus.
  change ([QUOTE] ++ py "rating" ++ [QUOTE])
    with [34; 114; 97; 116; 105; 110; 103; 34].
  change ([QUOTE] ++ py "average" ++ [QUOTE])
    with [34; 97; 118; 101; 114; 97; 103; 101; 34].
  cbn [Seq Lits matches lit_eq].
  intros H.
  repeat match type of H with
  | exists _, _ => destruct H as [? H]
  | (exists _, _) /\ _ => destruct H as [[? ?] H]
  | _ /\ _ => destruct H as [? H]
  end.
  repeat match goal with
  | H : exists _, _ |- _ => destruct H as [? H]
  | H : _ /\ _ |- _ => destruct H
  | H : (_ =? _) = true |- _ => apply Z.eqb_eq in H
  end.
  subst. cbn [default group1 id].
  match goal with
  | |- rating_json_here _ (take _ (?num ++ ?rest)) =>
      rewrite (take_app_exact num rest)
  end.
  match goal with
  | |- rating_json_here
         (_ :: _ :: _ :: _ :: _ :: _ :: _ :: _ :: ?ws1 ++ _ :: ?ws2 ++ _ :: ?mid
          ++ _ :: _ :: _ :: _ :: _ :: _ :: _ :: _ :: _ :: ?ws3 ++ _ :: ?ws4
          ++ ?num ++ ?rest) _ =>
      exists ws1, ws2, mid, ws3, ws4, rest
  end.
  repeat split; try assumption.
  match goal with H : (1 <= length ?n)%nat |- ?n <> [] =>
    intros ->; cbn in H; lia end.
Qed.

Lemma search_first_structured_rating (page num : str) :
  first_structured_rating page num ->
  exists m, search false RATING_JSON_RE page = Some m /\ group1 m = num.
Proof.
  intros (pre & ws1 & ws2 & mid & ws3 & ws4 & r1 & r2 & -> & Hpre & H1 & H2
          & Hmid & H3 & H4 & Hnum & Hne & Hr1 & Hr2 & Hend & Honce).
  exists {| group1 := num; after := r1 ++ r2 |}. split; [|reflexivity].
  unfold search. rewrite search_from_skip.
  - apply search_from_here. unfold structured_rating_text.
    now apply RATING_JSON_RE_here.
  - intros p1 p2 q E Hp2. apply RATING_JSON_RE_not_here. now apply (Hpre p1).
Qed.

Lemma search_no_structured_rating (page : str) :
  contains RATING_KEY page = false ->
  search false RATING_JSON_RE page = None.
Proof.
  intros Hno. apply search_from_none. intros p1 p2 q ->.
  apply RATING_JSON_RE_not_here.
  destruct (starts_with RATING_KEY p2) eqn:E; [|reflexivity].
  now rewrite (contains_suffix RATING_KEY p1 p2 E) in Hno.
Qed.

Lemma search_structured_rating_sound (page : str) (m : rmatch_result) :
  search false RATING_JSON_RE page = Some m ->
  exists pre s, page = pre ++ s /\ rating_json_here s (group1 m).
Proof.
  unfold search. revert m. generalize (@None Z).
  induction page as [|x page IH]; intros prev m; cbn [search_from].
  - destruct (match_here false RATING_JSON_RE prev []) as [m'|] eqn:E;
      [|discriminate].
    intros [= <-]. exists [], []. split; [reflexivity|].
    now apply RATING_JSON_RE_sound in E.
  - destruct (match_here false RATING_JSON_RE prev (x :: page)) as [m'|] eqn:E.
    + intros [= <-]. exists [], (x :: page). split; [reflexivity|].
      now apply RATING_JSON_RE_sound in E.
    + intros H. apply IH in H as (pre & s & -> & Hs).
      now exists (x :: pre), s.
Qed.

Lemma search_first_rating_text (page t : str) :
  first_rating_text page t ->
  exists m, search true RATING_TEXT_RE page = Some m /\ group1 m = t.
Proof.
  intros (pre & s & -> & Ht & Hpre).
  destruct (RATING_TEXT_RE_here (prev_after None pre) s t Ht) as (m & Hm & Hg).
  exists m. split; [|exact Hg].
  unfold search. rewrite search_from_skip.
  - now apply search_from_here.
  - intros p1 p2 q E Hp2. apply RATING_TEXT_RE_not_here.
    intros t'. now apply (Hpre p1).
Qed.

Lemma search_no_rating_text (page : str) :
  (forall pre s t, page = pre ++ s -> ~ rating_text_here s t) ->
  search true RATING_TEXT_RE page = None.
Proof.
  intros Hno. apply search_from_none. intros p1 p2 q ->.
  apply RATING_TEXT_RE_not_here. intros t. now apply (Hno p1).
Qed.

Lemma search_rating_text_sound (page : str) (m : rmatch_result) :
  search true RATING_TEXT_RE page = Some m ->
  exists pre s, page = pre ++ s /\ rating_text_here s (group1 m).
Proof.
  intros H. apply search_from_sound in H as (pre & s1 & p' & g' & -> & Hm & Hg).
  apply RATING_TEXT_RE_sound in Hm as (t & Ht & ->).
  exists pre, s1. split; [reflexivity|]. now rewrite Hg.
Qed.

(** The value of a rating in words, and when it is plausible. *)
Lemma rating_text_value (s t : str) :
  rating_text_here s t ->
  py_float t = Some (fl (tenths t) 10)
  /\ 30 <= tenths t <= 59
  /\ plausible (fl (tenths t) 10) = (tenths t <=? 50).
Proof.
  intros (d1 & d2 & ws & sep & ws' & rest & -> & _ & Hd1 & Hd2 & _).
  unfold in_class in Hd1. unfold ascii_digit in Hd2.
  assert (E1 : d1 = 51 \/ d1 = 52 \/ d1 = 53) by lia.
  assert (E2 : d2 = 48 \/ d2 = 49 \/ d2 = 50 \/ d2 = 51 \/ d2 = 52 \/ d2 = 53
               \/ d2 = 54 \/ d2 = 55 \/ d2 = 56 \/ d2 = 57) by lia.
  clear Hd1 Hd2.
  destruct E1 as [-> | [-> | ->]];
    destruct E2 as [-> | [-> | [-> | [-> | [-> | [-> | [-> | [-> | [-> | ->]]]]]]]]];
    (split; [vm_compute; reflexivity|]);
    (split; [cbn; lia|]); vm_compute; reflexivity.
Qed.

Lemma rating_by_first_text (page t : str) :
  first_rating_text page t ->
  rating_by true RATING_TEXT_RE page
  = if tenths t <=? 50 then Some (fl (tenths t) 10) else None.
Proof.
  intros Hf. destruct (search_first_rating_text page t Hf) as (m & Hm & Hg).
  destruct Hf as (pre & s & _ & Ht & _).
  destruct (rating_text_value s t Ht) as (Hv & _ & Hp).
  unfold rating_by. now rewrite Hm, Hg, Hv, Hp.
Qed.

Lemma rating_by_text_value (page : str) (v : float) :
  rating_by true RATING_TEXT_RE page = Some v ->
  exists n, 30 <= n <= 50 /\ v = fl n 10.
Proof.
  intros (m & Hm & Hf & Hp)%rating_by_some.
  apply search_rating_text_sound in Hm as (pre & s & _ & Ht).
  destruct (rating_text_value s _ Ht) as (Hv & Hr & Hpl).
  rewrite Hv in Hf. injection Hf as <-. rewrite Hpl in Hp.
  exists (tenths (group1 m)). split; [lia | reflexivity].
Qed.

(** What the extraction returns on a page with a first structured rating,
    and on a page without the key. *)
Lemma extract_first_structured (page num : str) :
  first_structured_rating page num ->
  _extract_vivino_rating_from_html page
  = match py_float num with
    | Some v => if plausible v then Some v
                else rating_by true RATING_TEXT_RE page
    | None => rating_by true RATING_TEXT_RE page
    end.
Proof.
  intros Hf. destruct (search_first_structured_rating page num Hf)
    as (m & Hm & Hg).
  unfold _extract_vivino_rating_from_html, rating_by at 1.
  rewrite Hm, Hg. destruct (py_float num) as [v|]; [|reflexivity].
  now destruct (plausible v).
Qed.

Lemma extract_no_structured (page : str) :
  contains RATING_KEY page = false ->
  _extract_vivino_rating_from_html page = rating_by true RATING_TEXT_RE page.
Proof.
  intros Hno. unfold _extract_vivino_rating_from_html, rating_by at 1.
  now rewrite (search_no_structured_rating page Hno).
Qed.
End RatingSearch.

(** *** The page a match comes from *)

Lemma advanced_refl (w w' : world) :
  trace w' = trace w -> answers w' = answers w -> advanced w w' [].
Proof.
  intros Ht Ha. split; [now rewrite Ht, app_nil_r | intros m; now rewrite Ha].
Qed.

Lemma advanced_trans (w w1 w2 : world) (r1 r2 : list str) :
  advanced w w1 r1 -> advanced w1 w2 r2 -> advanced w w2 (r1 ++ r2).
Proof.
  intros [Ht1 Ha1] [Ht2 Ha2]. split.
  - now rewrite Ht2, Ht1, app_assoc.
  - intros m. rewrite Ha2, Ha1, length_app. f_equal. lia.
Qed.

Lemma advanced_set_cache (w w' : world) (reqs : list str) (k : str)
    (v : option match_result) :
  advanced w w' reqs -> advanced w (set_cache k v w') reqs.
Proof. intros [Ht Ha]. split; [exact Ht | exact Ha]. Qed.

Lemma advanced_fetch_text (u : str) (ps : list (str * str)) (lo hi : Q)
    (w : world) :
  (fetch_text u ps lo hi w).1 = body_of (answers w 0%nat)
  /\ advanced w (fetch_text u ps lo hi w).2 [u].
Proof.
  rewrite fetch_text_trace. split; [reflexivity|]. split.
  - cbn [snd trace]. now rewrite requested_get, requested_sleep.
  - intros m. reflexivity.
Qed.

Lemma advanced_backoff_loop (ps : list (str * str)) (n : nat) :
  forall (a : Z) (d : Q) (w : world),
    exists reqs, advanced w (backoff_loop ps n a d w).2 reqs.
Proof.
  induction n as [|n IH]; intros a d w.
  - exists []. now apply advanced_refl.
  - cbn [backoff_loop].
    set (w0 := emit _ w).
    assert (H1 : forall w2 reqs,
              advanced (request VIVINO_FALLBACK_SEARCH ps w0).2 w2 reqs ->
              advanced w w2 ([VIVINO_FALLBACK_SEARCH] ++ reqs)).
    { intros w2 reqs. apply advanced_trans. split.
      - unfold request, w0, emit. cbn [snd trace].
        now rewrite requested_get, requested_sleep.
      - intros m. reflexivity. }
    assert (H2 : forall w1 w2 reqs,
              advanced (random w1).2 w2 reqs -> advanced w1 w2 reqs).
    { intros w1 w2 reqs [Ht Ha]. split; [exact Ht | exact Ha]. }
    unfold request at 1. cbn [fst snd] in *.
    destruct (answers w0 0%nat) as [code body|].
    + destruct (code =? 429).
      * cbn. 
        match goal with |- context [backoff_loop ps n ?a' ?d' ?w'] =>
          destruct (IH a' d' w') as [reqs Hr] end.
        exists ([VIVINO_FALLBACK_SEARCH] ++ reqs). apply H1.
        exact Hr.
      * destruct (400 <=? code).
        -- match goal with |- context [backoff_loop ps n ?a' ?d' ?w'] =>
             destruct (IH a' d' w') as [reqs Hr] end.
           exists ([VIVINO_FALLBACK_SEARCH] ++ reqs). now apply H1.
        -- exists ([VIVINO_FALLBACK_SEARCH] ++ []). apply H1.
           now apply advanced_refl.
    + match goal with |- context [backoff_loop ps n ?a' ?d' ?w'] =>
        destruct (IH a' d' w') as [reqs Hr] end.
      exists ([VIVINO_FALLBACK_SEARCH] ++ reqs). now apply H1.
Qed.

Section FetchedPage.
Context {U : Unicode} {X : LinkExtraction}.

Lemma rating_of_some (a : response) (v : float) :
  rating_of a = Some v <->
  exists page, a = Status 200 page /\ page <> []
               /\ _extract_vivino_rating_from_html page = Some v.
Proof.
  unfold rating_of, body_of. split.
  - destruct a as [code body|]; [|discriminate].
    destruct (code =? 200) eqn:E; [|discriminate].
    apply Z.eqb_eq in E as ->.
    destruct body as [|c body]; [discriminate|]. intros H.
    exists (c :: body). split; [reflexivity|]. split; [discriminate | exact H].
  - intros (page & -> & Hne & H). cbn. destruct page; [congruence | exact H].
Qed.

(** The scan returns the rating of the first candidate page that shows
    one, with the address that was requested for it, and nothing when no
    page shows one. *)
Lemma scan_candidates_first (key : str) (urls : list str) :
  forall w,
    match (scan_candidates key urls w).1 with
    | Some res =>
        exists k v,
          urls !! k = Some (vivino_url res)
          /\ rating_of (answers w k) = Some v
          /\ (forall j, (j < k)%nat -> rating_of (answers w j) = None)
          /\ vivino_rating res = round2 v
          /\ advanced w (scan_candidates key urls w).2 (take (S k) urls)
    | None =>
        (forall j, (j < length urls)%nat -> rating_of (answers w j) = None)
        /\ advanced w (scan_candidates key urls w).2 urls
    end.
Proof.
  induction urls as [|vu urls IH]; intros w.
  - cbn. split; [intros j Hj; lia|]. now apply advanced_refl.
  - cbn [scan_candidates].
    destruct (advanced_fetch_text vu [] (6 # 10) (12 # 10) w) as [Hb Hadv].
    destruct (fetch_text vu [] (6 # 10) (12 # 10) w) as [page w1].
    cbn [fst snd] in Hb, Hadv. subst page.
    assert (Hrec : rating_of (answers w 0%nat) = None ->
      match (scan_candidates key urls w1).1 with
      | Some res =>
          exists k v,
            (vu :: urls) !! k = Some (vivino_url res)
            /\ rating_of (answers w k) = Some v
            /\ (forall j, (j < k)%nat -> rating_of (answers w j) = None)
            /\ vivino_rating res = round2 v
            /\ advanced w (scan_candidates key urls w1).2
                 (take (S k) (vu :: urls))
      | None =>
          (forall j, (j < length (vu :: urls))%nat ->
                     rating_of (answers w j) = None)
          /\ advanced w (scan_candidates key urls w1).2 (vu :: urls)
      end).
    { intros H0. specialize (IH w1).
      destruct ((scan_candidates key urls w1).1) as [res|].
      - destruct IH as (k & v & Hk & Hv & Hbefore & Hr & Ha).
        exists (S k), v. split; [exact Hk|].
        split; [now rewrite (proj2 Hadv) in Hv|]. split.
        { intros [|j] Hj; [exact H0|].
          specialize (Hbefore j ltac:(lia)).
          now rewrite (proj2 Hadv) in Hbefore. }
        split; [exact Hr|].
        exact (advanced_trans _ _ _ [vu] _ Hadv Ha).
      - destruct IH as [Hall Ha]. split.
        { intros [|j] Hj; [exact H0|]. cbn in Hj.
          specialize (Hall j ltac:(lia)).
          now rewrite (proj2 Hadv) in Hall. }
        exact (advanced_trans _ _ _ [vu] _ Hadv Ha). }
    unfold rating_of in Hrec.
    destruct (body_of (answers w 0%nat)) as [[|c page]|] eqn:Eb;
      try (apply Hrec; reflexivity).
    destruct (_extract_vivino_rating_from_html (c :: page)) as [rating|] eqn:Er;
      [|apply Hrec; reflexivity].
    cbn [fst snd]. exists 0%nat, rating. split; [reflexivity|].
    split; [unfold rating_of; now rewrite Eb|].
    split; [intros j Hj; lia|]. split; [reflexivity|].
    apply advanced_set_cache. cbn [take]. exact Hadv.
Qed.

(** A lookup that finds a match: the last request it made was for the
    address of the match, the answer to that request was a page with
    status 200, and the rating of the match is the rating of that page,
    rounded. *)
Lemma lookup_match_page (wine_name : str) (w w' : world) (res : match_result) :
  vivino_cache w !! strip wine_name = None ->
  vivino_lookup wine_name w = (Some res, w') ->
  exists reqs page v,
    requested (trace w') = requested (trace w) ++ reqs ++ [vivino_url res]
    /\ answers w (length reqs) = Status 200 page
    /\ page <> []
    /\ _extract_vivino_rating_from_html page = Some v
    /\ vivino_rating res = round2 v.
Proof.
  intros Hmiss. unfold vivino_lookup. rewrite Hmiss.
  set (params := [_; _]).
  destruct (advanced_fetch_text BING_SEARCH_URL params (4 # 10) 1 w)
    as [_ Hadv].
  destruct (fetch_text BING_SEARCH_URL params (4 # 10) 1 w) as [html w1].
  cbn [snd] in Hadv.
  set (viv := match html with Some (_ :: _ as h) => _ | _ => [] end).
  assert (Hscan : forall urls w2 reqs0,
            advanced w w2 reqs0 ->
            scan_candidates (strip wine_name) urls w2 = (Some res, w') ->
            exists reqs page v,
              requested (trace w') = requested (trace w) ++ reqs ++ [vivino_url res]
              /\ answers w (length reqs) = Status 200 page
              /\ page <> []
              /\ _extract_vivino_rating_from_html page = Some v
              /\ vivino_rating res = round2 v).
  { intros urls w2 reqs0 Ha Hs.
    pose proof (scan_candidates_first (strip wine_name) urls w2) as Hf.
    rewrite Hs in Hf. cbn [fst snd] in Hf.
    destruct Hf as (k & v & Hk & Hv & _ & Hr & Ha2).
    apply rating_of_some in Hv as (page & Hpage & Hne & Hv).
    pose proof (advanced_trans _ _ _ _ _ Ha Ha2) as [Ht _].
    rewrite (take_S_r _ _ _ Hk) in Ht.
    exists (reqs0 ++ take k urls), page, v.
    split; [now rewrite Ht, <- !app_assoc|].
    split; [|auto].
    rewrite <- Hpage, (proj2 Ha), length_app. f_equal.
    rewrite length_take. apply lookup_lt_Some in Hk. lia. }
  destruct viv as [|u us].
  - unfold _fetch_vivino_search_with_backoff.
    destruct (advanced_backoff_loop [(py "q", _he_to_en_query wine_name)]
                max_tries 1 2 w1) as [reqs1 Hb].
    destruct (backoff_loop _ _ _ _ w1) as [vhtml w2]. cbn [snd] in Hb.
    pose proof (advanced_trans _ _ _ _ _ Hadv Hb) as Ha.
    destruct vhtml as [[|c v]|]; now apply (Hscan _ w2 _ Ha).
  - now apply (Hscan _ w1 _ Hadv).
Qed.
End FetchedPage.

(** *** The rating rule *)

Section RatingRule.
Context {U : Unicode}.

Lemma rating_text_head (c : Z) (s t : str) :
  rating_text_here (c :: s) t -> in_class 51 53 c = true.
Proof.
  intros (d1 & d2 & ws & sep & ws' & rest & -> & E & Hd1 & _).
  cbn in E. now injection E as -> _.
Qed.

(** Before a digit from 3 to 5 there is no rating in words, and before a
    double quote no key. *)
Lemma no_rating_text_before (pre s : str) :
  Forall (fun c => in_class 51 53 c = false) pre ->
  forall p1 p2 t', pre = p1 ++ p2 -> p2 <> [] ->
                   ~ rating_text_here (p2 ++ s) t'.
Proof.
  intros Hpre p1 p2 t' E Hp2 Ht. destruct p2 as [|c p2]; [congruence|].
  apply rating_text_head in Ht.
  pose proof (suffix_head _ _ _ _ _ _ Hpre E eq_refl) as Hc. cbn in Hc.
  congruence.
Qed.

Lemma no_key_before (pre s : str) :
  Forall (fun c => c <> QUOTE) pre ->
  forall p1 p2, pre = p1 ++ p2 -> p2 <> [] ->
                starts_with RATING_KEY (p2 ++ s) = false.
Proof.
  intros Hpre p1 p2 E Hp2. destruct p2 as [|c p2]; [congruence|].
  apply starts_with_other.
  exact (suffix_head _ _ _ _ _ _ Hpre E eq_refl).
Qed.

Context {X : LinkExtraction}.

(** C6.  The rating of a page is looked for with the structured-data
    pattern first and the free-text pattern second; in either attempt the
    first match of the pattern is converted and is accepted exactly when it
    lies in the interval from 2.5 to 5.  So no result is ever outside the
    interval: 1.2 is never accepted, 4.3 is.

    What the patterns find.  Where the first ["rating"] key of the page is
    followed by a colon, an opening brace and, before the next closing
    brace, a last ["average"] key with a colon and a number, the structured
    pattern finds that number: when it converts to a plausible value the
    page has this rating, and otherwise the free-text pattern decides.  On
    a page without the key the free-text pattern decides as well.  The
    free-text pattern finds the first place at which a digit from 3 to 5, a
    dot and a digit are followed, after optional whitespace and an optional
    slash or [out of], by a 5; the page then has the rating shown when it
    is at most 5.0 and none when it is more, and a page without such a
    place has none.  Every match of either pattern has the form described.
    So a page whose first structured rating is 4.3 has the rating 4.3, and
    so has a page without the key whose first rating in words is 4.3; a
    page whose first structured rating is 1.2 has the rating its text
    shows, which is never 1.2, and none when the text shows none.

    A lookup that finds a match returns, and caches, the rating of the page
    it fetched last, from the address of the match, rounded to two
    decimals. *)
Theorem rating_accepted_iff_plausible (html : str) :
  (forall ic r v,
     rating_by ic r html = Some v <->
     exists m, search ic r html = Some m /\ py_float (group1 m) = Some v
               /\ plausible v = true)
  /\ (forall v,
        _extract_vivino_rating_from_html html = Some v <->
        rating_by false RATING_JSON_RE html = Some v
        \/ (rating_by false RATING_JSON_RE html = None
            /\ rating_by true RATING_TEXT_RE html = Some v))
  /\ (forall v,
        _extract_vivino_rating_from_html html = Some v ->
        plausible v = true /\ v <> fl 12 10)
  /\ (forall v,
        plausible v = true <->
        exists m e, v = Finite m e
          /\ 5 * 2 ^ Z.max 0 (- e) <= 2 * (m * 2 ^ Z.max 0 e)
          /\ m * 2 ^ Z.max 0 e <= 5 * 2 ^ Z.max 0 (- e))
  /\ (plausible (fl 12 10) = false /\ plausible (fl 43 10) = true
      /\ round2 (fl 43 10) = fl 43 10)
  /\ (forall wine_name w res w',
        vivino_cache w !! strip wine_name = None ->
        vivino_lookup wine_name w = (Some res, w') ->
        vivino_cache w' !! strip wine_name = Some (Some res)
        /\ exists reqs page v,
             requested (trace w')
               = requested (trace w) ++ reqs ++ [vivino_url res]
             /\ answers w (length reqs) = Status 200 page
             /\ _extract_vivino_rating_from_html page = Some v
             /\ plausible v = true
             /\ vivino_rating res = round2 v)
  /\ (forall m e,
        exists k,
          round2 (Finite m e) = fl k 100
          /\ Z.abs (2 * (m * 100 * 2 ^ Z.max 0 e) - 2 * k * 2 ^ Z.max 0 (- e))
             <= 2 ^ Z.max 0 (- e))
  /\ (forall num,
        first_structured_rating html num ->
        (exists m, search false RATING_JSON_RE html = Some m
                   /\ group1 m = num)
        /\ _extract_vivino_rating_from_html html
           = match py_float num with
             | Some v => if plausible v then Some v
                         else rating_by true RATING_TEXT_RE html
             | None => rating_by true RATING_TEXT_RE html
             end)
  /\ (contains RATING_KEY html = false ->
      _extract_vivino_rating_from_html html
      = rating_by true RATING_TEXT_RE html)
  /\ (forall t,
        first_rating_text html t ->
        (exists m, search true RATING_TEXT_RE html = Some m /\ group1 m = t)
        /\ 30 <= tenths t <= 59
        /\ rating_by true RATING_TEXT_RE html
           = if tenths t <=? 50 then Some (fl (tenths t) 10) else None)
  /\ ((forall pre s t, html = pre ++ s -> ~ rating_text_here s t) ->
      rating_by true RATING_TEXT_RE html = None)
  /\ (forall m,
        search false RATING_JSON_RE html = Some m ->
        exists pre s, html = pre ++ s /\ rating_json_here s (group1 m))
  /\ (forall m,
        search true RATING_TEXT_RE html = Some m ->
        exists pre s, html = pre ++ s /\ rating_text_here s (group1 m))
  /\ (first_structured_rating html (py "4.3") ->
      _extract_vivino_rating_from_html html = Some (fl 43 10))
  /\ (contains RATING_KEY html = false ->
      first_rating_text html (py "4.3") ->
      _extract_vivino_rating_from_html html = Some (fl 43 10))
  /\ (first_structured_rating html (py "1.2") ->
      _extract_vivino_rating_from_html html
      = rating_by true RATING_TEXT_RE html
      /\ ((forall pre s t, html = pre ++ s -> ~ rating_text_here s t) ->
          _extract_vivino_rating_from_html html = None)).
Proof.
  split; [intros ic r v; apply rating_by_some|].
  split; [intros v; apply extract_rating_some|].
  split.
  { intros v Hv. pose proof (extract_rating_plausible _ _ Hv) as Hp.
    split; [exact Hp|]. intros ->. vm_compute in Hp. discriminate. }
  split; [apply plausible_range|].
  split; [repeat split; vm_compute; reflexivity|].
  split.
  { intros wine_name w res w' Hmiss Hl. split.
    - pose proof (cache_lookup_stores wine_name w) as Hs.
      rewrite Hl in Hs. exact Hs.
    - destruct (lookup_match_page wine_name w w' res Hmiss Hl)
        as (reqs & page & v & Hreq & Hans & _ & Hv & Hr).
      exists reqs, page, v. repeat split; auto.
      now apply extract_rating_plausible in Hv. }
  split; [apply round2_hundredths|].
  split.
  { intros num Hf. split; [now apply search_first_structured_rating|].
    now apply extract_first_structured. }
  split; [apply extract_no_structured|].
  split.
  { intros t Hf. split; [now apply search_first_rating_text|].
    split; [|now apply rating_by_first_text].
    destruct Hf as (pre & s & _ & Ht & _).
    now destruct (rating_text_value s t Ht) as (_ & Hr & _). }
  split.
  { intros Hno. unfold rating_by.
    now rewrite (search_no_rating_text html Hno). }
  split; [apply search_structured_rating_sound|].
  split; [apply search_rating_text_sound|].
  split.
  { intros Hf. now rewrite (extract_first_structured html _ Hf). }
  split.
  { intros Hno Hf. rewrite (extract_no_structured html Hno).
    now rewrite (rating_by_first_text html _ Hf). }
  intros Hf. rewrite (extract_first_structured html _ Hf).
  split; [reflexivity|].
  intros Hno. change (py_float (py "1.2")) with (Some (fl 12 10)).
  cbv iota beta. change (plausible (fl 12 10)) with false. cbv iota.
  unfold rating_by. now rewrite (search_no_rating_text html Hno).
Qed.
End RatingRule.

(** Pages on which the rule applies: a structured rating after other
    fields, and a rating in words after other words. *)
Example first_structured_rating_4_3 :
  first_structured_rating
    (py "{" ++ RATING_KEY ++ py ": {" ++ [QUOTE] ++ py "count" ++ [QUOTE]
     ++ py ": 12, " ++ AVERAGE_KEY ++ py ": 4.3}}")
    (py "4.3").
Proof.
  exists (py "{"), [], (py " "),
    ([QUOTE] ++ py "count" ++ [QUOTE] ++ py ": 12, "), [], (py " "),
    [], (py "}}").
  split; [reflexivity|]. split.
  { apply no_key_before. repeat constructor. discriminate. }
  repeat (split; [reflexivity || discriminate|]).
  intros p1 p2 E Hp2. destruct p1; destruct p2; try discriminate. congruence.
Qed.

Example first_rating_text_4_3 :
  first_rating_text (py "Rated 4.3 out of 5") (py "4.3").
Proof.
  exists (py "Rated "), (py "4.3 out of 5"). split; [reflexivity|]. split.
  - exists 52, 51, (py " "), (py "out of"), (py " "), [].
    repeat (split; [reflexivity|]). right. right. reflexivity.
  - apply no_rating_text_before. repeat constructor.
Qed.

(** *** Lookups that run together *)

Lemma run_pbind {A B : Type} (p : proc A) (f : A -> proc B) :
  forall w, run (pbind p f) w = let '(a, w') := run p w in run (f a) w'.
Proof.
  induction p as [a|C g k IH|k IH|k IH|k IH]; intros w; cbn [pbind run];
    try apply IH; [reflexivity|].
  destruct (g w) as [b w']. apply IH.
Qed.

Lemma run_fetch_text_proc (u : str) (ps : list (str * str)) (lo hi : Q)
    (w : world) :
  run (fetch_text_proc u ps lo hi) w = fetch_text u ps lo hi w.
Proof.
  rewrite fetch_text_trace. reflexivity.
Qed.

Lemma run_backoff_proc (ps : list (str * str)) (n : nat) :
  forall (a : Z) (d : Q) (w : world),
    run (backoff_proc ps n a d) w = backoff_loop ps n a d w.
Proof.
  induction n as [|n IH]; intros a d w; [reflexivity|].
  cbn [backoff_proc backoff_loop run exec]. cbn [request].
  destruct (answers (emit _ w) 0%nat) as [code body|]; cbn [run].
  - destruct (code =? 429); [cbn [run random]; apply IH|].
    destruct (400 <=? code); [apply IH | reflexivity].
  - apply IH.
Qed.

Section TaskFacts.
Context {U : Unicode} {X : LinkExtraction}.

Lemma run_scan_proc (key : str) (urls : list str) :
  forall w, run (scan_proc key urls) w = scan_candidates key urls w.
Proof.
  induction urls as [|vu urls IH]; intros w; [reflexivity|].
  cbn [scan_proc scan_candidates]. rewrite run_pbind, run_fetch_text_proc.
  destruct (fetch_text vu [] (6 # 10) (12 # 10) w) as [page w1].
  destruct page as [[|c page]|]; try apply IH.
  destruct (_extract_vivino_rating_from_html (c :: page)); [reflexivity|].
  apply IH.
Qed.

(** Run alone, the coroutine is the lookup. *)
Lemma run_vivino_lookup_proc (wine_name : str) (w : world) :
  run (vivino_lookup_proc wine_name) w = vivino_lookup wine_name w.
Proof.
  unfold vivino_lookup_proc, vivino_lookup. cbn [run].
  destruct (vivino_cache w !! strip wine_name) as [cached|]; [reflexivity|].
  rewrite run_pbind, run_fetch_text_proc.
  destruct (fetch_text BING_SEARCH_URL _ _ _ w) as [html w1].
  rewrite run_pbind.
  match goal with
  | |- context [match ?l with [] => _ | _ :: _ => _ end] => destruct l as [|u us]
  end.
  - rewrite run_pbind. unfold _fetch_vivino_search_with_backoff_proc.
    cbn [run]. rewrite run_pbind, run_backoff_proc.
    unfold _fetch_vivino_search_with_backoff.
    destruct (backoff_loop _ _ _ _ w1) as [vhtml w2]. cbn [run].
    destruct vhtml as [[|c v]|]; cbn [run]; apply run_scan_proc.
  - cbn [run]. apply run_scan_proc.
Qed.

(** No coroutine of the matcher removes an entry. *)
Lemma keeps_pbind {A B : Type} (p : proc A) (f : A -> proc B) :
  keeps_entries p -> (forall a, keeps_entries (f a)) ->
  keeps_entries (pbind p f).
Proof.
  intros Hp Hf. induction Hp; cbn [pbind]; try (constructor; auto).
  apply Hf.
Qed.

Lemma keeps_fetch_text_proc (u : str) (ps : list (str * str)) (lo hi : Q) :
  keeps_entries (fetch_text_proc u ps lo hi).
Proof.
  unfold fetch_text_proc, exec.
  repeat (constructor; try (intros; assumption); intros).
Qed.

Lemma keeps_backoff_proc (ps : list (str * str)) (n : nat) :
  forall (a : Z) (d : Q), keeps_entries (backoff_proc ps n a d).
Proof.
  induction n as [|n IH]; intros a d; [constructor|].
  cbn [backoff_proc]. unfold exec.
  constructor; [intros; assumption|]. intros _.
  constructor. constructor; [intros; assumption|]. intros r.
  constructor. destruct r as [code body|]; [|apply IH].
  destruct (code =? 429).
  - constructor; [intros; assumption|]. intros. apply IH.
  - destruct (400 <=? code); [apply IH | constructor].
Qed.

Lemma set_cache_keeps (k : str) (v : option match_result) (w : world)
    (key : str) :
  is_Some (vivino_cache w !! key) ->
  is_Some (vivino_cache (set_cache k v w) !! key).
Proof.
  intros H. cbn. destruct (decide (k = key)) as [-> | Hne].
  - rewrite lookup_insert_eq. eauto.
  - now rewrite lookup_insert_ne.
Qed.

Lemma keeps_scan_proc (key : str) (urls : list str) :
  keeps_entries (scan_proc key urls).
Proof.
  induction urls as [|vu urls IH]; cbn [scan_proc]; unfold exec.
  - constructor; [|constructor]. intros w k. apply set_cache_keeps.
  - apply keeps_pbind; [apply keeps_fetch_text_proc|].
    intros [[|c page]|]; try exact IH.
    destruct (_extract_vivino_rating_from_html (c :: page)); [|exact IH].
    constructor; [|constructor]. intros w k. apply set_cache_keeps.
Qed.

Lemma keeps_vivino_lookup_proc (wine_name : str) :
  keeps_entries (vivino_lookup_proc wine_name).
Proof.
  unfold vivino_lookup_proc. constructor; [intros; assumption|].
  intros [cached|]; [constructor|].
  apply keeps_pbind; [apply keeps_fetch_text_proc|]. intros html.
  apply keeps_pbind; [|intros; apply keeps_scan_proc].
  match goal with
  | |- context [match ?l with [] => _ | _ :: _ => _ end] => destruct l as [|u us]
  end; [|constructor].
  apply keeps_pbind.
  - unfold _fetch_vivino_search_with_backoff_proc. constructor.
    apply keeps_pbind; [apply keeps_backoff_proc|].
    intros r. constructor. constructor.
  - intros [[|c v]|]; constructor.
Qed.

Lemma settle_keeps (p : proc (option match_result)) :
  keeps_entries p ->
  forall w free,
    keeps_entries (settle p w free).1.1
    /\ forall key, is_Some (vivino_cache w !! key) ->
                   is_Some (vivino_cache (settle p w free).1.2 !! key).
Proof.
  induction 1 as [a|B f k Hf Hk IH|k Hk IH|k Hk IH|k Hk IH]; intros w free;
    cbn [settle].
  - split; [constructor | auto].
  - specialize (Hf w). destruct (f w) as [b w']. cbn [snd] in Hf.
    destruct (IH b w' free) as [H1 H2]. split; [exact H1|].
    intros key Hkey. apply H2, Hf, Hkey.
  - split; [now constructor | auto].
  - destruct free as [|free]; [split; [now constructor | auto]|]. apply IH.
  - apply IH.
Qed.

Lemma park_keeps (p : proc (option match_result)) :
  keeps_entries p -> task_keeps_entries (park p).
Proof. intros H. destruct p; cbn; auto. Qed.

Lemma step_keeps (i : nat) (c c' : pool) :
  Forall task_keeps_entries (tasks c) ->
  step i c = Some c' ->
  Forall task_keeps_entries (tasks c')
  /\ forall key, is_Some (vivino_cache (shared c) !! key) ->
                 is_Some (vivino_cache (shared c') !! key).
Proof.
  intros Hall. unfold step.
  assert (Hset : forall p,
            keeps_entries p ->
            Forall task_keeps_entries
              (tasks (settled i c (settle p (shared c) (fallback_free c))))
            /\ forall key, is_Some (vivino_cache (shared c) !! key) ->
                 is_Some (vivino_cache
                   (shared (settled i c (settle p (shared c) (fallback_free c))))
                   !! key)).
  { intros p Hp.
    destruct (settle_keeps p Hp (shared c) (fallback_free c)) as [H1 H2].
    split; [|exact H2]. cbn [settled tasks].
    apply Forall_insert; [exact Hall | now apply park_keeps]. }
  destruct (tasks c !! i) as [[name|p|res]|] eqn:Ei; try discriminate.
  - destruct (_ <? _)%nat; [|discriminate]. intros [= <-].
    exact (Hset _ (keeps_vivino_lookup_proc name)).
  - assert (Hp : keeps_entries p).
    { exact (proj1 (Forall_lookup _ _) Hall i _ Ei). }
    destruct p as [a|B f k|k|k|k]; try discriminate.
    + intros [= <-]. apply (Hset k). now inversion Hp.
    + destruct (fallback_free c) eqn:Ef; [discriminate|]. intros [= <-].
      exact (Hset _ Hp).
Qed.

Lemma schedule_keeps (order : list nat) :
  forall c c',
    Forall task_keeps_entries (tasks c) ->
    schedule order c = Some c' ->
    Forall task_keeps_entries (tasks c')
    /\ forall key, is_Some (vivino_cache (shared c) !! key) ->
                   is_Some (vivino_cache (shared c') !! key).
Proof.
  induction order as [|i order IH]; intros c c' Hall; cbn [schedule].
  - intros [= <-]. auto.
  - destruct (step i c) as [c1|] eqn:Es; [|discriminate]. intros Hs.
    destruct (step_keeps i c c1 Hall Es) as [H1 H2].
    destruct (IH c1 c' H1 Hs) as [H3 H4]. split; [exact H3|].
    intros key Hkey. apply H4, H2, Hkey.
Qed.

Lemma start_keeps (names : list str) (w : world) :
  Forall task_keeps_entries (tasks (start names w)).
Proof. cbn. apply Forall_forall. intros t [n [-> _]]%list_elem_of_fmap. exact I. Qed.

(** A task that starts when its name has an entry ends in the same
    stretch, with the entry, and leaves the state as it was. *)
Lemma step_hit (i : nat) (c : pool) (wine_name : str)
    (entry : option match_result) :
  tasks c !! i = Some (Waiting wine_name) ->
  vivino_cache (shared c) !! strip wine_name = Some entry ->
  (length (List.filter is_running (tasks c)) < VIV_PERMITS)%nat ->
  step i c = Some {| tasks := <[i := Finished entry]> (tasks c);
                     shared := shared c;
                     fallback_free := fallback_free c |}.
Proof.
  intros Hi Hhit Hfree. unfold step. rewrite Hi.
  apply Nat.ltb_lt in Hfree. rewrite Hfree.
  unfold vivino_lookup_proc. cbn [settle]. rewrite Hhit. reflexivity.
Qed.
End TaskFacts.

Section CacheRule.
Context {U : Unicode} {X : LinkExtraction} {F : CacheFile}.

End CacheRule.



(** *** Pages on which the structured data stops the parse *)

(** C3.  A page with a product marker, a title and a price in its meta
    tags, and a structured product whose name is the number 1848: the meta
    tags alone give a name and a price, yet [parse_pdp] returns neither a
    record nor nothing; the [TypeError] of the structured-data strategy
    goes through it. *)
Theorem parse_pdp_raises_on_marked_page :
  has_product_marker (U := ascii_unicode) ld_numbered = true
  /\ dict_get (_from_meta_tags (U := ascii_unicode)
                 (L := page_library (Some (fun _ => ld_numbered))) ld_numbered)
       "name" = VStr (py "1848 Winery")
  /\ dict_get (_from_meta_tags (U := ascii_unicode)
                 (L := page_library (Some (fun _ => ld_numbered))) ld_numbered)
       "price_value" = VFloat (float_of_Z 8990)
  /\ _from_json_ld (U := ascii_unicode)
       (L := page_library (Some (fun _ => ld_numbered))) ld_numbered
     = Raise TypeError
  /\ parse_pdp (U := ascii_unicode)
       (L := page_library (Some (fun _ => ld_numbered))) some_html some_url
     = Raise TypeError.
Proof. repeat split; vm_compute; reflexivity. Qed.

(** C4.  A page without a product marker whose structured product has a
    list where the price specification of the offer should be an object:
    the strategy yields no name, yet the page is not rejected with
    nothing; the [AttributeError] of the strategy goes through the gate
    and through [parse_pdp]. *)
Theorem gate_raises_on_unmarked_page :
  has_product_marker (U := ascii_unicode) ld_price_list = false
  /\ _from_json_ld (U := ascii_unicode)
       (L := page_library (Some (fun _ => ld_price_list))) ld_price_list
     = Raise AttributeError
  /\ page_looks_like_product (U := ascii_unicode)
       (L := page_library (Some (fun _ => ld_price_list))) ld_price_list
     = Raise AttributeError
  /\ parse_pdp (U := ascii_unicode)
       (L := page_library (Some (fun _ => ld_price_list))) some_html some_url
     = Raise AttributeError.
Proof. repeat split; vm_compute; reflexivity. Qed.
